(** * ChessVariant: a shallow embedding of the bitboard move engine

    The development embeds [board.py] (class [Board]) and the game-level
    methods of [chessVar.py] (class [ChessVar]) and proves properties of
    ray casting, knight and pawn move generation, move execution, capture
    bookkeeping and the win condition.

    Modelling conventions.
    - Python integers are unbounded: a bitboard is a [Z], and [&], [|], [~],
      [<<], [>>] are [Z.land], [Z.lor], [Z.lnot], [Z.shiftl], [Z.shiftr].
      Nothing is truncated to 64 bits, as nothing is in the source.
    - A Python list of piece bitboards is a [list Z]; indexing outside the
      list raises [IndexError].
    - Methods that mutate [self] take the object and return the new one.
    - Exceptions are values of [result]; the recursion of the ray casters is
      bounded by an explicit depth, and exceeding it is [RecursionError].
    - Strings are byte strings; the labels of interest are ASCII. *)

From Stdlib Require Import ZArith Lia Bool List String Ascii.
From stdpp Require Import base list strings.

Local Open Scope string_scope.
Local Open Scope Z_scope.

(** ** Python values, truthiness and exceptions *)

Inductive exn : Type := ValueError | IndexError | TypeError | RecursionError.

Inductive result (A : Type) : Type :=
| Ret (a : A)
| Raise (e : exn).
Arguments Ret {A} a.
Arguments Raise {A} e.

Definition bind {A B : Type} (c : result A) (k : A -> result B) : result B :=
  match c with
  | Ret a => k a
  | Raise e => Raise e
  end.

Notation "'let*' x ':=' c 'in' k" := (bind c (fun x => k))
  (at level 10, x pattern, c at level 100, k at level 200).

(** [if z:] on an integer. *)
Definition truthy (z : Z) : bool := negb (z =? 0).

(** [lst[i]] *)
Definition list_get (l : list Z) (i : nat) : result Z :=
  match l !! i with
  | Some x => Ret x
  | None => Raise IndexError
  end.

(** [lst[i] = v] *)
Definition list_set (l : list Z) (i : nat) (v : Z) : result (list Z) :=
  if (i <? length l)%nat then Ret (<[i := v]> l) else Raise IndexError.

(** An index that may be [None]: indexing a list with [None] is a [TypeError]. *)
Definition index_of (o : option nat) : result nat :=
  match o with
  | Some i => Ret i
  | None => Raise TypeError
  end.

(** The values a caller may pass where a square label is expected. *)
Inductive pyval : Type :=
| PyStr (s : string)
| PyInt (z : Z)
| PyNone.

(** Strings are strings of ASCII characters: a character below 128 stands
    for itself, and on such strings [upper], [ord] and [int_of_char] below
    are Python's [str.upper], [ord] and [int].  Python strings may also hold
    characters outside ASCII, on which [str.upper] and [int] do more (some
    change length when upper-cased, some are digits); the strings here do not
    represent those, and the statements that depend on it say so with
    [ascii_only]. *)

(** [c.upper()] on one ASCII character. *)
Definition upper_ascii (c : ascii) : ascii :=
  let n := N_of_ascii c in
  if ((97 <=? n) && (n <=? 122))%N then ascii_of_N (n - 32) else c.

(** [s.upper()] on a string of ASCII characters. *)
Fixpoint upper (s : string) : string :=
  match s with
  | EmptyString => EmptyString
  | String c s' => String (upper_ascii c) (upper s')
  end.

(** [ord(c)] *)
Definition ord (c : ascii) : Z := Z.of_N (N_of_ascii c).

(** [int(c)] on a one-character ASCII string: a decimal digit or
    [ValueError]. *)
Definition int_of_char (c : ascii) : result Z :=
  let n := ord c in
  if (48 <=? n) && (n <=? 57) then Ret (n - 48) else Raise ValueError.

(** ** The board object *)

Record Board : Type := mkBoard {
  _current_turn : string;
  _piece_moved_index : option nat;
  _piece_captured_index : option nat;
  _white_pieces_list : list Z;
  _black_pieces_list : list Z;
  _all_white_pieces_bb : Z;
  _all_black_pieces_bb : Z;
  _all_pieces_bb : Z
}.

Definition _piece_names : list string :=
  ["Pawn"; "Rook"; "Knight"; "Bishop"; "Queen"; "King"].

Definition set_current_turn (v : string) (b : Board) : Board :=
  mkBoard v (_piece_moved_index b) (_piece_captured_index b)
    (_white_pieces_list b) (_black_pieces_list b)
    (_all_white_pieces_bb b) (_all_black_pieces_bb b) (_all_pieces_bb b).

Definition set_piece_moved_index (v : option nat) (b : Board) : Board :=
  mkBoard (_current_turn b) v (_piece_captured_index b)
    (_white_pieces_list b) (_black_pieces_list b)
    (_all_white_pieces_bb b) (_all_black_pieces_bb b) (_all_pieces_bb b).

Definition set_piece_captured_index (v : option nat) (b : Board) : Board :=
  mkBoard (_current_turn b) (_piece_moved_index b) v
    (_white_pieces_list b) (_black_pieces_list b)
    (_all_white_pieces_bb b) (_all_black_pieces_bb b) (_all_pieces_bb b).

Definition set_white_pieces_list (v : list Z) (b : Board) : Board :=
  mkBoard (_current_turn b) (_piece_moved_index b) (_piece_captured_index b)
    v (_black_pieces_list b)
    (_all_white_pieces_bb b) (_all_black_pieces_bb b) (_all_pieces_bb b).

Definition set_black_pieces_list (v : list Z) (b : Board) : Board :=
  mkBoard (_current_turn b) (_piece_moved_index b) (_piece_captured_index b)
    (_white_pieces_list b) v
    (_all_white_pieces_bb b) (_all_black_pieces_bb b) (_all_pieces_bb b).

Definition set_all_white_pieces_bb (v : Z) (b : Board) : Board :=
  mkBoard (_current_turn b) (_piece_moved_index b) (_piece_captured_index b)
    (_white_pieces_list b) (_black_pieces_list b)
    v (_all_black_pieces_bb b) (_all_pieces_bb b).

Definition set_all_black_pieces_bb (v : Z) (b : Board) : Board :=
  mkBoard (_current_turn b) (_piece_moved_index b) (_piece_captured_index b)
    (_white_pieces_list b) (_black_pieces_list b)
    (_all_white_pieces_bb b) v (_all_pieces_bb b).

Definition set_all_pieces_bb (v : Z) (b : Board) : Board :=
  mkBoard (_current_turn b) (_piece_moved_index b) (_piece_captured_index b)
    (_white_pieces_list b) (_black_pieces_list b)
    (_all_white_pieces_bb b) (_all_black_pieces_bb b) v.

(** [self._current_turn == "White"] *)
Definition white_to_move (b : Board) : bool := String.eqb (_current_turn b) "White".

(** [setup_new_board], run by [__init__] on the freshly created object.
    The source's binary literals are written in hexadecimal:
    0b11111111 = 0xff, 0b10000001 = 0x81, 0b01000010 = 0x42,
    0b00100100 = 0x24, 0b00001000 = 0x08, 0b00010000 = 0x10. *)
Definition setup_new_board : Board :=
  {| _current_turn := "White";
     _piece_moved_index := None;
     _piece_captured_index := None;
     _white_pieces_list :=
       [ Z.shiftl 0xff 8; 0x81; 0x42;
         0x24; 0x08; 0x10 ];
     _black_pieces_list :=
       [ Z.shiftl 0xff (8 * 6); Z.shiftl 0x81 (8 * 7);
         Z.shiftl 0x42 (8 * 7); Z.shiftl 0x24 (8 * 7);
         Z.shiftl 0x08 (8 * 7); Z.shiftl 0x10 (8 * 7) ];
     _all_white_pieces_bb := 0xffff;
     _all_black_pieces_bb := 0xffff000000000000;
     _all_pieces_bb := 0xffff00000000ffff |}.

(** *** Get and set methods *)

Definition get_pieces (self : Board) : list Z * list Z :=
  (_white_pieces_list self, _black_pieces_list self).

Definition get_turn (self : Board) : string := _current_turn self.

Definition get_piece_moved (self : Board) : result (string * Board) :=
  let* i := index_of (_piece_moved_index self) in
  match _piece_names !! i with
  | Some piece_type => Ret (piece_type, set_piece_moved_index None self)
  | None => Raise IndexError
  end.

Definition get_piece_captured (self : Board) : result (option string * Board) :=
  match _piece_captured_index self with
  | None => Ret (None, self)
  | Some i =>
    match _piece_names !! i with
    | Some piece_type => Ret (Some piece_type, set_piece_captured_index None self)
    | None => Raise IndexError
    end
  end.

Definition set_next_turn (self : Board) : Board :=
  if white_to_move self then set_current_turn "Black" self
  else set_current_turn "White" self.

(** *** Recursive movement checkers

    [depth] bounds the recursion: a call made with no depth left raises
    [RecursionError].  [move_limit_count] is [None] or a count. *)

(** The boundary test of [recc_left_shift] for each direction. *)
Definition left_blocked (self : Board) (location_bb direction : Z) : bool :=
  if direction =? 8 then
    truthy (Z.land location_bb 0xff00000000000000) || truthy (Z.land location_bb (_all_pieces_bb self))
  else if direction =? 1 then
    truthy (Z.land location_bb 0x8080808080808080) || truthy (Z.land location_bb (_all_pieces_bb self))
  else if direction =? 7 then
    truthy (Z.land location_bb 0xff01010101010101) || truthy (Z.land location_bb (_all_pieces_bb self))
  else if direction =? 9 then
    truthy (Z.land location_bb 0xff80808080808080) || truthy (Z.land location_bb (_all_pieces_bb self))
  else false.

(** The boundary test of [recc_right_shift] for each direction. *)
Definition right_blocked (self : Board) (location_bb direction : Z) : bool :=
  if direction =? 8 then
    truthy (Z.land location_bb 0xff) || truthy (Z.land location_bb (_all_pieces_bb self))
  else if direction =? 1 then
    truthy (Z.land location_bb 0x101010101010101) || truthy (Z.land location_bb (_all_pieces_bb self))
  else if direction =? 7 then
    truthy (Z.land location_bb 0x80808080808080ff) || truthy (Z.land location_bb (_all_pieces_bb self))
  else if direction =? 9 then
    truthy (Z.land location_bb 0x1010101010101ff) || truthy (Z.land location_bb (_all_pieces_bb self))
  else false.

(** "manage count if a move limit is set": [None] when the limit is used up,
    otherwise the limit to pass on. *)
Definition manage_count (move_limit_count : option Z) : option (option Z) :=
  match move_limit_count with
  | Some c => if c <=? 0 then None else Some (Some (c - 1))
  | None => Some None
  end.

Fixpoint recc_left_shift (depth : nat) (self : Board)
    (location_bb direction : Z) (move_limit_count : option Z) : result Z :=
  match depth with
  | O => Raise RecursionError
  | S depth' =>
    match manage_count move_limit_count with
    | None => Ret 0
    | Some move_limit_count =>
      if left_blocked self location_bb direction then Ret 0
      else
        let destination_bb := Z.shiftl location_bb direction in
        let* rest := recc_left_shift depth' self destination_bb direction move_limit_count in
        Ret (Z.lor destination_bb rest)
    end
  end.

Fixpoint recc_right_shift (depth : nat) (self : Board)
    (location_bb direction : Z) (move_limit_count : option Z) : result Z :=
  match depth with
  | O => Raise RecursionError
  | S depth' =>
    match manage_count move_limit_count with
    | None => Ret 0
    | Some move_limit_count =>
      if right_blocked self location_bb direction then Ret 0
      else
        let destination_bb := Z.shiftr location_bb direction in
        let* rest := recc_right_shift depth' self destination_bb direction move_limit_count in
        Ret (Z.lor destination_bb rest)
    end
  end.

(** *** Movement generators *)

(** The [for direction in directions] loop of [generate_moves]. *)
Fixpoint generate_moves_loop (depth : nat) (self : Board) (origin_bb : Z)
    (directions : list Z) (move_limit : option Z) (moves_result_bb : Z) : result Z :=
  match directions with
  | [] => Ret moves_result_bb
  | direction :: directions' =>
    let* moves_result_bb :=
      if 0 <? direction then
        let* ray := recc_left_shift depth self origin_bb direction move_limit in
        Ret (Z.lor moves_result_bb ray)
      else if direction <? 0 then
        let* ray := recc_right_shift depth self origin_bb (Z.abs direction) move_limit in
        Ret (Z.lor moves_result_bb ray)
      else Ret moves_result_bb in
    generate_moves_loop depth self origin_bb directions' move_limit moves_result_bb
  end.

Definition generate_moves (depth : nat) (self : Board) (origin_bb : Z)
    (directions : list Z) (move_limit : option Z) : result Z :=
  generate_moves_loop depth self origin_bb directions move_limit 0.

Definition generate_moves_pawn (depth : nat) (self : Board) (move_from_bb : Z) : result Z :=
  let forward_move_limit := 1 in
  let '(direction, forward_move_limit) :=
    if white_to_move self then
      (1, if truthy (Z.land move_from_bb 0xff00) then 2 else forward_move_limit)
    else
      (-1, if truthy (Z.land move_from_bb 0xff000000000000) then 2 else forward_move_limit) in
  let* valid_moves_bb :=
    generate_moves depth self move_from_bb [8 * direction] (Some forward_move_limit) in
  let valid_moves_bb := Z.land valid_moves_bb (Z.lnot (_all_pieces_bb self)) in
  let diagonal_moves := _all_pieces_bb self in
  let* diagonals :=
    generate_moves depth self move_from_bb [7 * direction; 9 * direction] (Some 1) in
  let diagonal_moves := Z.land diagonal_moves diagonals in
  let valid_moves_bb := Z.lor valid_moves_bb diagonal_moves in
  Ret valid_moves_bb.

(** The body of the two nested loops of [generate_moves_knight]. *)
Definition knight_jumps (knight_bb leg_one multiplier moves_bb : Z) : Z :=
  let leg_two := 3 - leg_one in
  let multiplier2 := 9 - multiplier in
  let moves_bb := Z.lor moves_bb
    (Z.shiftr (Z.shiftr knight_bb (leg_one * multiplier)) (leg_two * multiplier2)) in
  let moves_bb := Z.lor moves_bb
    (Z.shiftl (Z.shiftr knight_bb (leg_one * multiplier)) (leg_two * multiplier2)) in
  let moves_bb := Z.lor moves_bb
    (Z.shiftr (Z.shiftl knight_bb (leg_one * multiplier)) (leg_two * multiplier2)) in
  let moves_bb := Z.lor moves_bb
    (Z.shiftl (Z.shiftl knight_bb (leg_one * multiplier)) (leg_two * multiplier2)) in
  moves_bb.

Definition generate_moves_knight (move_from_bb : Z) : Z :=
  let boundary_bb := 0x0 in
  let knight_bb := move_from_bb in
  let left_bit_shifts := 0 in
  let right_bit_shifts := 0 in
  (* North half / South half *)
  let '(boundary_bb, left_bit_shifts, right_bit_shifts) :=
    if truthy (Z.land knight_bb 0xffffffff00000000) then
      (Z.lor boundary_bb (- 0xffff000000000000), left_bit_shifts, right_bit_shifts + 8 * 2)
    else
      (Z.lor boundary_bb 0xffff, left_bit_shifts + 8 * 2, right_bit_shifts) in
  (* West half / East half *)
  let '(boundary_bb, left_bit_shifts, right_bit_shifts) :=
    if truthy (Z.land knight_bb 0xf0f0f0f0f0f0f0f) then
      (Z.lor boundary_bb 0x303030303030303, left_bit_shifts + 2, right_bit_shifts)
    else
      (Z.lor boundary_bb 0xc0c0c0c0c0c0c0c0, left_bit_shifts, right_bit_shifts + 2) in
  let knight_bb := Z.shiftl (Z.shiftr knight_bb right_bit_shifts) left_bit_shifts in
  let moves_bb := 0 in
  let moves_bb :=
    fold_left (fun moves_bb leg_one =>
      fold_left (fun moves_bb multiplier =>
        knight_jumps knight_bb leg_one multiplier moves_bb) [1; 8] moves_bb)
      [1; 2] moves_bb in
  let moves_bb := Z.land moves_bb (Z.lnot boundary_bb) in
  Z.shiftr (Z.shiftl moves_bb right_bit_shifts) left_bit_shifts.

(** *** Move execution *)

Definition find_valid_moves (depth : nat) (self : Board) (move_from_bb : Z)
    : result (Z * Board) :=
  let '(pieces_to_search, friendly_pieces_bb) :=
    if white_to_move self then (_white_pieces_list self, _all_white_pieces_bb self)
    else (_black_pieces_list self, _all_black_pieces_bb self) in
  let* p0 := list_get pieces_to_search 0 in
  if truthy (Z.land p0 move_from_bb) then
    let self := set_piece_moved_index (Some 0%nat) self in
    let* moves := generate_moves_pawn depth self move_from_bb in
    Ret (Z.land moves (Z.lnot friendly_pieces_bb), self)
  else
  let* p1 := list_get pieces_to_search 1 in
  if truthy (Z.land p1 move_from_bb) then
    let self := set_piece_moved_index (Some 1%nat) self in
    let directions := [8; -8; 1; -1] in
    let* moves := generate_moves depth self move_from_bb directions None in
    Ret (Z.land moves (Z.lnot friendly_pieces_bb), self)
  else
  let* p2 := list_get pieces_to_search 2 in
  if truthy (Z.land p2 move_from_bb) then
    let self := set_piece_moved_index (Some 2%nat) self in
    Ret (Z.land (generate_moves_knight move_from_bb) (Z.lnot friendly_pieces_bb), self)
  else
  let* p3 := list_get pieces_to_search 3 in
  if truthy (Z.land p3 move_from_bb) then
    let self := set_piece_moved_index (Some 3%nat) self in
    let directions := [7; 9; -7; -9] in
    let* moves := generate_moves depth self move_from_bb directions None in
    Ret (Z.land moves (Z.lnot friendly_pieces_bb), self)
  else
  let* p4 := list_get pieces_to_search 4 in
  if truthy (Z.land p4 move_from_bb) then
    let self := set_piece_moved_index (Some 4%nat) self in
    let directions := [8; -8; 1; -1; 7; 9; -7; -9] in
    let* moves := generate_moves depth self move_from_bb directions None in
    Ret (Z.land moves (Z.lnot friendly_pieces_bb), self)
  else
  let* p5 := list_get pieces_to_search 5 in
  if truthy (Z.land p5 move_from_bb) then
    let self := set_piece_moved_index (Some 5%nat) self in
    let directions := [8; -8; 1; -1; 7; 9; -7; -9] in
    let* moves := generate_moves depth self move_from_bb directions (Some 1) in
    Ret (Z.land moves (Z.lnot friendly_pieces_bb), self)
  else Ret (0, self).

(** [opponents_pieces_list] in [update_bitboards] is a second name for the
    list object held by the opponent's field: reads and writes through it
    are reads and writes of that field. *)
Definition opponents_pieces_list (self : Board) : list Z :=
  if white_to_move self then _black_pieces_list self else _white_pieces_list self.

Definition set_opponents_pieces_list (v : list Z) (self : Board) : Board :=
  if white_to_move self then set_black_pieces_list v self
  else set_white_pieces_list v self.

(** The [for index, piece_type_bb in enumerate(opponents_pieces_list)] loop:
    the iterator reads the live list at [index] and stops at its end. *)
Fixpoint capture_loop (steps : nat) (index : nat) (move_to_bb : Z) (self : Board) : Board :=
  match steps with
  | O => self
  | S steps' =>
    match opponents_pieces_list self !! index with
    | None => self
    | Some piece_type_bb =>
      let self :=
        if truthy (Z.land move_to_bb piece_type_bb) then
          let self := set_piece_captured_index (Some index) self in
          let self :=
            set_opponents_pieces_list
              (<[index := Z.land piece_type_bb (Z.lnot move_to_bb)]> (opponents_pieces_list self))
              self in
          if white_to_move self then
            set_all_black_pieces_bb (Z.land (_all_black_pieces_bb self) (Z.lnot move_to_bb)) self
          else
            set_all_white_pieces_bb (Z.land (_all_white_pieces_bb self) (Z.lnot move_to_bb)) self
        else self in
      capture_loop steps' (S index) move_to_bb self
    end
  end.

Definition update_bitboards (self : Board) (move_from_bb move_to_bb : Z) : result Board :=
  let* (self, all_opponents_pieces_bb) :=
    if white_to_move self then
      let* i := index_of (_piece_moved_index self) in
      let* x := list_get (_white_pieces_list self) i in
      let* l := list_set (_white_pieces_list self) i (Z.land x (Z.lnot move_from_bb)) in
      let* y := list_get l i in
      let* l := list_set l i (Z.lor y move_to_bb) in
      let self := set_white_pieces_list l self in
      let self := set_all_white_pieces_bb
        (Z.lor (Z.land (_all_white_pieces_bb self) (Z.lnot move_from_bb)) move_to_bb) self in
      Ret (self, _all_black_pieces_bb self)
    else
      let* i := index_of (_piece_moved_index self) in
      let* x := list_get (_black_pieces_list self) i in
      let* l := list_set (_black_pieces_list self) i (Z.land x (Z.lnot move_from_bb)) in
      let* y := list_get l i in
      let* l := list_set l i (Z.lor y move_to_bb) in
      let self := set_black_pieces_list l self in
      let self := set_all_black_pieces_bb
        (Z.lor (Z.land (_all_black_pieces_bb self) (Z.lnot move_from_bb)) move_to_bb) self in
      Ret (self, _all_white_pieces_bb self) in
  let self := set_all_pieces_bb
    (Z.lor (Z.land (_all_pieces_bb self) (Z.lnot move_from_bb)) move_to_bb) self in
  if truthy (Z.land move_to_bb all_opponents_pieces_bb) then
    Ret (capture_loop (length (opponents_pieces_list self)) 0 move_to_bb self)
  else Ret self.

(** *** Utility methods *)

Definition convert_to_bitboard (location : pyval) : result (option Z) :=
  match location with
  | PyStr (String c0 (String c1 EmptyString)) =>
    let file := ord (upper_ascii c0) - ord "A"%char in
    let* digit := int_of_char c1 in
    let rank := digit - 1 in
    if (file <? 0) || (7 <? file) then Ret None
    else if (rank <? 0) || (7 <? rank) then Ret None
    else Ret (Some (Z.shiftl 0x1 (8 * rank + file)))
  | PyStr _ => Ret None      (* len(location) != 2 *)
  | _ => Ret None            (* not isinstance(location, str) *)
  end.

Definition execute_move (depth : nat) (self : Board) (move_from move_to : string)
    : result (bool * Board) :=
  if String.eqb (upper move_from) (upper move_to) then Ret (false, self)
  else
    let* move_from_bb := convert_to_bitboard (PyStr move_from) in
    let* move_to_bb := convert_to_bitboard (PyStr move_to) in
    match move_from_bb, move_to_bb with
    | Some move_from_bb, Some move_to_bb =>
      let self := set_all_pieces_bb
        (Z.land (_all_pieces_bb self) (Z.lnot move_from_bb)) self in
      let* (legal_moves, self) := find_valid_moves depth self move_from_bb in
      match _piece_moved_index self with
      | None =>
        let self := set_all_pieces_bb (Z.lor (_all_pieces_bb self) move_from_bb) self in
        Ret (false, self)
      | Some _ =>
        if Z.land move_to_bb legal_moves =? 0 then
          let self := set_all_pieces_bb (Z.lor (_all_pieces_bb self) move_from_bb) self in
          Ret (false, self)
        else
          let* self := update_bitboards self move_from_bb move_to_bb in
          Ret (true, self)
      end
    | _, _ => Ret (false, self)
    end.

(** ** The game object of [chessVar.py]

    The display array [_board_display] and the printing are left out: they
    neither read nor write anything the properties below are about. *)

Record ChessVar : Type := mkChessVar {
  _game_state : string;
  _previous_move : option (string * string * string * string * option string);
  _board : Board
}.

(** [ChessVar()] *)
Definition new_game : ChessVar :=
  {| _game_state := "UNFINISHED"; _previous_move := None; _board := setup_new_board |}.

(** [for piece_type in pieces: if piece_type == 0: ...] *)
Definition any_zero (pieces : list Z) : bool := existsb (fun piece_type => piece_type =? 0) pieces.

Definition get_game_state (self : ChessVar) : string :=
  let '(white_pieces, black_pieces) := get_pieces (_board self) in
  if any_zero white_pieces then "BLACK_WON"
  else if any_zero black_pieces then "WHITE_WON"
  else "UNFINISHED".

Definition get_player_turn (self : ChessVar) : string := get_turn (_board self).

(** [update_display], without the display array: it reads and clears the
    per-move fields of the board and stores the previous-move tuple. *)
Definition update_display (self : ChessVar) (move_from move_to : string) : result ChessVar :=
  let turn := get_turn (_board self) in
  let* (moved, board) := get_piece_moved (_board self) in
  let* (captured, board) := get_piece_captured board in
  Ret {| _game_state := _game_state self;
         _previous_move := Some (turn, moved, move_from, move_to, captured);
         _board := board |}.

Definition make_move (depth : nat) (self : ChessVar) (move_from move_to : string)
    : result (bool * ChessVar) :=
  if negb (String.eqb (get_game_state self) "UNFINISHED") then Ret (false, self)
  else
    let* (ok, board) := execute_move depth (_board self) move_from move_to in
    let self := {| _game_state := _game_state self;
                   _previous_move := _previous_move self;
                   _board := board |} in
    if negb ok then Ret (false, self)
    else
      let self := {| _game_state := get_game_state self;
                     _previous_move := _previous_move self;
                     _board := _board self |} in
      let* self := update_display self move_from move_to in
      let self := {| _game_state := _game_state self;
                     _previous_move := _previous_move self;
                     _board := set_next_turn (_board self) |} in
      Ret (true, self).

(** * Specification vocabulary *)

(** ** Squares and single-bit bitboards *)

(** Bit index of a square: [rank * 8 + file]. *)
Definition square (file rank : Z) : Z := 8 * rank + file.

(** The single-bit mask of bit [i], [0b1 << i]. *)
Definition bit (i : Z) : Z := Z.shiftl 0x1 i.

Definition on_board (file rank : Z) : Prop := 0 <= file < 8 /\ 0 <= rank < 8.

Definition on_boardb (file rank : Z) : bool :=
  (0 <=? file) && (file <? 8) && (0 <=? rank) && (rank <? 8).

Definition coords : list Z := [0; 1; 2; 3; 4; 5; 6; 7].


(** ** Rays *)

(** The eight sliding directions. *)
Inductive Dir : Type := N | S | E | W | NE | NW | SE | SW.

(** File and rank increment of one step. *)
Definition dfile (d : Dir) : Z :=
  match d with
  | N | S => 0
  | E | NE | SE => 1
  | W | NW | SW => -1
  end.

Definition drank (d : Dir) : Z :=
  match d with
  | E | W => 0
  | N | NE | NW => 1
  | S | SE | SW => -1
  end.

(** The direction numbers of [find_valid_moves]:
    8 = N, -8 = S, 1 = E, -1 = W, 7 = NW, 9 = NE, -7 = SE, -9 = SW. *)
Definition dir_code (d : Dir) : Z :=
  match d with
  | N => 8 | S => -8 | E => 1 | W => -1
  | NW => 7 | NE => 9 | SE => -7 | SW => -9
  end.

(** The square [k] steps away from [(f, r)] in direction [d]. *)
Definition step_file (d : Dir) (f k : Z) : Z := f + k * dfile d.
Definition step_rank (d : Dir) (r k : Z) : Z := r + k * drank d.

(** Square [j] is reached from [(f, r)] in direction [d] under occupancy
    [occ]: it lies [k >= 1] steps away on the board, and no square strictly
    between the origin and it is occupied.  (Stepping stops before leaving the
    board; it stops on the first occupied square, which is itself reached.) *)
Definition reaches (occ f r : Z) (d : Dir) (j : Z) : Prop :=
  exists k, 1 <= k /\
    on_board (step_file d f k) (step_rank d r k) /\
    j = square (step_file d f k) (step_rank d r k) /\
    forall m, 1 <= m < k ->
      Z.testbit occ (square (step_file d f m) (step_rank d r m)) = false.

(** The ray the code computes from the single-bit origin at [(f, r)]. *)
Definition ray (depth : nat) (self : Board) (f r : Z) (d : Dir) : result Z :=
  generate_moves depth self (bit (square f r)) [dir_code d] None.

(** One recursive call, seen from the direction. *)
Definition blocked (d : Dir) (self : Board) (location_bb : Z) : bool :=
  match d with
  | N | E | NW | NE => left_blocked self location_bb (dir_code d)
  | S | W | SE | SW => right_blocked self location_bb (Z.abs (dir_code d))
  end.

Definition shifted (d : Dir) (location_bb : Z) : Z :=
  match d with
  | N | E | NW | NE => Z.shiftl location_bb (dir_code d)
  | S | W | SE | SW => Z.shiftr location_bb (Z.abs (dir_code d))
  end.

Definition recc (depth : nat) (self : Board) (location_bb : Z) (d : Dir)
    (move_limit_count : option Z) : result Z :=
  match d with
  | N | E | NW | NE => recc_left_shift depth self location_bb (dir_code d) move_limit_count
  | S | W | SE | SW =>
    recc_right_shift depth self location_bb (Z.abs (dir_code d)) move_limit_count
  end.

(** The boundary mask the code tests in each direction. *)
Definition boundary_mask (d : Dir) : Z :=
  match d with
  | N => 0xff00000000000000
  | E => 0x8080808080808080
  | NW => 0xff01010101010101
  | NE => 0xff80808080808080
  | S => 0xff
  | W => 0x101010101010101
  | SE => 0x80808080808080ff
  | SW => 0x1010101010101ff
  end.

(** Distance to the edge the direction runs into: a bound on the number of
    further steps. *)
Definition edge_dist (d : Dir) (f r : Z) : Z :=
  match d with
  | N | NE | NW => 7 - r
  | S | SE | SW => r
  | E => 7 - f
  | W => f
  end.

(** As [reaches], but the current square must be free too: what a recursive
    call computes. *)
Definition reaches_from (occ f r : Z) (d : Dir) (j : Z) : Prop :=
  exists k, 1 <= k /\
    on_board (step_file d f k) (step_rank d r k) /\
    j = square (step_file d f k) (step_rank d r k) /\
    forall m, 0 <= m < k ->
      Z.testbit occ (square (step_file d f m) (step_rank d r m)) = false.

(** The ray is exactly the set of reached squares. *)
Definition ray_exact (depth : nat) (self : Board) (f r : Z) (d : Dir) : Prop :=
  exists moves, ray depth self f r d = Ret moves /\
    forall j, Z.testbit moves j = true <-> reaches (_all_pieces_bb self) f r d j.

(** A board holding a single White rook on D4 (bit 27) and nothing else. *)
Definition lone_rook_board : Board :=
  {| _current_turn := "White";
     _piece_moved_index := None;
     _piece_captured_index := None;
     _white_pieces_list := [0; bit 27; 0; 0; 0; 0];
     _black_pieces_list := [0; 0; 0; 0; 0; 0];
     _all_white_pieces_bb := bit 27;
     _all_black_pieces_bb := 0;
     _all_pieces_bb := bit 27 |}.

(** Number of set bits among the 64 squares. *)
Definition count_squares (bb : Z) : nat :=
  length (filter (fun i => Z.testbit bb i = true) (map Z.of_nat (seq 0 64))).

(** ** Knight geometry *)

(** [(f', r')] is an L-shaped jump away from [(f, r)]. *)
Definition l_shaped (f r f' r' : Z) : Prop :=
  (Z.abs (f' - f) = 1 /\ Z.abs (r' - r) = 2) \/
  (Z.abs (f' - f) = 2 /\ Z.abs (r' - r) = 1).

Definition l_shapedb (f r f' r' : Z) : bool :=
  ((Z.abs (f' - f) =? 1) && (Z.abs (r' - r) =? 2)) ||
  ((Z.abs (f' - f) =? 2) && (Z.abs (r' - r) =? 1)).

(** ** Consistency of the masks *)

(** Bitwise union of a list of masks. *)
Definition union_bb (l : list Z) : Z := foldr Z.lor 0 l.

(** No two masks at different positions of the list share a bit. *)
Definition pairwise_disjoint (l : list Z) : Prop :=
  forall (i j : nat) (x y : Z),
    i <> j -> l !! i = Some x -> l !! j = Some y -> Z.land x y = 0.

Record consistent (b : Board) : Prop := mkConsistent {
  white_six : length (_white_pieces_list b) = 6%nat;
  black_six : length (_black_pieces_list b) = 6%nat;
  white_disjoint : pairwise_disjoint (_white_pieces_list b);
  black_disjoint : pairwise_disjoint (_black_pieces_list b);
  white_union : _all_white_pieces_bb b = union_bb (_white_pieces_list b);
  black_union : _all_black_pieces_bb b = union_bb (_black_pieces_list b);
  all_union : _all_pieces_bb b = Z.lor (_all_white_pieces_bb b) (_all_black_pieces_bb b);
  sides_disjoint : Z.land (_all_white_pieces_bb b) (_all_black_pieces_bb b) = 0
}.

(** The side to move and its opponent. *)
Definition own_pieces_list (b : Board) : list Z :=
  if white_to_move b then _white_pieces_list b else _black_pieces_list b.

Definition own_bb (b : Board) : Z :=
  if white_to_move b then _all_white_pieces_bb b else _all_black_pieces_bb b.

Definition opponent_bb (b : Board) : Z :=
  if white_to_move b then _all_black_pieces_bb b else _all_white_pieces_bb b.

(** What [execute_move] does to the board before it generates moves:
    [self._all_pieces_bb &= ~move_from_bb]. *)
Definition clear_origin (b : Board) (move_from_bb : Z) : Board :=
  set_all_pieces_bb (Z.land (_all_pieces_bb b) (Z.lnot move_from_bb)) b.

(** ** Pawn rules *)

(** Rank increment of a forward step of the side to move. *)
Definition forward (b : Board) : Z := if white_to_move b then 1 else -1.

(** Rank index of the starting rank of the side to move (rank 2 or rank 7). *)
Definition start_rank (b : Board) : Z := if white_to_move b then 1 else 6.

Definition occupied (b : Board) (f r : Z) : bool :=
  Z.testbit (_all_pieces_bb b) (square f r).

Definition opponent_at (b : Board) (f r : Z) : bool :=
  Z.testbit (opponent_bb b) (square f r).

(** [(f', r')] is a destination the pawn rules allow from [(f, r)]. *)
Definition pawn_dest (b : Board) (f r f' r' : Z) : Prop :=
  (f' = f /\ r' = r + forward b /\ occupied b f' r' = false) \/
  (f' = f /\ r' = r + 2 * forward b /\ r = start_rank b /\
     occupied b f (r + forward b) = false /\ occupied b f' r' = false) \/
  ((f' = f - 1 \/ f' = f + 1) /\ r' = r + forward b /\ opponent_at b f' r' = true).

(** Directions of the pawn of the side to move. *)
Definition pawn_forward_dir (white : bool) : Dir := if white then N else S.
Definition pawn_diagonal_dirs (white : bool) : Dir * Dir :=
  if white then (NW, NE) else (SE, SW).

(** A mask of one bit, or the empty mask. *)
Definition opt_bit (c : bool) (i : Z) : Z := if c then bit i else 0.

(** ** Captures *)

(** [x & ~move_to_bb] *)
Definition clear_bits (move_to_bb x : Z) : Z := Z.land x (Z.lnot move_to_bb).

(** The index [capture_loop] leaves in [_piece_captured_index]: that of the
    last mask of the list that meets [move_to_bb], or the old value. *)
Fixpoint last_hit (move_to_bb : Z) (index : nat) (pieces : list Z) (captured : option nat)
    : option nat :=
  match pieces with
  | [] => captured
  | piece_type_bb :: pieces' =>
    last_hit move_to_bb (Datatypes.S index) pieces'
      (if truthy (Z.land move_to_bb piece_type_bb) then Some index else captured)
  end.

(** The part of [consistent] that is about the piece masks and the two side
    masks only, not about [_all_pieces_bb]. *)
Record pieces_consistent (b : Board) : Prop := mkPiecesConsistent {
  pc_white_six : length (_white_pieces_list b) = 6%nat;
  pc_black_six : length (_black_pieces_list b) = 6%nat;
  pc_white_disjoint : pairwise_disjoint (_white_pieces_list b);
  pc_black_disjoint : pairwise_disjoint (_black_pieces_list b);
  pc_white_union : _all_white_pieces_bb b = union_bb (_white_pieces_list b);
  pc_black_union : _all_black_pieces_bb b = union_bb (_black_pieces_list b);
  pc_sides_disjoint : Z.land (_all_white_pieces_bb b) (_all_black_pieces_bb b) = 0
}.

(** [pieces_consistent], told from the side to move. *)
Definition pieces_sides (b : Board) : Prop :=
  length (own_pieces_list b) = 6%nat /\
  length (opponents_pieces_list b) = 6%nat /\
  pairwise_disjoint (own_pieces_list b) /\
  pairwise_disjoint (opponents_pieces_list b) /\
  own_bb b = union_bb (own_pieces_list b) /\
  opponent_bb b = union_bb (opponents_pieces_list b) /\
  Z.land (own_bb b) (opponent_bb b) = 0.

(** ** Reachable boards *)

(** The boards reached from the initial position by successful calls of
    [execute_move] and calls of [set_next_turn]. *)
Inductive reachable : Board -> Prop :=
| reachable_init : reachable setup_new_board
| reachable_move depth b move_from move_to b' :
    reachable b ->
    execute_move depth b move_from move_to = Ret (true, b') ->
    reachable b'
| reachable_turn b :
    reachable b -> reachable (set_next_turn b).

(** ** Playing a sequence of moves *)

(** [execute_move] and, on success, [set_next_turn], for each move in turn;
    [None] as soon as a move is rejected or raises. *)
Fixpoint play (depth : nat) (b : Board) (moves : list (string * string)) : option Board :=
  match moves with
  | [] => Some b
  | (move_from, move_to) :: moves' =>
    match execute_move depth b move_from move_to with
    | Ret (true, b') => play depth (set_next_turn b') moves'
    | _ => None
    end
  end.

(** Eight moves after which the A-file is empty between the White rook on A1
    and the Black rook on A8. *)
Definition open_a_file : list (string * string) :=
  [ ("A2", "A4"); ("B7", "B5"); ("A4", "B5"); ("H7", "H6");
    ("B5", "B6"); ("H6", "H5"); ("H2", "H3"); ("A7", "B6") ].

(** The position after [open_a_file], and after the rook then takes on A8. *)
Definition a_file_position : Board :=
  match play 8 setup_new_board open_a_file with
  | Some b => b
  | None => setup_new_board
  end.

Definition rook_takes_rook : Board :=
  match execute_move 8 a_file_position "A1" "A8" with
  | Ret (_, b) => b
  | Raise _ => a_file_position
  end.

(** The position after White's pawn has taken on B5, Black to move; and
    after Black's quiet reply H7-H6. *)
Definition pawn_taken_position : Board :=
  match play 8 setup_new_board [("A2", "A4"); ("B7", "B5"); ("A4", "B5")] with
  | Some b => b
  | None => setup_new_board
  end.

Definition quiet_reply : Board :=
  match execute_move 8 pawn_taken_position "H7" "H6" with
  | Ret (_, b) => b
  | Raise _ => pawn_taken_position
  end.

(** The boards reached from the initial position by any calls of the
    public methods that return: [execute_move] accepted or rejected,
    [set_next_turn], [get_piece_moved] and [get_piece_captured]. *)
Inductive in_play : Board -> Prop :=
| in_play_init : in_play setup_new_board
| in_play_move depth b move_from move_to ok b' :
    in_play b ->
    execute_move depth b move_from move_to = Ret (ok, b') ->
    in_play b'
| in_play_turn b :
    in_play b -> in_play (set_next_turn b)
| in_play_moved b name b' :
    in_play b -> get_piece_moved b = Ret (name, b') -> in_play b'
| in_play_captured b name b' :
    in_play b -> get_piece_captured b = Ret (name, b') -> in_play b'.

(** ** Reachable games *)

(** The games reached from a new game by calls of [make_move] that return
    (with either answer). *)
Inductive game_reachable : ChessVar -> Prop :=
| game_reachable_init : game_reachable new_game
| game_reachable_move depth g move_from move_to ok g' :
    game_reachable g ->
    make_move depth g move_from move_to = Ret (ok, g') ->
    game_reachable g'.

(** [make_move] for each move in turn; [None] as soon as one is refused. *)
Fixpoint play_game (depth : nat) (g : ChessVar) (moves : list (string * string))
    : option ChessVar :=
  match moves with
  | [] => Some g
  | (move_from, move_to) :: moves' =>
    match make_move depth g move_from move_to with
    | Ret (true, g') => play_game depth g' moves'
    | _ => None
    end
  end.

(** A short game in which White's knight takes Black's queen on D5. *)
Definition queen_hunt : list (string * string) :=
  [ ("E2", "E4"); ("D7", "D5"); ("E4", "D5"); ("D8", "D5");
    ("B1", "C3"); ("H7", "H6"); ("C3", "D5") ].

Definition queen_taken : ChessVar :=
  match play_game 8 new_game queen_hunt with
  | Some g => g
  | None => new_game
  end.

(** Some mask of the list is zero. *)
Definition some_mask_empty (pieces : list Z) : Prop :=
  exists k : nat, pieces !! k = Some 0.

(** ** Labels *)

(** The label of square [(f, r)]: file letter from [base] (65 for "A", 97 for
    "a"), then the rank digit. *)
Definition label (base : Z) (f r : Z) : string :=
  String (ascii_of_N (Z.to_N (base + f))) (String (ascii_of_N (Z.to_N (49 + r))) EmptyString).

(** The board after White's E2-E4, Black to move. *)
Definition after_e4 : Board :=
  match play 8 setup_new_board [("E2", "E4")] with
  | Some b => b
  | None => setup_new_board
  end.

(** What holds of every reachable game: six masks a side, and never an empty
    mask on both sides. *)
Definition game_invariant (g : ChessVar) : Prop :=
  length (_white_pieces_list (_board g)) = 6%nat /\
  length (_black_pieces_list (_board g)) = 6%nat /\
  ~ (some_mask_empty (_white_pieces_list (_board g)) /\
     some_mask_empty (_black_pieces_list (_board g))).

(** ** What holds of every board in play *)

(** Every square of a piece is marked in the all-pieces mask. *)
Definition occupancy_covers (b : Board) : Prop :=
  forall n, Z.testbit (Z.lor (_all_white_pieces_bb b) (_all_black_pieces_bb b)) n = true ->
            Z.testbit (_all_pieces_bb b) n = true.

(** An index field is empty or holds one of the six kinds. *)
Definition kind_or_none (o : option nat) : Prop :=
  forall k, o = Some k -> (k < 6)%nat.

Record board_invariant (b : Board) : Prop := mkBoardInvariant {
  bi_pieces : pieces_consistent b;
  bi_covers : occupancy_covers b;
  bi_turn : _current_turn b = "White" \/ _current_turn b = "Black";
  bi_moved : kind_or_none (_piece_moved_index b);
  bi_captured : kind_or_none (_piece_captured_index b)
}.

(** The board after the rejected move E4-E5 from the initial position. *)
Definition after_rejected_e4 : Board :=
  match execute_move 8 setup_new_board "E4" "E5" with
  | Ret (_, b) => b
  | Raise _ => setup_new_board
  end.

(** ** Moves of each kind *)

(** The generator [find_valid_moves] runs for the piece kind of index [idx]. *)
Definition piece_moves (depth : nat) (self : Board) (idx : nat) (move_from_bb : Z)
    : result Z :=
  match idx with
  | 0%nat => generate_moves_pawn depth self move_from_bb
  | 1%nat => generate_moves depth self move_from_bb [8; -8; 1; -1] None
  | 2%nat => Ret (generate_moves_knight move_from_bb)
  | 3%nat => generate_moves depth self move_from_bb [7; 9; -7; -9] None
  | 4%nat => generate_moves depth self move_from_bb [8; -8; 1; -1; 7; 9; -7; -9] None
  | 5%nat => generate_moves depth self move_from_bb [8; -8; 1; -1; 7; 9; -7; -9] (Some 1)
  | _ => Ret 0
  end.

(** The directions of the sliding kinds: Rook (1), Bishop (3), Queen (4). *)
Definition slider_dirs (idx : nat) : list Dir :=
  match idx with
  | 1%nat => [N; S; E; W]
  | 3%nat => [NW; NE; SE; SW]
  | 4%nat => [N; S; E; W; NW; NE; SE; SW]
  | _ => []
  end.

(** [(f', r')] is next to [(f, r)], diagonals included. *)
Definition adjacent (f r f' r' : Z) : Prop :=
  Z.max (Z.abs (f' - f)) (Z.abs (r' - r)) = 1.


(** ** The display array of [chessVar.py]

    [_board_display] is a list of eight rows of eight one-character strings,
    row 0 being rank 1.  It is kept beside the three fields of [ChessVar]. *)

(** [c.lower()] on one ASCII character. *)
Definition lower_ascii (c : ascii) : ascii :=
  let n := N_of_ascii c in
  if ((65 <=? n) && (n <=? 90))%N then ascii_of_N (n + 32) else c.

(** [s.lower()] *)
Fixpoint lower (s : string) : string :=
  match s with
  | EmptyString => EmptyString
  | String c s' => String (lower_ascii c) (lower s')
  end.

(** The position a Python index denotes in a sequence of [len] items:
    negative indices count from the end, anything else is an [IndexError]. *)
Definition py_index (len : nat) (i : Z) : result nat :=
  if (0 <=? i) && (i <? Z.of_nat len) then Ret (Z.to_nat i)
  else if (- Z.of_nat len <=? i) && (i <? 0) then Ret (Z.to_nat (Z.of_nat len + i))
  else Raise IndexError.

(** [lst[i]] *)
Definition item {A : Type} (l : list A) (i : Z) : result A :=
  let* k := py_index (length l) i in
  match l !! k with
  | Some x => Ret x
  | None => Raise IndexError
  end.

(** [lst[i] = v] *)
Definition set_item {A : Type} (l : list A) (i : Z) (v : A) : result (list A) :=
  let* k := py_index (length l) i in
  Ret (<[k := v]> l).

(** [s[i]] on a string, for the indices 0 and 1 the code uses. *)
Definition str_item (s : string) (i : nat) : result ascii :=
  match String.get i s with
  | Some c => Ret c
  | None => Raise IndexError
  end.

(** [setup_display] *)
Definition setup_display : list (list string) :=
  let board := [["R"; "N"; "B"; "Q"; "K"; "B"; "N"; "R"]; repeat "P" 8] in
  let board := (board ++ repeat (repeat "." 8) 4)%list in
  let board := (board ++ [repeat "p" 8])%list in
  (board ++ [map lower (nth 0 board [])])%list.

(** The first half of [update_display]: the piece symbol is taken from the
    origin cell, the origin cell becomes ".", and the symbol is written on
    the destination cell.  The rows are distinct lists, so writing a cell of
    a row changes that row only. *)
Definition update_display_array (board_display : list (list string))
    (move_from move_to : string) : result (list (list string)) :=
  let* c := str_item move_from 0 in
  let from_file := ord (upper_ascii c) - ord "A" in
  let* c := str_item move_from 1 in
  let* digit := int_of_char c in
  let from_rank := digit - 1 in
  let* c := str_item move_to 0 in
  let to_file := ord (upper_ascii c) - ord "A" in
  let* c := str_item move_to 1 in
  let* digit := int_of_char c in
  let to_rank := digit - 1 in
  let* row := item board_display from_rank in
  let* piece := item row from_file in
  let* row := item board_display from_rank in
  let* row := set_item row from_file "." in
  let* board_display := set_item board_display from_rank row in
  let* row := item board_display to_rank in
  let* row := set_item row to_file piece in
  set_item board_display to_rank row.

(** The game object with its display: the three fields modelled by
    [ChessVar], and [_board_display]. *)
Record Game : Type := mkGame {
  _fields : ChessVar;
  _board_display : list (list string)
}.

(** [ChessVar()], display included. *)
Definition new_game_display : Game :=
  {| _fields := new_game; _board_display := setup_display |}.

(** [update_display] in full: the display array, then the previous move. *)
Definition update_display_full (self : Game) (move_from move_to : string) : result Game :=
  let* display := update_display_array (_board_display self) move_from move_to in
  let* fields := update_display (_fields self) move_from move_to in
  Ret {| _fields := fields; _board_display := display |}.

(** [make_move] in full (the printing apart). *)
Definition make_move_full (depth : nat) (self : Game) (move_from move_to : string)
    : result (bool * Game) :=
  if negb (String.eqb (get_game_state (_fields self)) "UNFINISHED") then Ret (false, self)
  else
    let* (ok, board) := execute_move depth (_board (_fields self)) move_from move_to in
    let self := {| _fields := {| _game_state := _game_state (_fields self);
                                 _previous_move := _previous_move (_fields self);
                                 _board := board |};
                   _board_display := _board_display self |} in
    if negb ok then Ret (false, self)
    else
      let self := {| _fields := {| _game_state := get_game_state (_fields self);
                                   _previous_move := _previous_move (_fields self);
                                   _board := _board (_fields self) |};
                     _board_display := _board_display self |} in
      let* self := update_display_full self move_from move_to in
      let self := {| _fields := {| _game_state := _game_state (_fields self);
                                   _previous_move := _previous_move (_fields self);
                                   _board := set_next_turn (_board (_fields self)) |};
                     _board_display := _board_display self |} in
      Ret (true, self).

(** The games with display reached from a new one by calls of [make_move]
    that return. *)
Inductive display_reachable : Game -> Prop :=
| display_reachable_init : display_reachable new_game_display
| display_reachable_move depth s move_from move_to ok s' :
    display_reachable s ->
    make_move_full depth s move_from move_to = Ret (ok, s') ->
    display_reachable s'.

(** The letters of the six kinds, in the order of the piece lists. *)
Definition piece_letters : list string := ["P"; "R"; "N"; "B"; "Q"; "K"].

(** The index of the first mask of the list that holds bit [n]. *)
Fixpoint kind_at (pieces : list Z) (n : Z) : option nat :=
  match pieces with
  | [] => None
  | x :: rest => if Z.testbit x n then Some 0%nat else option_map Datatypes.S (kind_at rest n)
  end.

(** The letter of kind [k], upper case for White and lower case for Black. *)
Definition letter (white : bool) (k : nat) : string :=
  let s := default "?" (piece_letters !! k) in
  if white then s else lower s.

(** What the piece masks say stands on square [n]: the letter of a White
    piece, the lower-case letter of a Black piece, or ".". *)
Definition symbol_at (b : Board) (n : Z) : string :=
  match kind_at (_white_pieces_list b) n with
  | Some k => letter true k
  | None =>
    match kind_at (_black_pieces_list b) n with
    | Some k => letter false k
    | None => "."
    end
  end.

(** The cell of the display for square [(f, r)]. *)
Definition cell (display : list (list string)) (f r : Z) : option string :=
  match display !! Z.to_nat r with
  | Some row => row !! Z.to_nat f
  | None => None
  end.

(** The display has eight rows of eight cells and shows on every square
    what the piece masks hold there. *)
Definition display_matches (b : Board) (display : list (list string)) : Prop :=
  length display = 8%nat /\
  (forall (k : nat) row, display !! k = Some row -> length row = 8%nat) /\
  forall f r, on_board f r -> cell display f r = Some (symbol_at b (square f r)).

(** [make_move_full] for each move in turn; [None] as soon as one is refused. *)
Fixpoint play_display (depth : nat) (s : Game) (moves : list (string * string))
    : option Game :=
  match moves with
  | [] => Some s
  | (move_from, move_to) :: moves' =>
    match make_move_full depth s move_from move_to with
    | Ret (true, s') => play_display depth s' moves'
    | _ => None
    end
  end.

(** The game, display included, after the seven moves of [queen_hunt]. *)
Definition queen_taken_display : Game :=
  match play_display 8 new_game_display queen_hunt with
  | Some s => s
  | None => new_game_display
  end.

(** ** The loop of [main]

    The loop body on one input line, already stripped of surrounding white
    space: the format test, the two slices, and [make_move] (whose answer
    only selects a message). *)

(** [c in s] for a one-character [c]. *)
Definition char_in (c : ascii) (s : string) : bool :=
  existsb (Ascii.eqb c) (list_ascii_of_string s).

(** [len(move) == 4 and move[0] in 'abcdefghABCDEFGH' and move[1] in
    '12345678' and move[2] in 'abcdefghABCDEFGH' and move[3] in '12345678'] *)
Definition input_format_ok (move : string) : bool :=
  (String.length move =? 4)%nat &&
  match String.get 0 move, String.get 1 move, String.get 2 move, String.get 3 move with
  | Some c0, Some c1, Some c2, Some c3 =>
    char_in c0 "abcdefghABCDEFGH" && char_in c1 "12345678" &&
    char_in c2 "abcdefghABCDEFGH" && char_in c3 "12345678"
  | _, _, _, _ => false
  end.

(** The body of the loop. [move[:2]] and [move[2:]] are the two slices. *)
Definition main_step (depth : nat) (g : ChessVar) (move : string) : result ChessVar :=
  if input_format_ok move then
    let* (ok, g) := make_move depth g (substring 0 2 move)
                      (substring 2 (String.length move - 2) move) in
    Ret g
  else Ret g.

(** The loop on the lines typed so far: it stops when the game is over, and
    the result is the game when it stops or when the lines run out. *)
Fixpoint main_loop (depth : nat) (g : ChessVar) (lines : list string) : result ChessVar :=
  match lines with
  | [] => Ret g
  | move :: lines' =>
    if String.eqb (get_game_state g) "UNFINISHED" then
      let* g := main_step depth g move in
      main_loop depth g lines'
    else Ret g
  end.

(** The display with cell [(f, r)] replaced by [v]. *)
Definition set_cell (display : list (list string)) (f r : Z) (v : string)
    : list (list string) :=
  match display !! Z.to_nat r with
  | Some row => <[Z.to_nat r := <[Z.to_nat f := v]> row]> display
  | None => display
  end.

(** Eight rows of eight cells. *)
Definition eight_by_eight (display : list (list string)) : Prop :=
  length display = 8%nat /\ forall (k : nat) row, display !! k = Some row -> length row = 8%nat.

(** [main]: a new game, then the loop. *)
Definition main (depth : nat) (lines : list string) : result ChessVar :=
  main_loop depth new_game lines.

(** Every bit of the mask is one of the 64 squares. *)
Definition on_board_mask (m : Z) : Prop :=
  forall n, Z.testbit m n = true -> 0 <= n < 64.

(** ** Labels of ASCII characters *)

Definition is_ascii (c : ascii) : bool := (N_of_ascii c <? 128)%N.

(** Every character of the string is an ASCII character. *)
Definition ascii_only (s : string) : bool := forallb is_ascii (list_ascii_of_string s).

(** ** A pawn beside a square wrongly marked occupied *)

(** The board after the rejected move D3-D4 from the initial position: D3,
    an empty square, is now marked in the all-pieces mask. *)
Definition after_rejected_d3 : Board :=
  match execute_move 8 setup_new_board "D3" "D4" with
  | Ret (_, b) => b
  | Raise _ => setup_new_board
  end.

(** The board after the move E2-D3 that follows. *)
Definition pawn_on_d3 : Board :=
  match execute_move 8 after_rejected_d3 "E2" "D3" with
  | Ret (_, b) => b
  | Raise _ => after_rejected_d3
  end.

(** The same two calls made through [make_move] on a new game. *)
Definition game_after_rejected_d3 : ChessVar :=
  match make_move 8 new_game "D3" "D4" with
  | Ret (_, g) => g
  | Raise _ => new_game
  end.

Definition game_pawn_on_d3 : ChessVar :=
  match make_move 8 game_after_rejected_d3 "E2" "D3" with
  | Ret (_, g) => g
  | Raise _ => game_after_rejected_d3
  end.

(** * Properties *)

(** ** Squares and single-bit bitboards *)

Lemma on_boardb_spec f r : on_boardb f r = true <-> on_board f r.
Proof.
  unfold on_boardb, on_board.
  rewrite !andb_true_iff, !Z.leb_le, !Z.ltb_lt. lia.
Qed.

Lemma on_boardb_false f r : on_boardb f r = false <-> ~ on_board f r.
Proof. rewrite <- on_boardb_spec. destruct (on_boardb f r); split; congruence. Qed.

Lemma square_range f r : on_board f r -> 0 <= square f r < 64.
Proof. unfold on_board, square. lia. Qed.

Lemma square_inj f r f' r' :
  on_board f r -> on_board f' r' -> square f r = square f' r' -> f = f' /\ r = r'.
Proof. unfold on_board, square. lia. Qed.

Lemma coords_complete f : 0 <= f < 8 -> In f coords.
Proof.
  intros H. unfold coords. simpl.
  assert (f = 0 \/ f = 1 \/ f = 2 \/ f = 3 \/ f = 4 \/ f = 5 \/ f = 6 \/ f = 7) by lia.
  intuition auto.
Qed.

(** A property of squares that is checked on all 64 of them holds of every
    square of the board. *)
Lemma forall_squares (p : Z -> Z -> bool) :
  forallb (fun f => forallb (p f) coords) coords = true ->
  forall f r, on_board f r -> p f r = true.
Proof.
  intros H f r [Hf Hr].
  rewrite forallb_forall in H. specialize (H f (coords_complete f Hf)).
  rewrite forallb_forall in H. exact (H r (coords_complete r Hr)).
Qed.

Lemma testbit_bit i n : 0 <= i -> Z.testbit (bit i) n = (i =? n).
Proof. intros H. unfold bit. rewrite Z.shiftl_1_l. now apply Z.pow2_bits_eqb. Qed.

Lemma bit_nonzero i : 0 <= i -> bit i <> 0.
Proof.
  intros H E. assert (Z.testbit (bit i) i = true) by (rewrite testbit_bit, Z.eqb_refl; auto).
  rewrite E, Z.bits_0 in H0. discriminate.
Qed.

Lemma land_bit_l i m : 0 <= i -> Z.land (bit i) m = if Z.testbit m i then bit i else 0.
Proof.
  intros H. apply Z.bits_inj'. intros n Hn.
  rewrite Z.land_spec, testbit_bit by assumption.
  destruct (Z.eqb_spec i n) as [->|Hne].
  - destruct (Z.testbit m n); simpl; [rewrite testbit_bit, Z.eqb_refl by assumption | rewrite Z.bits_0]; reflexivity.
  - simpl. destruct (Z.testbit m i); [rewrite testbit_bit by assumption; symmetry; now apply Z.eqb_neq | now rewrite Z.bits_0].
Qed.

Lemma truthy_land_bit_l i m : 0 <= i -> truthy (Z.land (bit i) m) = Z.testbit m i.
Proof.
  intros H. rewrite land_bit_l by assumption. unfold truthy.
  destruct (Z.testbit m i); [|reflexivity].
  destruct (Z.eqb_spec (bit i) 0) as [E|E]; [now apply bit_nonzero in E | reflexivity].
Qed.

Lemma truthy_land_bit_r i m : 0 <= i -> truthy (Z.land m (bit i)) = Z.testbit m i.
Proof. intros H. rewrite Z.land_comm. now apply truthy_land_bit_l. Qed.

Lemma shiftl_bit i d : 0 <= i -> 0 <= d -> Z.shiftl (bit i) d = bit (i + d).
Proof. intros Hi Hd. unfold bit. rewrite Z.shiftl_shiftl by lia. reflexivity. Qed.

Lemma shiftr_bit i d : 0 <= d <= i -> Z.shiftr (bit i) d = bit (i - d).
Proof. intros H. unfold bit. rewrite Z.shiftr_shiftl_l by lia. reflexivity. Qed.

(** ** Ray casting *)

Lemma bind_ret_r {A : Type} (c : result A) : (let* x := c in Ret x) = c.
Proof. destruct c; reflexivity. Qed.

Lemma generate_moves_loop_acc depth self origin directions limit acc :
  generate_moves_loop depth self origin directions limit acc =
  let* moves := generate_moves_loop depth self origin directions limit 0 in
  Ret (Z.lor acc moves).
Proof.
  revert acc. induction directions as [|c directions IH]; intros acc; simpl.
  - now rewrite Z.lor_0_r.
  - destruct (0 <? c).
    + destruct (recc_left_shift depth self origin c limit) as [m|e]; simpl; [|reflexivity].
      rewrite Z.lor_0_l, (IH (Z.lor acc m)), (IH m).
      destruct (generate_moves_loop depth self origin directions limit 0); simpl;
        [now rewrite Z.lor_assoc | reflexivity].
    + destruct (c <? 0).
      * destruct (recc_right_shift depth self origin (Z.abs c) limit) as [m|e]; simpl;
          [|reflexivity].
        rewrite Z.lor_0_l, (IH (Z.lor acc m)), (IH m).
        destruct (generate_moves_loop depth self origin directions limit 0); simpl;
          [now rewrite Z.lor_assoc | reflexivity].
      * simpl. apply IH.
Qed.

(** [generate_moves] is the union of the rays of its directions. *)
Lemma generate_moves_cons depth self origin d directions limit :
  generate_moves depth self origin (dir_code d :: directions) limit =
  let* first := recc depth self origin d limit in
  let* others := generate_moves depth self origin directions limit in
  Ret (Z.lor first others).
Proof.
  unfold generate_moves.
  assert (Hhead : generate_moves_loop depth self origin (dir_code d :: directions) limit 0 =
    let* first := recc depth self origin d limit in
    generate_moves_loop depth self origin directions limit first).
  { unfold recc. destruct d; simpl;
      match goal with
      | |- context [recc_left_shift ?a ?b ?c ?e ?f] => destruct (recc_left_shift a b c e f)
      | |- context [recc_right_shift ?a ?b ?c ?e ?f] => destruct (recc_right_shift a b c e f)
      end; reflexivity. }
  rewrite Hhead. destruct (recc depth self origin d limit) as [m|e]; simpl; [|reflexivity].
  apply generate_moves_loop_acc.
Qed.

Lemma generate_moves_nil depth self origin limit :
  generate_moves depth self origin [] limit = Ret 0.
Proof. reflexivity. Qed.

Lemma generate_moves_single depth self origin d limit :
  generate_moves depth self origin [dir_code d] limit = recc depth self origin d limit.
Proof.
  rewrite generate_moves_cons, generate_moves_nil.
  destruct (recc depth self origin d limit); simpl; [now rewrite Z.lor_0_r | reflexivity].
Qed.

Lemma recc_unfold depth self location_bb d :
  recc (Datatypes.S depth) self location_bb d None =
  if blocked d self location_bb then Ret 0
  else let* rest := recc depth self (shifted d location_bb) d None in
       Ret (Z.lor (shifted d location_bb) rest).
Proof. destruct d; reflexivity. Qed.

Lemma recc_limit depth self location_bb d c :
  recc (Datatypes.S depth) self location_bb d (Some c) =
  if c <=? 0 then Ret 0
  else if blocked d self location_bb then Ret 0
  else let* rest := recc depth self (shifted d location_bb) d (Some (c - 1)) in
       Ret (Z.lor (shifted d location_bb) rest).
Proof.
  destruct d; unfold recc, blocked, shifted;
    cbn [recc_left_shift recc_right_shift manage_count]; destruct (c <=? 0); reflexivity.
Qed.

(** With a move limit of one, a ray is the next square or nothing. *)
Lemma recc_limit_1 depth self location_bb d :
  recc (Datatypes.S (Datatypes.S depth)) self location_bb d (Some 1) =
  Ret (if blocked d self location_bb then 0 else shifted d location_bb).
Proof.
  rewrite recc_limit. change (1 <=? 0) with false. cbv iota.
  destruct (blocked d self location_bb); [reflexivity|].
  rewrite recc_limit. change (1 - 1 <=? 0) with true. cbv iota.
  cbn [bind]. now rewrite Z.lor_0_r.
Qed.

(** With a move limit of two, a ray is at most the next two squares. *)
Lemma recc_limit_2 depth self location_bb d :
  recc (Datatypes.S (Datatypes.S (Datatypes.S depth))) self location_bb d (Some 2) =
  Ret (if blocked d self location_bb then 0
       else Z.lor (shifted d location_bb)
              (if blocked d self (shifted d location_bb) then 0
               else shifted d (shifted d location_bb))).
Proof.
  rewrite recc_limit. change (2 <=? 0) with false. cbv iota.
  destruct (blocked d self location_bb); [reflexivity|].
  change (2 - 1) with 1. rewrite recc_limit_1. reflexivity.
Qed.

(** On a square of the board, the boundary mask tests exactly whether the
    next step leaves the board. *)
Lemma boundary_mask_spec d f r :
  on_board f r ->
  Z.testbit (boundary_mask d) (square f r) = negb (on_boardb (f + dfile d) (r + drank d)).
Proof.
  intros Hb. apply Bool.eqb_prop.
  apply (forall_squares (fun f r => Bool.eqb (Z.testbit (boundary_mask d) (square f r))
                                      (negb (on_boardb (f + dfile d) (r + drank d))))); [|exact Hb].
  destruct d; vm_compute; reflexivity.
Qed.

Lemma blocked_spec d self f r :
  on_board f r ->
  blocked d self (bit (square f r)) =
  negb (on_boardb (f + dfile d) (r + drank d)) || Z.testbit (_all_pieces_bb self) (square f r).
Proof.
  intros Hb. pose proof (square_range f r Hb) as Hs.
  rewrite <- (boundary_mask_spec d f r Hb).
  unfold blocked, left_blocked, right_blocked.
  destruct d; simpl; rewrite !truthy_land_bit_l by lia; reflexivity.
Qed.

Lemma shifted_spec d f r :
  on_board f r -> on_board (f + dfile d) (r + drank d) ->
  shifted d (bit (square f r)) = bit (square (f + dfile d) (r + drank d)).
Proof.
  unfold on_board, shifted, square. intros Hb Hb'.
  destruct d; simpl in *;
    first [ rewrite shiftl_bit by lia | rewrite shiftr_bit by lia ]; f_equal; lia.
Qed.

Lemma off_board_stays d f r k :
  on_board f r -> ~ on_board (f + dfile d) (r + drank d) -> 1 <= k ->
  ~ on_board (step_file d f k) (step_rank d r k).
Proof.
  unfold on_board, step_file, step_rank. intros Hb Hn Hk.
  destruct d; simpl in *; lia.
Qed.

Lemma on_board_between d f r k m :
  on_board f r -> on_board (step_file d f k) (step_rank d r k) -> 0 <= m <= k ->
  on_board (step_file d f m) (step_rank d r m).
Proof.
  unfold on_board, step_file, step_rank. intros Hb Hk Hm.
  destruct d; simpl in *; lia.
Qed.

Lemma recc_spec d self depth :
  forall f r, on_board f r -> edge_dist d f r < Z.of_nat depth ->
  exists moves, recc depth self (bit (square f r)) d None = Ret moves /\
    forall j, Z.testbit moves j = true <-> reaches_from (_all_pieces_bb self) f r d j.
Proof.
  induction depth as [|depth IH]; intros f r Hb Hd.
  - exfalso. unfold on_board, edge_dist in *. destruct d; lia.
  - rewrite recc_unfold, blocked_spec by assumption.
    destruct (on_boardb (f + dfile d) (r + drank d)) eqn:Hnext; simpl.
    2:{ exists 0. split; [reflexivity|]. intros j. rewrite Z.bits_0. split; [discriminate|].
        intros (k & Hk & Hon & _). exfalso.
        apply on_boardb_false in Hnext.
        exact (off_board_stays d f r k Hb Hnext Hk Hon). }
    apply on_boardb_spec in Hnext.
    destruct (Z.testbit (_all_pieces_bb self) (square f r)) eqn:Hocc.
    { exists 0. split; [reflexivity|]. intros j. rewrite Z.bits_0. split; [discriminate|].
      intros (k & Hk & _ & _ & Hfree). specialize (Hfree 0 ltac:(lia)).
      unfold step_file, step_rank in Hfree. rewrite !Z.mul_0_l, !Z.add_0_r in Hfree. congruence. }
    rewrite shifted_spec by assumption.
    destruct (IH (f + dfile d) (r + drank d) Hnext) as (rest & Hrest & Hspec).
    { unfold on_board, edge_dist in *. destruct d; simpl in *; lia. }
    rewrite Hrest. simpl. eexists. split; [reflexivity|].
    intros j. pose proof (square_range _ _ Hnext) as Hsq.
    rewrite Z.lor_spec, orb_true_iff, testbit_bit, Z.eqb_eq, Hspec by lia.
    assert (Hshift : forall k, step_file d (f + dfile d) k = step_file d f (k + 1)
                            /\ step_rank d (r + drank d) k = step_rank d r (k + 1)).
    { intros k. unfold step_file, step_rank. lia. }
    split.
    + intros [<- | (k & Hk & Hon & Hj & Hfree)].
      * exists 1. unfold step_file, step_rank. rewrite !Z.mul_1_l.
        repeat split; try lia; try apply Hnext.
        intros m Hm. assert (m = 0) as -> by lia.
        rewrite !Z.mul_0_l, !Z.add_0_r. exact Hocc.
      * exists (k + 1). destruct (Hshift k) as [Ef Er]. rewrite <- Ef, <- Er.
        repeat split; try lia; try apply Hon; try exact Hj.
        intros m Hm. destruct (Z.eq_dec m 0) as [->|Hm0].
        -- unfold step_file, step_rank. rewrite !Z.mul_0_l, !Z.add_0_r. exact Hocc.
        -- specialize (Hfree (m - 1) ltac:(lia)).
           destruct (Hshift (m - 1)) as [Ef' Er']. rewrite Ef', Er' in Hfree.
           replace (m - 1 + 1) with m in Hfree by lia. exact Hfree.
    + intros (k & Hk & Hon & Hj & Hfree).
      destruct (Z.eq_dec k 1) as [->|Hk1].
      * left. subst j. unfold step_file, step_rank. rewrite !Z.mul_1_l. reflexivity.
      * right. exists (k - 1). destruct (Hshift (k - 1)) as [Ef Er].
        replace (k - 1 + 1) with k in * by lia. rewrite Ef, Er.
        repeat split; try lia; try apply Hon; try exact Hj.
        intros m Hm. destruct (Hshift m) as [Ef' Er']. rewrite Ef', Er'.
        apply Hfree. lia.
Qed.

Lemma reaches_from_iff occ f r d j :
  Z.testbit occ (square f r) = false ->
  reaches_from occ f r d j <-> reaches occ f r d j.
Proof.
  intros Hfree. unfold reaches_from, reaches.
  split; intros (k & Hk & Hon & Hj & H); exists k; repeat split; try lia; try apply Hon; try exact Hj.
  - intros m Hm. apply H. lia.
  - intros m Hm. destruct (Z.eq_dec m 0) as [->|Hm0].
    + unfold step_file, step_rank. rewrite !Z.mul_0_l, !Z.add_0_r. exact Hfree.
    + apply H. lia.
Qed.

Lemma reaches_on_board occ f r d j : reaches occ f r d j -> 0 <= j < 64.
Proof. intros (k & _ & Hon & -> & _). now apply square_range. Qed.

Lemma ray_exact_cleared depth self f r d :
  on_board f r -> (8 <= depth)%nat ->
  Z.testbit (_all_pieces_bb self) (square f r) = false ->
  ray_exact depth self f r d.
Proof.
  intros Hb Hdepth Hfree. unfold ray_exact, ray. rewrite generate_moves_single.
  destruct (recc_spec d self depth f r Hb) as (moves & Hmoves & Hspec).
  { unfold on_board, edge_dist in *. destruct d; lia. }
  exists moves. split; [exact Hmoves|].
  intros j. rewrite Hspec. now apply reaches_from_iff.
Qed.

(** C1 (as amended): with enough recursion depth, for every origin square
    of the board, every sliding direction and every occupancy from which the
    origin bit has been removed (as [execute_move] does before generating
    moves), the ray computed by the recursive shift functions is exactly the
    set of squares reached by single steps in that direction, stopping before
    the board edge and on the first occupied square (included); every square
    of the ray is one of the 64 squares of the board.  A Rook on D4 on an
    otherwise empty board has exactly 14 legal destinations. *)
Theorem ray_casting_exact (depth : nat) :
  (8 <= depth)%nat ->
  (forall self f r d,
     on_board f r ->
     Z.testbit (_all_pieces_bb self) (square f r) = false ->
     ray_exact depth self f r d /\
     forall moves j, ray depth self f r d = Ret moves ->
       Z.testbit moves j = true -> 0 <= j < 64) /\
  (exists moves self',
     find_valid_moves depth
       (set_all_pieces_bb (Z.land (_all_pieces_bb lone_rook_board) (Z.lnot (bit 27)))
          lone_rook_board) (bit 27) = Ret (moves, self') /\
     moves = 0x08080808f7080808 /\ count_squares moves = 14%nat).
Proof.
  intros Hdepth. split.
  - intros self f r d Hb Hfree.
    pose proof (ray_exact_cleared depth self f r d Hb Hdepth Hfree) as Hexact.
    split; [exact Hexact|].
    intros moves j Hmoves Hj. destruct Hexact as (moves' & Hmoves' & Hspec).
    rewrite Hmoves in Hmoves'. injection Hmoves' as <-.
    apply Hspec in Hj. exact (reaches_on_board _ _ _ _ _ Hj).
  - replace depth with (8 + (depth - 8))%nat by lia.
    generalize (depth - 8)%nat. intros n.
    eexists. eexists. split; [vm_compute; reflexivity|].
    split; vm_compute; reflexivity.
Qed.

Lemma ray_casting_exact_witness :
  (8 <= 8)%nat /\ on_board 3 3 /\
  Z.testbit (_all_pieces_bb (set_all_pieces_bb 0 lone_rook_board)) (square 3 3) = false /\
  ray_exact 8 (set_all_pieces_bb 0 lone_rook_board) 3 3 N.
Proof.
  assert (Hdepth : (8 <= 8)%nat) by lia.
  assert (Hb : on_board 3 3) by (unfold on_board; lia).
  assert (Hfree : Z.testbit (_all_pieces_bb (set_all_pieces_bb 0 lone_rook_board))
                    (square 3 3) = false) by reflexivity.
  repeat split; try lia.
  exact (proj1 (proj1 (ray_casting_exact 8 Hdepth) _ 3 3 N Hb Hfree)).
Defined.

(** C1 as stated fails when the origin bit is still part of the occupancy:
    on the board with a lone Rook on D4, occupancy included, the ray to the
    North is empty although D5 is one step away on an empty file. *)
Lemma ray_casting_counterexample : ~ ray_exact 8 lone_rook_board 3 3 N.
Proof.
  intros (moves & Hmoves & Hspec).
  assert (Hzero : ray 8 lone_rook_board 3 3 N = Ret 0) by (vm_compute; reflexivity).
  rewrite Hzero in Hmoves. injection Hmoves as <-.
  assert (Hreach : reaches (_all_pieces_bb lone_rook_board) 3 3 N 35).
  { exists 1. unfold step_file, step_rank, on_board, square. simpl.
    repeat split; try lia. }
  apply Hspec in Hreach. rewrite Z.bits_0 in Hreach. discriminate.
Qed.

(** ** Knight moves *)

Lemma l_shapedb_spec f r f' r' : l_shapedb f r f' r' = true <-> l_shaped f r f' r'.
Proof.
  unfold l_shapedb, l_shaped.
  rewrite orb_true_iff, !andb_true_iff, !Z.eqb_eq. reflexivity.
Qed.

Lemma knight_squares_check f r f' r' :
  on_board f r -> on_board f' r' ->
  Z.testbit (generate_moves_knight (bit (square f r))) (square f' r') = l_shapedb f r f' r'.
Proof.
  intros Hb Hb'. apply Bool.eqb_prop.
  pose proof (forall_squares
    (fun f r => forallb (fun f' => forallb (fun r' =>
       Bool.eqb (Z.testbit (generate_moves_knight (bit (square f r))) (square f' r'))
                (l_shapedb f r f' r')) coords) coords)) as H.
  specialize (H ltac:(vm_compute; reflexivity) f r Hb).
  exact (forall_squares _ H f' r' Hb').
Qed.

(** C2: for every origin square, the squares of the board (bits 0-63) in the
    mask of [generate_moves_knight] are exactly the squares of the board at an
    L-shaped offset from the origin; from A1 these are B3 and C2, and from D4
    there are 8 of them. *)
Theorem knight_moves_on_board (f r f' r' : Z) :
  on_board f r -> on_board f' r' ->
  (Z.testbit (generate_moves_knight (bit (square f r))) (square f' r') = true
     <-> l_shaped f r f' r') /\
  (forall j, 0 <= j < 64 ->
     (Z.testbit (generate_moves_knight (bit (square 0 0))) j = true
        <-> j = square 1 2 \/ j = square 2 1)) /\
  count_squares (generate_moves_knight (bit (square 0 0))) = 2%nat /\
  count_squares (generate_moves_knight (bit (square 3 3))) = 8%nat.
Proof.
  intros Hb Hb'. split; [|split; [|split]].
  - rewrite knight_squares_check by assumption. apply l_shapedb_spec.
  - intros j Hj.
    assert (Hmask : generate_moves_knight (bit (square 0 0)) = Z.lor (bit 17) (bit 10))
      by (vm_compute; reflexivity).
    rewrite Hmask, Z.lor_spec, orb_true_iff, !testbit_bit, !Z.eqb_eq by lia.
    unfold square. lia.
  - vm_compute; reflexivity.
  - vm_compute; reflexivity.
Qed.

Lemma knight_moves_on_board_witness :
  on_board 3 3 /\ on_board 4 5 /\
  (Z.testbit (generate_moves_knight (bit (square 3 3))) (square 4 5) = true
     <-> l_shaped 3 3 4 5).
Proof.
  assert (Hb : on_board 3 3) by (unfold on_board; lia).
  assert (Hb' : on_board 4 5) by (unfold on_board; lia).
  repeat split; try lia; apply (proj1 (knight_moves_on_board 3 3 4 5 Hb Hb')).
Defined.

(** ** Pawn moves *)

Lemma testbit_opt_bit c i j :
  (c = true -> 0 <= i) -> Z.testbit (opt_bit c i) j = c && (i =? j).
Proof.
  intros H. unfold opt_bit. destruct c; simpl.
  - apply testbit_bit. auto.
  - apply Z.bits_0.
Qed.

Lemma recc_limit_1_square depth self f r d :
  on_board f r -> Z.testbit (_all_pieces_bb self) (square f r) = false ->
  recc (Datatypes.S (Datatypes.S depth)) self (bit (square f r)) d (Some 1) =
  Ret (opt_bit (on_boardb (f + dfile d) (r + drank d))
               (square (f + dfile d) (r + drank d))).
Proof.
  intros Hb Hfree. rewrite recc_limit_1, blocked_spec, Hfree, orb_false_r by assumption.
  unfold opt_bit.
  destruct (on_boardb (f + dfile d) (r + drank d)) eqn:Hnext; simpl; [|reflexivity].
  apply on_boardb_spec in Hnext. now rewrite shifted_spec.
Qed.

Lemma recc_limit_2_square depth self f r d :
  on_board f r -> Z.testbit (_all_pieces_bb self) (square f r) = false ->
  recc (Datatypes.S (Datatypes.S (Datatypes.S depth))) self (bit (square f r)) d (Some 2) =
  Ret (Z.lor
         (opt_bit (on_boardb (f + dfile d) (r + drank d))
                  (square (f + dfile d) (r + drank d)))
         (opt_bit (on_boardb (f + dfile d) (r + drank d) &&
                   on_boardb (f + dfile d + dfile d) (r + drank d + drank d) &&
                   negb (Z.testbit (_all_pieces_bb self)
                           (square (f + dfile d) (r + drank d))))
                  (square (f + dfile d + dfile d) (r + drank d + drank d)))).
Proof.
  intros Hb Hfree. rewrite recc_limit_2, blocked_spec, Hfree, orb_false_r by assumption.
  unfold opt_bit.
  destruct (on_boardb (f + dfile d) (r + drank d)) eqn:Hnext; simpl; [|reflexivity].
  apply on_boardb_spec in Hnext.
  rewrite shifted_spec, blocked_spec by assumption.
  destruct (on_boardb (f + dfile d + dfile d) (r + drank d + drank d)) eqn:Hnext2; simpl;
    [|now rewrite Z.lor_0_r].
  apply on_boardb_spec in Hnext2.
  destruct (Z.testbit (_all_pieces_bb self) (square (f + dfile d) (r + drank d))); simpl;
    [reflexivity|].
  now rewrite shifted_spec.
Qed.

Lemma start_rank_white f r : on_board f r -> Z.testbit 0xff00 (square f r) = (r =? 1).
Proof.
  intros Hb. apply Bool.eqb_prop.
  apply (forall_squares (fun f r => Bool.eqb (Z.testbit 0xff00 (square f r)) (r =? 1)));
    [vm_compute; reflexivity | exact Hb].
Qed.

Lemma start_rank_black f r :
  on_board f r -> Z.testbit 0xff000000000000 (square f r) = (r =? 6).
Proof.
  intros Hb. apply Bool.eqb_prop.
  apply (forall_squares (fun f r => Bool.eqb (Z.testbit 0xff000000000000 (square f r)) (r =? 6)));
    [vm_compute; reflexivity | exact Hb].
Qed.

(** The value of [generate_moves_pawn] on a board whose occupancy no longer
    holds the origin. *)
Lemma generate_moves_pawn_value depth self f r :
  on_board f r -> Z.testbit (_all_pieces_bb self) (square f r) = false ->
  let fw := pawn_forward_dir (white_to_move self) in
  let dl := fst (pawn_diagonal_dirs (white_to_move self)) in
  let dr := snd (pawn_diagonal_dirs (white_to_move self)) in
  let one := opt_bit (on_boardb f (r + drank fw)) (square f (r + drank fw)) in
  let two := opt_bit ((r =? start_rank self) && on_boardb f (r + drank fw) &&
                      on_boardb f (r + drank fw + drank fw) &&
                      negb (Z.testbit (_all_pieces_bb self) (square f (r + drank fw))))
                     (square f (r + drank fw + drank fw)) in
  let left := opt_bit (on_boardb (f + dfile dl) (r + drank dl))
                      (square (f + dfile dl) (r + drank dl)) in
  let right := opt_bit (on_boardb (f + dfile dr) (r + drank dr))
                       (square (f + dfile dr) (r + drank dr)) in
  generate_moves_pawn (3 + depth) self (bit (square f r)) =
  Ret (Z.lor (Z.land (Z.lor one two) (Z.lnot (_all_pieces_bb self)))
             (Z.land (_all_pieces_bb self) (Z.lor left right))).
Proof.
  intros Hb Hfree. pose proof (square_range f r Hb) as Hsq.
  unfold generate_moves_pawn, start_rank.
  destruct (white_to_move self) eqn:Hturn; cbv zeta; cbn [pawn_forward_dir pawn_diagonal_dirs fst snd].
  - rewrite truthy_land_bit_l, start_rank_white by (assumption || lia).
    change [8 * 1] with [dir_code N]. change [7 * 1; 9 * 1] with [dir_code NW; dir_code NE].
    rewrite generate_moves_single, generate_moves_cons, generate_moves_single.
    change (3 + depth)%nat with (Datatypes.S (Datatypes.S (Datatypes.S depth))).
    rewrite !recc_limit_1_square by assumption.
    destruct (r =? 1); cbn [bind andb].
    + rewrite recc_limit_2_square by assumption. cbn [bind dfile drank].
      rewrite !Z.add_0_r. reflexivity.
    + rewrite recc_limit_1_square by assumption. cbn [bind dfile drank opt_bit].
      rewrite !Z.add_0_r, Z.lor_0_r. reflexivity.
  - rewrite truthy_land_bit_l, start_rank_black by (assumption || lia).
    change [8 * -1] with [dir_code S]. change [7 * -1; 9 * -1] with [dir_code SE; dir_code SW].
    rewrite generate_moves_single, generate_moves_cons, generate_moves_single.
    change (3 + depth)%nat with (Datatypes.S (Datatypes.S (Datatypes.S depth))).
    rewrite !recc_limit_1_square by assumption.
    destruct (r =? 6); cbn [bind andb].
    + rewrite recc_limit_2_square by assumption. cbn [bind dfile drank].
      rewrite !Z.add_0_r. reflexivity.
    + rewrite recc_limit_1_square by assumption. cbn [bind dfile drank opt_bit].
      rewrite !Z.add_0_r, Z.lor_0_r. reflexivity.
Qed.

(** ** Masks and lists of masks *)

(** Equations between masks are checked bit by bit. *)
Ltac bitblast :=
  apply Z.bits_inj'; let n := fresh "n" in let Hn := fresh "Hn" in intros n Hn;
  repeat match goal with
         | H : @eq Z _ _ |- _ =>
           apply (f_equal (fun z => Z.testbit z n)) in H; cbv beta in H; revert H
         end;
  repeat first [ rewrite Z.land_spec | rewrite Z.lor_spec
               | rewrite Z.lnot_spec by assumption | rewrite Z.bits_0 ];
  repeat match goal with
         | |- context [Z.testbit ?v ?m] => destruct (Z.testbit v m)
         end;
  simpl; intros; congruence.

Lemma land_subset_disjoint m x y : Z.land m x = m -> Z.land x y = 0 -> Z.land m y = 0.
Proof. intros H1 H2. bitblast. Qed.

Lemma clear_bits_disjoint m y : Z.land m y = 0 -> clear_bits m y = y.
Proof. unfold clear_bits. intros H. bitblast. Qed.

Lemma truthy_false z : truthy z = false <-> z = 0.
Proof. unfold truthy. rewrite negb_false_iff. apply Z.eqb_eq. Qed.

Lemma truthy_true z : truthy z = true <-> z <> 0.
Proof. unfold truthy. rewrite negb_true_iff. apply Z.eqb_neq. Qed.

Lemma land_bit_subset i x : 0 <= i -> Z.testbit x i = true -> Z.land (bit i) x = bit i.
Proof. intros Hi Hx. now rewrite land_bit_l, Hx. Qed.

Lemma land_bit_disjoint i x : 0 <= i -> Z.testbit x i = false <-> Z.land (bit i) x = 0.
Proof.
  intros Hi. rewrite land_bit_l by assumption. destruct (Z.testbit x i); split; try congruence.
  intros E. now apply bit_nonzero in E.
Qed.

Lemma pairwise_disjoint_cons x l :
  pairwise_disjoint (x :: l) <->
  Forall (fun y => Z.land x y = 0) l /\ pairwise_disjoint l.
Proof.
  unfold pairwise_disjoint. split.
  - intros H. split.
    + apply Forall_lookup. intros j y Hj. exact (H 0%nat (Datatypes.S j) x y ltac:(lia) eq_refl Hj).
    + intros i j a c Hij Ha Hc.
      exact (H (Datatypes.S i) (Datatypes.S j) a c ltac:(lia) Ha Hc).
  - intros [Hx Hl] i j a c Hij Ha Hc. rewrite Forall_lookup in Hx.
    destruct i as [|i], j as [|j]; simpl in *; try lia.
    + injection Ha as <-. eapply Hx; eauto.
    + injection Hc as <-. rewrite Z.land_comm. eapply Hx; eauto.
    + apply (Hl i j); auto.
Qed.

Lemma pairwise_disjoint_nil : pairwise_disjoint [].
Proof. intros i j x y _ H. destruct i; discriminate. Qed.

Lemma land_union_bb m l :
  Z.land m (union_bb l) = 0 <-> Forall (fun y => Z.land m y = 0) l.
Proof.
  induction l as [|x l IH]; simpl.
  - rewrite Z.land_0_r. split; auto.
  - rewrite Forall_cons_iff, <- IH. split.
    + intros H. split; bitblast.
    + intros [H1 H2]. bitblast.
Qed.

Lemma testbit_union_bb l n :
  Z.testbit (union_bb l) n = true <-> exists i x, l !! i = Some x /\ Z.testbit x n = true.
Proof.
  induction l as [|y l IH]; simpl.
  - rewrite Z.bits_0. split; [discriminate|]. intros (i & x & H & _). destruct i; discriminate.
  - destruct (Z.neg_nonneg_cases n) as [Hn|Hn].
    { rewrite Z.testbit_neg_r by assumption. split; [discriminate|].
      intros (i & x & _ & H). now rewrite Z.testbit_neg_r in H. }
    rewrite Z.lor_spec, orb_true_iff, IH. split.
    + intros [H | (i & x & Hi & Hx)]; [exists 0%nat, y | exists (Datatypes.S i), x]; auto.
    + intros ([|i] & x & Hi & Hx); simpl in Hi; [injection Hi as ->; auto | right; eauto].
Qed.

Lemma pairwise_disjoint_clear t l :
  pairwise_disjoint l -> pairwise_disjoint (map (clear_bits t) l).
Proof.
  intros H i j x y Hij Hx Hy.
  change (map (clear_bits t) l) with (clear_bits t <$> l) in *.
  rewrite list_lookup_fmap in Hx, Hy.
  destruct (l !! i) as [x0|] eqn:Hi; [|discriminate].
  destruct (l !! j) as [y0|] eqn:Hj; [|discriminate].
  simpl in *. injection Hx as <-. injection Hy as <-.
  pose proof (H i j x0 y0 Hij Hi Hj) as Hd. unfold clear_bits. bitblast.
Qed.

Lemma union_bb_clear t l :
  union_bb (map (clear_bits t) l) = clear_bits t (union_bb l).
Proof.
  induction l as [|x l IH]; simpl.
  - unfold clear_bits. now rewrite Z.land_0_l.
  - rewrite IH. clear IH. unfold clear_bits. bitblast.
Qed.

Lemma map_clear_disjoint t l :
  Z.land t (union_bb l) = 0 -> map (clear_bits t) l = l.
Proof.
  rewrite land_union_bb. induction 1 as [|x l Hx Hl IH]; simpl; [reflexivity|].
  now rewrite IH, clear_bits_disjoint.
Qed.

(** Moving a piece inside one mask of a list of disjoint masks. *)
Lemma pairwise_disjoint_move l idx x from to :
  l !! idx = Some x -> pairwise_disjoint l ->
  Z.land to (union_bb l) = 0 ->
  pairwise_disjoint (<[idx := Z.lor (Z.land x (Z.lnot from)) to]> l).
Proof.
  intros Hidx Hl Hto i j a c Hij Ha Hc.
  rewrite land_union_bb, Forall_lookup in Hto.
  assert (Hto' : forall k y, l !! k = Some y -> Z.land to y = 0).
  { intros k y Hk. eapply Hto; eauto. }
  destruct (Nat.eq_dec idx i) as [Ei|Hi], (Nat.eq_dec idx j) as [Ej|Hj]; try lia.
  - subst i. rewrite list_lookup_insert_eq in Ha by (eapply lookup_lt_Some; eauto).
    rewrite list_lookup_insert_ne in Hc by assumption.
    injection Ha as <-. pose proof (Hl idx j x c Hij Hidx Hc). pose proof (Hto' j c Hc).
    clear Hidx Hc. bitblast.
  - subst j. rewrite list_lookup_insert_eq in Hc by (eapply lookup_lt_Some; eauto).
    rewrite list_lookup_insert_ne in Ha by assumption.
    injection Hc as <-. pose proof (Hl i idx a x Hij Ha Hidx). pose proof (Hto' i a Ha).
    clear Hidx Ha. bitblast.
  - rewrite list_lookup_insert_ne in Ha, Hc by assumption. exact (Hl i j a c Hij Ha Hc).
Qed.

Lemma union_bb_move l idx x from to :
  l !! idx = Some x -> pairwise_disjoint l -> Z.land from x = from ->
  union_bb (<[idx := Z.lor (Z.land x (Z.lnot from)) to]> l) =
  Z.lor (Z.land (union_bb l) (Z.lnot from)) to.
Proof.
  revert idx. induction l as [|y l IH]; intros idx Hidx Hl Hfrom; [discriminate|].
  apply pairwise_disjoint_cons in Hl. destruct Hl as [Hy Hl].
  destruct idx as [|idx]; simpl in *.
  - injection Hidx as ->.
    assert (Hrest : Z.land from (union_bb l) = 0).
    { apply land_union_bb. eapply Forall_impl; [exact Hy|].
      intros z Hz. simpl in Hz. eapply land_subset_disjoint; eauto. }
    bitblast.
  - rewrite (IH idx Hidx Hl Hfrom).
    assert (Hyx : Z.land y x = 0).
    { rewrite Forall_lookup in Hy. eapply Hy; eauto. }
    bitblast.
Qed.

(** ** The capture loop and the board update *)

Lemma last_hit_none to index pieces captured :
  Forall (fun y => Z.land to y = 0) pieces ->
  last_hit to index pieces captured = captured.
Proof.
  intros H. revert index. induction H as [|y pieces Hy _ IH]; intros index; simpl.
  - reflexivity.
  - apply truthy_false in Hy. rewrite Hy. apply IH.
Qed.

Lemma last_hit_unique to pieces : forall index captured k x,
  pieces !! k = Some x -> Z.land to x <> 0 ->
  (forall k' y, k' <> k -> pieces !! k' = Some y -> Z.land to y = 0) ->
  last_hit to index pieces captured = Some (index + k)%nat.
Proof.
  induction pieces as [|y pieces IH]; intros index captured k x Hk Hx Hothers; [discriminate|].
  destruct k as [|k]; simpl in *.
  - injection Hk as ->. apply truthy_true in Hx. rewrite Hx.
    rewrite last_hit_none; [f_equal; lia|].
    apply Forall_lookup. intros i z Hz. apply (Hothers (Datatypes.S i)); [lia | exact Hz].
  - rewrite (IH (Datatypes.S index) _ k x Hk Hx).
    + f_equal. lia.
    + intros k' z Hk' Hz. apply (Hothers (Datatypes.S k')); [lia | exact Hz].
Qed.

Lemma existsb_hit_false to pieces :
  Forall (fun y => Z.land to y = 0) pieces ->
  existsb (fun x => truthy (Z.land to x)) pieces = false.
Proof.
  induction 1 as [|y pieces Hy _ IH]; simpl; [reflexivity|].
  apply truthy_false in Hy. now rewrite Hy, IH.
Qed.

Lemma capture_loop_spec to : forall suf pre self steps,
  opponents_pieces_list self = (pre ++ suf)%list -> (length suf <= steps)%nat ->
  let self' := capture_loop steps (length pre) to self in
  opponents_pieces_list self' = (pre ++ map (clear_bits to) suf)%list /\
  opponent_bb self' =
    (if existsb (fun x => truthy (Z.land to x)) suf
     then clear_bits to (opponent_bb self) else opponent_bb self) /\
  _piece_captured_index self' = last_hit to (length pre) suf (_piece_captured_index self) /\
  own_pieces_list self' = own_pieces_list self /\
  own_bb self' = own_bb self /\
  _all_pieces_bb self' = _all_pieces_bb self /\
  _current_turn self' = _current_turn self /\
  _piece_moved_index self' = _piece_moved_index self.
Proof.
  induction suf as [|x suf IH]; intros pre self steps Hlist Hsteps; cbv zeta.
  - assert (Hstop : capture_loop steps (length pre) to self = self).
    { destruct steps; simpl; [reflexivity|].
      rewrite Hlist, app_nil_r, lookup_ge_None_2 by lia. reflexivity. }
    rewrite Hstop, Hlist. simpl. repeat split; reflexivity.
  - destruct steps as [|steps]; simpl in Hsteps; [lia|].
    cbn [capture_loop]. rewrite Hlist, list_lookup_middle by reflexivity.
    set (self1 := if truthy (Z.land to x) then _ else self).
    assert (Hself1 :
      opponents_pieces_list self1 = ((pre ++ [clear_bits to x]) ++ suf)%list /\
      opponent_bb self1 =
        (if truthy (Z.land to x) then clear_bits to (opponent_bb self) else opponent_bb self) /\
      _piece_captured_index self1 =
        (if truthy (Z.land to x) then Some (length pre) else _piece_captured_index self) /\
      own_pieces_list self1 = own_pieces_list self /\
      own_bb self1 = own_bb self /\
      _all_pieces_bb self1 = _all_pieces_bb self /\
      _current_turn self1 = _current_turn self /\
      _piece_moved_index self1 = _piece_moved_index self).
    { subst self1. clear IH. destruct (truthy (Z.land to x)) eqn:Hhit.
      - rewrite <- app_assoc. simpl.
        unfold opponents_pieces_list, set_opponents_pieces_list, opponent_bb,
          own_pieces_list, own_bb, white_to_move in *.
        destruct self as [turn mi ci wl bl W B A]. cbn in Hlist |- *.
        destruct (String.eqb turn "White") eqn:Hturn; subst;
          repeat first [rewrite Hturn | progress cbn];
          rewrite insert_app_r_alt, Nat.sub_diag by lia; cbn; repeat split; reflexivity.
      - apply truthy_false in Hhit. rewrite clear_bits_disjoint by assumption.
        rewrite <- app_assoc. simpl. repeat split; try reflexivity; assumption. }
    destruct Hself1 as (Hl1 & Hbb1 & Hcap1 & Hown1 & Hobb1 & Hall1 & Hturn1 & Hmi1).
    specialize (IH (pre ++ [clear_bits to x])%list self1 steps Hl1 ltac:(lia)). cbv zeta in IH.
    rewrite length_app, Nat.add_1_r in IH. simpl in IH.
    destruct IH as (IHl & IHbb & IHcap & IHown & IHobb & IHall & IHturn & IHmi).
    rewrite IHl, IHbb, IHcap, IHown, IHobb, IHall, IHturn, IHmi.
    rewrite Hbb1, Hcap1, Hown1, Hobb1, Hall1, Hturn1, Hmi1.
    rewrite <- app_assoc. simpl.
    repeat split; try reflexivity.
    destruct (truthy (Z.land to x)); simpl; [|reflexivity].
    destruct (existsb (fun x0 => truthy (Z.land to x0)) suf); [|reflexivity].
    unfold clear_bits. bitblast.
Qed.

Lemma update_bitboards_spec self from to idx x :
  _piece_moved_index self = Some idx ->
  own_pieces_list self !! idx = Some x ->
  exists self', update_bitboards self from to = Ret self' /\
    own_pieces_list self' =
      <[idx := Z.lor (Z.land x (Z.lnot from)) to]> (own_pieces_list self) /\
    own_bb self' = Z.lor (Z.land (own_bb self) (Z.lnot from)) to /\
    _all_pieces_bb self' = Z.lor (Z.land (_all_pieces_bb self) (Z.lnot from)) to /\
    opponents_pieces_list self' =
      (if truthy (Z.land to (opponent_bb self))
       then map (clear_bits to) (opponents_pieces_list self)
       else opponents_pieces_list self) /\
    opponent_bb self' =
      (if truthy (Z.land to (opponent_bb self)) &&
          existsb (fun y => truthy (Z.land to y)) (opponents_pieces_list self)
       then clear_bits to (opponent_bb self) else opponent_bb self) /\
    _piece_captured_index self' =
      (if truthy (Z.land to (opponent_bb self))
       then last_hit to 0 (opponents_pieces_list self) (_piece_captured_index self)
       else _piece_captured_index self) /\
    _current_turn self' = _current_turn self /\
    _piece_moved_index self' = Some idx.
Proof.
  intros Hidx Hown.
  pose proof (lookup_lt_Some _ _ _ Hown) as Hlen. apply Nat.ltb_lt in Hlen.
  unfold update_bitboards.
  destruct (white_to_move self) eqn:Hturn.
  - unfold own_pieces_list in Hown, Hlen. rewrite Hturn in Hown, Hlen.
    rewrite Hidx; cbn [index_of bind];
      unfold list_get, list_set; rewrite Hown; cbn [bind]; rewrite Hlen; cbn [bind];
      rewrite list_lookup_insert_eq by (apply Nat.ltb_lt; assumption); cbn [bind];
      rewrite length_insert, Hlen; cbn [bind];
      rewrite list_insert_insert_eq. cbv zeta.
    match goal with |- context [capture_loop _ 0%nat to ?s] => set (self2 := s) end.
    match goal with |- context [truthy (Z.land to ?o)] =>
      replace o with (opponent_bb self) by (unfold opponent_bb; rewrite Hturn; reflexivity)
    end.
    assert (Hself2 :
      own_pieces_list self2 =
        <[idx := Z.lor (Z.land x (Z.lnot from)) to]> (own_pieces_list self) /\
      own_bb self2 = Z.lor (Z.land (own_bb self) (Z.lnot from)) to /\
      _all_pieces_bb self2 = Z.lor (Z.land (_all_pieces_bb self) (Z.lnot from)) to /\
      opponents_pieces_list self2 = opponents_pieces_list self /\
      opponent_bb self2 = opponent_bb self /\
      _piece_captured_index self2 = _piece_captured_index self /\
      _current_turn self2 = _current_turn self /\
      _piece_moved_index self2 = Some idx).
    { subst self2. clear Hown Hlen.
      unfold own_pieces_list, own_bb, opponents_pieces_list, opponent_bb, white_to_move in *.
      destruct self as [turn mi ci wl bl W B A]. cbn in Hidx, Hturn |- *. subst mi.
      repeat first [rewrite Hturn | progress cbn]; repeat split; reflexivity. }
    clearbody self2.
    destruct Hself2 as (H1 & H2 & H3 & H4 & H5 & H6 & H7 & H8).
    destruct (truthy (Z.land to (opponent_bb self))) eqn:Hcap; cbn [andb].
    + eexists. split; [reflexivity|].
      pose proof (capture_loop_spec to (opponents_pieces_list self2) [] self2
                    (length (opponents_pieces_list self2)) eq_refl ltac:(lia)) as Hloop.
      cbv zeta in Hloop. cbn [length app] in Hloop.
      destruct Hloop as (L1 & L2 & L3 & L4 & L5 & L6 & L7 & L8).
      rewrite L1, L2, L3, L4, L5, L6, L7, L8, H1, H2, H3, H4, H5, H6, H7, H8.
      repeat split; reflexivity.
    + exists self2. split; [reflexivity|]. repeat split; assumption.
  - unfold own_pieces_list in Hown, Hlen. rewrite Hturn in Hown, Hlen.
    rewrite Hidx; cbn [index_of bind];
      unfold list_get, list_set; rewrite Hown; cbn [bind]; rewrite Hlen; cbn [bind];
      rewrite list_lookup_insert_eq by (apply Nat.ltb_lt; assumption); cbn [bind];
      rewrite length_insert, Hlen; cbn [bind];
      rewrite list_insert_insert_eq. cbv zeta.
    match goal with |- context [capture_loop _ 0%nat to ?s] => set (self2 := s) end.
    match goal with |- context [truthy (Z.land to ?o)] =>
      replace o with (opponent_bb self) by (unfold opponent_bb; rewrite Hturn; reflexivity)
    end.
    assert (Hself2 :
      own_pieces_list self2 =
        <[idx := Z.lor (Z.land x (Z.lnot from)) to]> (own_pieces_list self) /\
      own_bb self2 = Z.lor (Z.land (own_bb self) (Z.lnot from)) to /\
      _all_pieces_bb self2 = Z.lor (Z.land (_all_pieces_bb self) (Z.lnot from)) to /\
      opponents_pieces_list self2 = opponents_pieces_list self /\
      opponent_bb self2 = opponent_bb self /\
      _piece_captured_index self2 = _piece_captured_index self /\
      _current_turn self2 = _current_turn self /\
      _piece_moved_index self2 = Some idx).
    { subst self2. clear Hown Hlen.
      unfold own_pieces_list, own_bb, opponents_pieces_list, opponent_bb, white_to_move in *.
      destruct self as [turn mi ci wl bl W B A]. cbn in Hidx, Hturn |- *. subst mi.
      repeat first [rewrite Hturn | progress cbn]; repeat split; reflexivity. }
    clearbody self2.
    destruct Hself2 as (H1 & H2 & H3 & H4 & H5 & H6 & H7 & H8).
    destruct (truthy (Z.land to (opponent_bb self))) eqn:Hcap; cbn [andb].
    + eexists. split; [reflexivity|].
      pose proof (capture_loop_spec to (opponents_pieces_list self2) [] self2
                    (length (opponents_pieces_list self2)) eq_refl ltac:(lia)) as Hloop.
      cbv zeta in Hloop. cbn [length app] in Hloop.
      destruct Hloop as (L1 & L2 & L3 & L4 & L5 & L6 & L7 & L8).
      rewrite L1, L2, L3, L4, L5, L6, L7, L8, H1, H2, H3, H4, H5, H6, H7, H8.
      repeat split; reflexivity.
    + exists self2. split; [reflexivity|]. repeat split; assumption.
Qed.

(** ** Inversion of a move *)

Lemma convert_to_bitboard_some s m :
  convert_to_bitboard (PyStr s) = Ret (Some m) ->
  exists f r, on_board f r /\ m = bit (square f r).
Proof.
  destruct s as [|c0 [|c1 [|c2 s]]]; simpl; try discriminate.
  unfold int_of_char.
  destruct ((48 <=? ord c1) && (ord c1 <=? 57)); cbn [bind]; [|discriminate].
  destruct ((ord (upper_ascii c0) - ord "A" <? 0) || (7 <? ord (upper_ascii c0) - ord "A"))
    eqn:Hfile; [discriminate|].
  destruct ((ord c1 - 48 - 1 <? 0) || (7 <? ord c1 - 48 - 1)) eqn:Hrank; [discriminate|].
  intros H. injection H as <-.
  exists (ord (upper_ascii c0) - ord "A"), (ord c1 - 48 - 1).
  split; [unfold on_board; lia | reflexivity].
Qed.

Lemma find_valid_moves_inv depth self from legal self' :
  find_valid_moves depth self from = Ret (legal, self') ->
  (legal = 0 /\ self' = self) \/
  (exists idx x moves,
     own_pieces_list self !! idx = Some x /\ truthy (Z.land x from) = true /\
     self' = set_piece_moved_index (Some idx) self /\
     legal = Z.land moves (Z.lnot (own_bb self))).
Proof.
  unfold find_valid_moves, own_pieces_list, own_bb, list_get.
  destruct (white_to_move self); intros H;
    repeat match type of H with
    | bind (match ?l !! ?i with _ => _ end) _ = _ =>
      let E := fresh "Hl" in destruct (l !! i) eqn:E; cbn [bind] in H; [|discriminate]
    | (if truthy ?c then _ else _) = _ =>
      let E := fresh "Ht" in destruct (truthy c) eqn:E
    | bind ?c _ = _ =>
      let E := fresh "Hg" in destruct c eqn:E; cbn [bind] in H; [|discriminate]
    | Ret _ = Ret _ => injection H as <- <-
    end;
    first [ left; split; reflexivity
          | right; do 3 eexists; repeat split; eassumption ].
Qed.

(** What a successful [execute_move] has done. *)
Lemma execute_move_success depth b move_from move_to b' :
  execute_move depth b move_from move_to = Ret (true, b') ->
  exists f r f' r' idx x legal,
    on_board f r /\ on_board f' r' /\
    convert_to_bitboard (PyStr move_from) = Ret (Some (bit (square f r))) /\
    convert_to_bitboard (PyStr move_to) = Ret (Some (bit (square f' r'))) /\
    own_pieces_list b !! idx = Some x /\
    Z.testbit x (square f r) = true /\
    Z.testbit (own_bb b) (square f' r') = false /\
    find_valid_moves depth (clear_origin b (bit (square f r))) (bit (square f r)) =
      Ret (legal, set_piece_moved_index (Some idx) (clear_origin b (bit (square f r)))) /\
    Z.testbit legal (square f' r') = true /\
    update_bitboards (set_piece_moved_index (Some idx) (clear_origin b (bit (square f r))))
      (bit (square f r)) (bit (square f' r')) = Ret b'.
Proof.
  unfold execute_move. intros H.
  destruct (String.eqb (upper move_from) (upper move_to)); [discriminate|].
  destruct (convert_to_bitboard (PyStr move_from)) as [[from|]|] eqn:Hfrom;
    cbn [bind] in H; try discriminate.
  2:{ destruct (convert_to_bitboard (PyStr move_to)) as [[?|]|]; discriminate. }
  destruct (convert_to_bitboard (PyStr move_to)) as [[to|]|] eqn:Hto;
    cbn [bind] in H; try discriminate.
  apply convert_to_bitboard_some in Hfrom as Hf. destruct Hf as (f & r & Hb & ->).
  apply convert_to_bitboard_some in Hto as Ht. destruct Ht as (f' & r' & Hb' & ->).
  pose proof (square_range f r Hb) as Hsq. pose proof (square_range f' r' Hb') as Hsq'.
  fold (clear_origin b (bit (square f r))) in H.
  destruct (find_valid_moves depth (clear_origin b (bit (square f r))) (bit (square f r)))
    as [[legal self1]|] eqn:Hfind; cbn [bind] in H; [|discriminate].
  destruct (find_valid_moves_inv _ _ _ _ _ Hfind) as [[-> ->] | (idx & x & moves & Hx & Hhit & -> & ->)].
  { rewrite Z.land_0_r in H. change (0 =? 0) with true in H.
    destruct (_piece_moved_index (clear_origin b (bit (square f r)))); discriminate. }
  change (_piece_moved_index (set_piece_moved_index (Some idx) (clear_origin b (bit (square f r)))))
    with (Some idx) in H. cbv iota in H.
  match type of H with (if ?c then _ else _) = _ => destruct c eqn:Hlegal end; [discriminate|].
  destruct (update_bitboards _ _ _) as [b''|] eqn:Hupd; cbn [bind] in H; [|discriminate].
  injection H as <-.
  rewrite truthy_land_bit_r in Hhit by lia.
  apply Z.eqb_neq in Hlegal. rewrite land_bit_l in Hlegal by lia.
  destruct (Z.testbit (Z.land moves (Z.lnot (own_bb (clear_origin b (bit (square f r))))))
              (square f' r')) eqn:Hbit; [|congruence].
  exists f, r, f', r', idx, x, (Z.land moves (Z.lnot (own_bb (clear_origin b (bit (square f r)))))).
  repeat split; try assumption; try apply Hb; try apply Hb'.
  rewrite Z.land_spec, Z.lnot_spec, andb_true_iff, negb_true_iff in Hbit by lia.
  exact (proj2 Hbit).
Qed.

(** ** The recursion depth is enough

    With a depth of eight or more, the ray casters never run out of depth
    from a square of the board, and [execute_move] on a board with six masks
    a side either returns or raises the [ValueError] of [int]. *)

Lemma recc_limit_total d self : forall depth location_bb c,
  (0 < depth)%nat -> c < Z.of_nat depth ->
  exists moves, recc depth self location_bb d (Some c) = Ret moves.
Proof.
  induction depth as [|depth IH]; intros location_bb c Hpos Hc; [lia|].
  rewrite recc_limit. destruct (Z.leb_spec c 0) as [Hle|Hgt]; [eauto|].
  destruct (blocked d self location_bb); [eauto|].
  destruct (IH (shifted d location_bb) (c - 1) ltac:(lia) ltac:(lia)) as (rest & ->).
  cbn [bind]. eauto.
Qed.

Lemma recc_total d self depth f r limit :
  on_board f r -> (8 <= depth)%nat ->
  limit = None \/ limit = Some 1 ->
  exists moves, recc depth self (bit (square f r)) d limit = Ret moves.
Proof.
  intros Hb Hdepth [-> | ->].
  - destruct (recc_spec d self depth f r Hb) as (moves & Hmoves & _); [|eauto].
    unfold on_board, edge_dist in *. destruct d; lia.
  - apply recc_limit_total; lia.
Qed.

Lemma generate_moves_total self depth f r limit dirs :
  on_board f r -> (8 <= depth)%nat ->
  limit = None \/ limit = Some 1 ->
  exists moves,
    generate_moves depth self (bit (square f r)) (map dir_code dirs) limit = Ret moves.
Proof.
  intros Hb Hdepth Hlimit. induction dirs as [|d dirs IH].
  - exists 0. reflexivity.
  - cbn [map]. rewrite generate_moves_cons.
    destruct (recc_total d self depth f r limit Hb Hdepth Hlimit) as (first & ->).
    destruct IH as (others & ->). cbn [bind]. eauto.
Qed.

Lemma generate_moves_pawn_total self depth f r :
  on_board f r -> (8 <= depth)%nat ->
  exists moves, generate_moves_pawn depth self (bit (square f r)) = Ret moves.
Proof.
  intros Hb Hdepth. unfold generate_moves_pawn.
  destruct (white_to_move self).
  - change [8 * 1] with [dir_code N]. change [7 * 1; 9 * 1] with (map dir_code [NW; NE]).
    rewrite generate_moves_single.
    destruct (recc_limit_total N self depth (bit (square f r))
                (if truthy (Z.land (bit (square f r)) 0xff00) then 2 else 1)) as (v & ->).
    { lia. }
    { destruct (truthy _); lia. }
    destruct (generate_moves_total self depth f r (Some 1) [NW; NE] Hb Hdepth) as (dg & ->);
      [now right|].
    cbn [bind]. eauto.
  - change [8 * -1] with [dir_code S]. change [7 * -1; 9 * -1] with (map dir_code [SE; SW]).
    rewrite generate_moves_single.
    destruct (recc_limit_total S self depth (bit (square f r))
                (if truthy (Z.land (bit (square f r)) 0xff000000000000) then 2 else 1))
      as (v & ->).
    { lia. }
    { destruct (truthy _); lia. }
    destruct (generate_moves_total self depth f r (Some 1) [SE; SW] Hb Hdepth) as (dg & ->);
      [now right|].
    cbn [bind]. eauto.
Qed.

Lemma list_get_total (l : list Z) i : (i < length l)%nat -> exists x, list_get l i = Ret x.
Proof.
  intros H. unfold list_get. destruct (lookup_lt_is_Some_2 l i H) as [x ->]. eauto.
Qed.

Lemma find_valid_moves_total depth self f r :
  on_board f r -> (8 <= depth)%nat ->
  length (_white_pieces_list self) = 6%nat ->
  length (_black_pieces_list self) = 6%nat ->
  exists legal self', find_valid_moves depth self (bit (square f r)) = Ret (legal, self').
Proof.
  intros Hb Hdepth Hw Hbl. unfold find_valid_moves.
  assert (Hlen : length (if white_to_move self then _white_pieces_list self
                         else _black_pieces_list self) = 6%nat)
    by (destruct (white_to_move self); assumption).
  destruct (white_to_move self);
    match goal with
    | |- context [list_get ?l 0%nat] =>
      destruct (list_get_total l 0 ltac:(lia)) as (p0 & ->);
      destruct (list_get_total l 1 ltac:(lia)) as (p1 & ->);
      destruct (list_get_total l 2 ltac:(lia)) as (p2 & ->);
      destruct (list_get_total l 3 ltac:(lia)) as (p3 & ->);
      destruct (list_get_total l 4 ltac:(lia)) as (p4 & ->);
      destruct (list_get_total l 5 ltac:(lia)) as (p5 & ->)
    end; cbn [bind];
    (destruct (truthy (Z.land p0 (bit (square f r))));
     [ match goal with |- context [generate_moves_pawn depth ?s _] =>
         destruct (generate_moves_pawn_total s depth f r Hb Hdepth) as (m & ->) end;
       cbn [bind]; eauto |]);
    (destruct (truthy (Z.land p1 (bit (square f r))));
     [ match goal with |- context [generate_moves depth ?s _ _ _] =>
         destruct (generate_moves_total s depth f r None [N; S; E; W] Hb Hdepth
                     ltac:(now left)) as (m & Hm) end;
       cbn [map dir_code] in Hm; rewrite Hm; cbn [bind]; eauto |]);
    (destruct (truthy (Z.land p2 (bit (square f r)))); [eauto|]);
    (destruct (truthy (Z.land p3 (bit (square f r))));
     [ match goal with |- context [generate_moves depth ?s _ _ _] =>
         destruct (generate_moves_total s depth f r None [NW; NE; SE; SW] Hb Hdepth
                     ltac:(now left)) as (m & Hm) end;
       cbn [map dir_code] in Hm; rewrite Hm; cbn [bind]; eauto |]);
    (destruct (truthy (Z.land p4 (bit (square f r))));
     [ match goal with |- context [generate_moves depth ?s _ _ _] =>
         destruct (generate_moves_total s depth f r None [N; S; E; W; NW; NE; SE; SW]
                     Hb Hdepth ltac:(now left)) as (m & Hm) end;
       cbn [map dir_code] in Hm; rewrite Hm; cbn [bind]; eauto |]);
    (destruct (truthy (Z.land p5 (bit (square f r))));
     [ match goal with |- context [generate_moves depth ?s _ _ _] =>
         destruct (generate_moves_total s depth f r (Some 1) [N; S; E; W; NW; NE; SE; SW]
                     Hb Hdepth ltac:(now right)) as (m & Hm) end;
       cbn [map dir_code] in Hm; rewrite Hm; cbn [bind]; eauto |]);
    eauto.
Qed.

Lemma convert_to_bitboard_result v :
  (exists o, convert_to_bitboard v = Ret o) \/ convert_to_bitboard v = Raise ValueError.
Proof.
  destruct v as [s| |]; simpl; eauto.
  destruct s as [|c0 [|c1 [|c2 s]]]; eauto.
  unfold int_of_char. destruct ((48 <=? ord c1) && (ord c1 <=? 57)); cbn [bind]; [|now right].
  left. destruct (_ || _); [eauto|]. destruct (_ || _); eauto.
Qed.

(** [execute_move] returns, or raises the [ValueError] of a malformed label. *)
Lemma execute_move_returns depth b move_from move_to :
  (8 <= depth)%nat ->
  length (_white_pieces_list b) = 6%nat ->
  length (_black_pieces_list b) = 6%nat ->
  (exists ok b', execute_move depth b move_from move_to = Ret (ok, b')) \/
  execute_move depth b move_from move_to = Raise ValueError.
Proof.
  intros Hdepth Hw Hbl. unfold execute_move.
  destruct (String.eqb (upper move_from) (upper move_to)); [eauto|].
  destruct (convert_to_bitboard_result (PyStr move_from)) as [(o1 & Hfrom) | Hfrom];
    rewrite Hfrom; cbn [bind]; [|now right].
  destruct (convert_to_bitboard_result (PyStr move_to)) as [(o2 & Hto) | Hto];
    rewrite Hto; cbn [bind]; [|now right].
  left. destruct o1 as [from|]; [|eauto]. destruct o2 as [to|]; [|eauto].
  apply convert_to_bitboard_some in Hfrom. destruct Hfrom as (f & r & Hb & ->).
  fold (clear_origin b (bit (square f r))).
  destruct (find_valid_moves_total depth (clear_origin b (bit (square f r))) f r Hb Hdepth Hw Hbl)
    as (legal & self1 & Hfind).
  rewrite Hfind. cbn [bind].
  destruct (find_valid_moves_inv _ _ _ _ _ Hfind) as [[-> ->] | (idx & x & moves & Hx & _ & -> & _)].
  - rewrite Z.land_0_r. change (0 =? 0) with true. cbv iota.
    destruct (_piece_moved_index (clear_origin b (bit (square f r)))); eauto.
  - change (_piece_moved_index (set_piece_moved_index (Some idx) (clear_origin b (bit (square f r)))))
      with (Some idx). cbv iota.
    destruct (Z.land to legal =? 0); [eauto|].
    destruct (update_bitboards_spec
                (set_piece_moved_index (Some idx) (clear_origin b (bit (square f r))))
                (bit (square f r)) to idx x eq_refl Hx) as (b2 & -> & _).
    cbn [bind]. eauto.
Qed.

(** ** Consistency is invariant *)

Lemma consistent_pieces b : consistent b -> pieces_consistent b.
Proof. intros [H1 H2 H3 H4 H5 H6 H7 H8]. constructor; assumption. Qed.

Lemma consistent_intro b :
  pieces_consistent b ->
  _all_pieces_bb b = Z.lor (_all_white_pieces_bb b) (_all_black_pieces_bb b) ->
  consistent b.
Proof. intros [H1 H2 H3 H4 H5 H6 H7] H8. constructor; assumption. Qed.

Lemma pieces_sides_iff b : pieces_consistent b <-> pieces_sides b.
Proof.
  unfold pieces_sides, own_pieces_list, opponents_pieces_list, own_bb, opponent_bb.
  split.
  - intros [H1 H2 H3 H4 H5 H6 H7].
    destruct (white_to_move b); repeat split; try assumption.
    now rewrite Z.land_comm.
  - destruct (white_to_move b); intros (H1 & H2 & H3 & H4 & H5 & H6 & H7);
      constructor; try assumption.
    now rewrite Z.land_comm.
Qed.

Lemma all_pieces_sides b :
  _all_pieces_bb b = Z.lor (_all_white_pieces_bb b) (_all_black_pieces_bb b) <->
  _all_pieces_bb b = Z.lor (own_bb b) (opponent_bb b).
Proof.
  unfold own_bb, opponent_bb. destruct (white_to_move b); [reflexivity|].
  now rewrite Z.lor_comm.
Qed.

Lemma consistent_setup_new_board : consistent setup_new_board.
Proof.
  constructor; try reflexivity.
  - repeat (apply pairwise_disjoint_cons; split; [repeat constructor|]).
    apply pairwise_disjoint_nil.
  - repeat (apply pairwise_disjoint_cons; split; [repeat constructor|]).
    apply pairwise_disjoint_nil.
Qed.

Lemma consistent_set_next_turn b : consistent b -> consistent (set_next_turn b).
Proof.
  intros [H1 H2 H3 H4 H5 H6 H7 H8].
  unfold set_next_turn. destruct (white_to_move b); constructor; assumption.
Qed.

Lemma union_bb_lookup_subset l idx x :
  l !! idx = Some x -> Z.land x (union_bb l) = x.
Proof.
  revert idx. induction l as [|y l IH]; intros idx H; [discriminate|].
  destruct idx as [|idx]; simpl in *.
  - injection H as ->. bitblast.
  - pose proof (IH idx H) as IH'. clear IH H. bitblast.
Qed.

Lemma land_subset_trans m x u : Z.land m x = m -> Z.land x u = x -> Z.land m u = m.
Proof. intros H1 H2. bitblast. Qed.

(** The board after a successful move of the piece on bit [i], found in the
    mover's mask number [idx], to bit [j]. *)
Lemma moved_board_sides b i j idx x b' :
  0 <= i -> 0 <= j ->
  pieces_sides b ->
  own_pieces_list b !! idx = Some x ->
  Z.testbit x i = true ->
  Z.testbit (own_bb b) j = false ->
  update_bitboards (set_piece_moved_index (Some idx) (clear_origin b (bit i)))
    (bit i) (bit j) = Ret b' ->
  _current_turn b' = _current_turn b /\
  own_pieces_list b' = <[idx := Z.lor (Z.land x (Z.lnot (bit i))) (bit j)]> (own_pieces_list b) /\
  opponents_pieces_list b' = map (clear_bits (bit j)) (opponents_pieces_list b) /\
  own_bb b' = Z.lor (Z.land (own_bb b) (Z.lnot (bit i))) (bit j) /\
  opponent_bb b' = clear_bits (bit j) (opponent_bb b) /\
  _all_pieces_bb b' = Z.lor (Z.land (_all_pieces_bb b) (Z.lnot (bit i))) (bit j) /\
  _piece_moved_index b' = Some idx /\
  _piece_captured_index b' =
    (if Z.testbit (opponent_bb b) j
     then last_hit (bit j) 0 (opponents_pieces_list b) (_piece_captured_index b)
     else _piece_captured_index b).
Proof.
  intros Hi Hj (S1 & S2 & S3 & S4 & S5 & S6 & S8) Hx Hxi Hown Hupd.
  destruct (update_bitboards_spec
              (set_piece_moved_index (Some idx) (clear_origin b (bit i)))
              (bit i) (bit j) idx x eq_refl Hx)
    as (b2 & Hb2 & U1 & U2 & U3 & U4 & U5 & U6 & U7 & U8).
  rewrite Hupd in Hb2. injection Hb2 as <-.
  assert (Hturn : white_to_move b' = white_to_move b).
  { unfold white_to_move. now rewrite U7. }
  change (own_pieces_list (set_piece_moved_index (Some idx) (clear_origin b (bit i))))
    with (own_pieces_list b) in *.
  change (own_bb (set_piece_moved_index (Some idx) (clear_origin b (bit i))))
    with (own_bb b) in *.
  change (opponents_pieces_list (set_piece_moved_index (Some idx) (clear_origin b (bit i))))
    with (opponents_pieces_list b) in *.
  change (opponent_bb (set_piece_moved_index (Some idx) (clear_origin b (bit i))))
    with (opponent_bb b) in *.
  change (_piece_captured_index (set_piece_moved_index (Some idx) (clear_origin b (bit i))))
    with (_piece_captured_index b) in *.
  change (_current_turn (set_piece_moved_index (Some idx) (clear_origin b (bit i))))
    with (_current_turn b) in *.
  change (_all_pieces_bb (set_piece_moved_index (Some idx) (clear_origin b (bit i))))
    with (Z.land (_all_pieces_bb b) (Z.lnot (bit i))) in *.
  rewrite truthy_land_bit_l in U4, U5, U6 by assumption.
  repeat split; try assumption.
  - rewrite U4. destruct (Z.testbit (opponent_bb b) j) eqn:Hopp; [reflexivity|].
    symmetry. apply map_clear_disjoint. rewrite <- S6. now apply land_bit_disjoint.
  - rewrite U5. destruct (Z.testbit (opponent_bb b) j) eqn:Hopp; cbn [andb].
    + destruct (existsb _ _) eqn:Hex; [reflexivity|].
      exfalso.
      assert (Hnone : Forall (fun y => Z.land (bit j) y = 0) (opponents_pieces_list b)).
      { apply Forall_lookup. intros k y Hk. apply truthy_false.
        destruct (truthy (Z.land (bit j) y)) eqn:Hy; [|reflexivity].
        rewrite <- Hex. symmetry. apply existsb_exists. exists y. split; [|exact Hy].
        apply list_elem_of_In, list_elem_of_lookup. eauto. }
      apply land_union_bb in Hnone. rewrite <- S6 in Hnone.
      apply land_bit_disjoint in Hnone; [congruence | assumption].
    + symmetry. apply clear_bits_disjoint. now apply land_bit_disjoint.
  - rewrite U3. bitblast.
Qed.

Lemma pieces_consistent_move depth b move_from move_to b' :
  pieces_consistent b ->
  execute_move depth b move_from move_to = Ret (true, b') ->
  pieces_consistent b'.
Proof.
  intros Hcons Hmove.
  destruct (execute_move_success _ _ _ _ _ Hmove)
    as (f & r & f' & r' & idx & x & legal & Hb & Hb' & _ & _ & Hx & Hxi & Hown & _ & _ & Hupd).
  pose proof (square_range f r Hb) as Hsq. pose proof (square_range f' r' Hb') as Hsq'.
  apply pieces_sides_iff in Hcons. apply pieces_sides_iff.
  destruct (moved_board_sides b (square f r) (square f' r') idx x b' ltac:(lia) ltac:(lia) Hcons Hx Hxi Hown Hupd)
    as (M1 & M2 & M3 & M4 & M5 & M6 & M7 & M8).
  destruct Hcons as (S1 & S2 & S3 & S4 & S5 & S6 & S8).
  assert (Hfrom : Z.land (bit (square f r)) x = bit (square f r))
    by (apply land_bit_subset; [lia | assumption]).
  assert (Hto : Z.land (bit (square f' r')) (union_bb (own_pieces_list b)) = 0)
    by (rewrite <- S5; apply land_bit_disjoint; [lia | assumption]).
  unfold pieces_sides. rewrite M2, M3, M4, M5.
  repeat split.
  - now rewrite length_insert.
  - now rewrite length_map.
  - now apply pairwise_disjoint_move.
  - now apply pairwise_disjoint_clear.
  - rewrite union_bb_move by assumption. now rewrite S5.
  - rewrite union_bb_clear. now rewrite S6.
  - unfold clear_bits. clear Hfrom Hto S5 S6. bitblast.
Qed.

Lemma consistent_move depth b move_from move_to b' :
  consistent b ->
  execute_move depth b move_from move_to = Ret (true, b') ->
  consistent b'.
Proof.
  intros Hcons Hmove.
  pose proof (consistent_pieces b Hcons) as Hpieces.
  apply consistent_intro; [eapply pieces_consistent_move; eauto|].
  destruct (execute_move_success _ _ _ _ _ Hmove)
    as (f & r & f' & r' & idx & x & legal & Hb & Hb' & _ & _ & Hx & Hxi & Hown & _ & _ & Hupd).
  pose proof (square_range f r Hb) as Hsq. pose proof (square_range f' r' Hb') as Hsq'.
  apply pieces_sides_iff in Hpieces. apply all_pieces_sides.
  destruct (moved_board_sides b (square f r) (square f' r') idx x b' ltac:(lia) ltac:(lia) Hpieces Hx Hxi Hown Hupd)
    as (M1 & M2 & M3 & M4 & M5 & M6 & M7 & M8).
  destruct Hpieces as (S1 & S2 & S3 & S4 & S5 & S6 & S8).
  pose proof (proj1 (all_pieces_sides b) (all_union b Hcons)) as Hall.
  assert (Hfrom : Z.land (bit (square f r)) (own_bb b) = bit (square f r)).
  { rewrite S5. apply (land_subset_trans _ x).
    - apply land_bit_subset; [lia | assumption].
    - eapply union_bb_lookup_subset; eauto. }
  rewrite M4, M5, M6. unfold clear_bits. clear S5 S6 Hx Hxi. bitblast.
Qed.

Lemma reachable_invariant b : reachable b -> consistent b.
Proof.
  induction 1 as [|depth b mf mt b' _ IH Hmove|b _ IH].
  - exact consistent_setup_new_board.
  - exact (consistent_move depth b mf mt b' IH Hmove).
  - exact (consistent_set_next_turn b IH).
Qed.

Lemma reachable_play depth moves : forall b b',
  reachable b -> play depth b moves = Some b' -> reachable b'.
Proof.
  induction moves as [|[mf mt] moves IH]; intros b b' Hb Hplay; simpl in Hplay.
  - injection Hplay as <-. exact Hb.
  - destruct (execute_move depth b mf mt) as [[[|] b1]|] eqn:Hmove; try discriminate.
    apply (IH (set_next_turn b1)); [|exact Hplay].
    apply reachable_turn. eapply reachable_move; eauto.
Qed.

(** C4: on every board reached from the initial position by successful
    calls of [execute_move] and calls of [set_next_turn], each side has six
    piece masks that are pairwise disjoint, the all-white (all-black) mask is
    the union of White's (Black's) six masks, the all-pieces mask is the union
    of the two side masks, and the two side masks are disjoint. *)
Theorem reachable_consistent (b : Board) :
  reachable b ->
  length (_white_pieces_list b) = 6%nat /\
  length (_black_pieces_list b) = 6%nat /\
  pairwise_disjoint (_white_pieces_list b) /\
  pairwise_disjoint (_black_pieces_list b) /\
  _all_white_pieces_bb b = union_bb (_white_pieces_list b) /\
  _all_black_pieces_bb b = union_bb (_black_pieces_list b) /\
  _all_pieces_bb b = Z.lor (_all_white_pieces_bb b) (_all_black_pieces_bb b) /\
  Z.land (_all_white_pieces_bb b) (_all_black_pieces_bb b) = 0.
Proof.
  intros Hreach. destruct (reachable_invariant b Hreach) as [H1 H2 H3 H4 H5 H6 H7 H8].
  repeat split; assumption.
Qed.

Lemma reachable_a_file_position : reachable a_file_position.
Proof.
  apply (reachable_play 8 open_a_file setup_new_board); [apply reachable_init|].
  vm_compute. reflexivity.
Qed.

Lemma reachable_consistent_witness :
  reachable a_file_position /\
  _all_pieces_bb a_file_position =
    Z.lor (_all_white_pieces_bb a_file_position) (_all_black_pieces_bb a_file_position).
Proof.
  split; [exact reachable_a_file_position|].
  exact (proj1 (proj2 (proj2 (proj2 (proj2 (proj2 (proj2
           (reachable_consistent a_file_position reachable_a_file_position)))))))).
Defined.
Lemma on_boardb_square_range f r : on_boardb f r = true -> 0 <= square f r < 64.
Proof. intros H. now apply square_range, on_boardb_spec. Qed.

Lemma testbit_clear_origin b i j :
  0 <= i ->
  Z.testbit (_all_pieces_bb (clear_origin b (bit i))) j =
  Z.testbit (_all_pieces_bb b) j && negb (i =? j).
Proof.
  intros Hi. unfold clear_origin. simpl.
  destruct (Z.neg_nonneg_cases j) as [Hj|Hj].
  - now rewrite !Z.testbit_neg_r by assumption.
  - now rewrite Z.land_spec, Z.lnot_spec, testbit_bit by assumption.
Qed.

Lemma find_valid_moves_pawn depth b f r pawns :
  on_board f r ->
  own_pieces_list b !! 0%nat = Some pawns ->
  Z.testbit pawns (square f r) = true ->
  find_valid_moves depth (clear_origin b (bit (square f r))) (bit (square f r)) =
  let self := set_piece_moved_index (Some 0%nat) (clear_origin b (bit (square f r))) in
  let* moves := generate_moves_pawn depth self (bit (square f r)) in
  Ret (Z.land moves (Z.lnot (own_bb b)), self).
Proof.
  intros Hb Hown Hpawn. pose proof (square_range f r Hb) as Hsq.
  unfold find_valid_moves, own_pieces_list, own_bb in *.
  change (white_to_move (clear_origin b (bit (square f r)))) with (white_to_move b).
  destruct (white_to_move b); simpl in *; unfold list_get; rewrite Hown; simpl;
    rewrite truthy_land_bit_r, Hpawn by lia; reflexivity.
Qed.

(** Where the all-pieces mask is the union of the two side masks, the legal
    destinations of a pawn are exactly those of the pawn rules. *)
Lemma pawn_moves_spec depth b f r pawns :
  (8 <= depth)%nat -> consistent b -> on_board f r ->
  own_pieces_list b !! 0%nat = Some pawns ->
  Z.testbit pawns (square f r) = true ->
  exists moves self',
    find_valid_moves depth (clear_origin b (bit (square f r))) (bit (square f r))
      = Ret (moves, self') /\
    (forall j, Z.testbit moves j = true -> 0 <= j < 64) /\
    (forall f' r', on_board f' r' ->
       (Z.testbit moves (square f' r') = true <-> pawn_dest b f r f' r')).
Proof.
  intros Hdepth Hcons Hb Hown Hpawn. pose proof (square_range f r Hb) as Hsq.
  rewrite (find_valid_moves_pawn depth b f r pawns Hb Hown Hpawn). cbv zeta.
  replace depth with (3 + (depth - 3))%nat by lia.
  rewrite generate_moves_pawn_value; [|assumption|].
  2:{ change (_all_pieces_bb (set_piece_moved_index (Some 0%nat) (clear_origin b (bit (square f r)))))
        with (_all_pieces_bb (clear_origin b (bit (square f r)))).
      rewrite testbit_clear_origin, Z.eqb_refl by lia. apply andb_false_r. }
  cbn [bind]. eexists. eexists. split; [reflexivity|].
  split.
  { intros j Hj.
    destruct (Z.neg_nonneg_cases j) as [Hneg|Hnn];
      [rewrite Z.testbit_neg_r in Hj by assumption; discriminate|].
    revert Hj.
    change (white_to_move (set_piece_moved_index (Some 0%nat) (clear_origin b (bit (square f r)))))
        with (white_to_move b).
    rewrite !Z.land_spec, !Z.lor_spec, !Z.land_spec, !Z.lor_spec, !Z.lnot_spec by lia.
    rewrite !testbit_opt_bit
      by (intros Hc;
          repeat match goal with
                 | H : andb _ _ = true |- _ => apply andb_prop in H; destruct H
                 | H : on_boardb _ _ = true |- _ => apply on_boardb_square_range in H
                 end; lia).
    generalize (Z.testbit (own_bb b) j).
    repeat match goal with |- context [Z.testbit ?v ?m] => generalize (Z.testbit v m) end.
    unfold on_boardb, square, start_rank in *. clear Hown Hpawn Hcons.
    destruct (white_to_move b); cbn [pawn_forward_dir pawn_diagonal_dirs fst snd dfile drank];
      intros; lia. }
  intros f' r' Hb'. pose proof (square_range f' r' Hb') as Hsq'.
  change (_all_pieces_bb (set_piece_moved_index (Some 0%nat) (clear_origin b (bit (square f r)))))
        with (_all_pieces_bb (clear_origin b (bit (square f r)))).
  change (white_to_move (set_piece_moved_index (Some 0%nat) (clear_origin b (bit (square f r)))))
        with (white_to_move b).
  change (start_rank (set_piece_moved_index (Some 0%nat) (clear_origin b (bit (square f r)))))
        with (start_rank b).
  rewrite !Z.land_spec, !Z.lor_spec, !Z.land_spec, !Z.lor_spec, !Z.lnot_spec by lia.
  rewrite !testbit_opt_bit
    by (intros Hc;
        repeat match goal with
               | H : andb _ _ = true |- _ => apply andb_prop in H; destruct H
               | H : on_boardb _ _ = true |- _ => apply on_boardb_square_range in H
               end; lia).
  rewrite !testbit_clear_origin by lia.
  unfold pawn_dest, occupied, opponent_at, opponent_bb, own_bb, forward, start_rank.
  destruct Hcons as [_ _ _ _ _ _ Hall Hsides].
  assert (Hall' : forall j, Z.testbit (_all_pieces_bb b) j =
            Z.testbit (_all_white_pieces_bb b) j || Z.testbit (_all_black_pieces_bb b) j).
  { intros j. now rewrite Hall, Z.lor_spec. }
  assert (Hsides' : Z.testbit (_all_white_pieces_bb b) (square f' r') &&
                    Z.testbit (_all_black_pieces_bb b) (square f' r') = false).
  { now rewrite <- Z.land_spec, Hsides, Z.bits_0. }
  rewrite !Hall'. clear Hall' Hall Hsides Hown Hpawn.
  unfold on_boardb.
  destruct (white_to_move b); cbn [pawn_forward_dir pawn_diagonal_dirs fst snd dfile drank].
  - generalize dependent (Z.testbit (_all_white_pieces_bb b) (square f' r')).
    generalize (Z.testbit (_all_black_pieces_bb b) (square f' r')).
    generalize (Z.testbit (_all_white_pieces_bb b) (square f (r + 1))).
    generalize (Z.testbit (_all_black_pieces_bb b) (square f (r + 1))).
    unfold on_board, square in *.
    intros [] [] [] []; cbn [andb orb negb]; intros; try discriminate; lia.
  - generalize dependent (Z.testbit (_all_white_pieces_bb b) (square f' r')).
    generalize (Z.testbit (_all_black_pieces_bb b) (square f' r')).
    generalize (Z.testbit (_all_white_pieces_bb b) (square f (r + -1))).
    generalize (Z.testbit (_all_black_pieces_bb b) (square f (r + -1))).
    unfold on_board, square in *.
    intros [] [] [] []; cbn [andb orb negb]; intros; try discriminate; lia.
Qed.

(** C3: on a board the program reaches, a pawn gets a diagonal destination
    that holds no opposing piece.  From the initial position the rejected move
    D3-D4 marks the empty square D3 in the all-pieces mask (the defect of C5).
    The White pawn on E2 then has D3 among its legal destinations, although
    no piece of either side stands there and the pawn rules do not allow it,
    and the move E2-D3 is accepted: the pawn stands on D3, nothing was
    captured, and Black has lost nothing.  Through [make_move] the same two
    calls record the previous move White, Pawn, E2, D3 with no capture. *)
Theorem pawn_diagonal_without_capture :
  execute_move 8 setup_new_board "D3" "D4" = Ret (false, after_rejected_d3) /\
  white_to_move after_rejected_d3 = true /\
  _white_pieces_list after_rejected_d3 = _white_pieces_list setup_new_board /\
  _black_pieces_list after_rejected_d3 = _black_pieces_list setup_new_board /\
  own_pieces_list after_rejected_d3 !! 0%nat = Some 0xff00 /\
  Z.testbit 0xff00 (square 4 1) = true /\
  Z.testbit (_all_white_pieces_bb after_rejected_d3) (square 3 2) = false /\
  opponent_at after_rejected_d3 3 2 = false /\
  ~ pawn_dest after_rejected_d3 4 1 3 2 /\
  (exists moves self',
     find_valid_moves 8 (clear_origin after_rejected_d3 (bit (square 4 1))) (bit (square 4 1))
       = Ret (moves, self') /\
     Z.testbit moves (square 3 2) = true) /\
  execute_move 8 after_rejected_d3 "E2" "D3" = Ret (true, pawn_on_d3) /\
  _white_pieces_list pawn_on_d3 !! 0%nat = Some (Z.lor (Z.land 0xff00 (Z.lnot (bit (square 4 1)))) (bit (square 3 2))) /\
  _black_pieces_list pawn_on_d3 = _black_pieces_list setup_new_board /\
  _piece_captured_index pawn_on_d3 = None /\
  make_move 8 new_game "D3" "D4" = Ret (false, game_after_rejected_d3) /\
  make_move 8 game_after_rejected_d3 "E2" "D3" = Ret (true, game_pawn_on_d3) /\
  _previous_move game_pawn_on_d3 = Some ("White", "Pawn", "E2", "D3", None).
Proof.
  split; [vm_compute; reflexivity|]. split; [vm_compute; reflexivity|].
  split; [vm_compute; reflexivity|]. split; [vm_compute; reflexivity|].
  split; [vm_compute; reflexivity|]. split; [vm_compute; reflexivity|].
  split; [vm_compute; reflexivity|]. split; [vm_compute; reflexivity|].
  split.
  { unfold pawn_dest. intros [(Hf & _) | [(Hf & _) | (_ & _ & Hopp)]].
    - discriminate Hf.
    - discriminate Hf.
    - vm_compute in Hopp. discriminate Hopp. }
  split.
  { eexists _, _. split; vm_compute; reflexivity. }
  split; [vm_compute; reflexivity|]. split; [vm_compute; reflexivity|].
  split; [vm_compute; reflexivity|]. split; [vm_compute; reflexivity|].
  split; [vm_compute; reflexivity|]. split; [vm_compute; reflexivity|].
  vm_compute. reflexivity.
Qed.

(** ** Captures *)

Lemma captured_mask_unique l j k k' y y' :
  0 <= j -> pairwise_disjoint l ->
  l !! k = Some y -> Z.testbit y j = true ->
  l !! k' = Some y' -> Z.testbit y' j = true -> k' = k.
Proof.
  intros Hj Hl Hk Hy Hk' Hy'.
  destruct (Nat.eq_dec k' k) as [|Hne]; [assumption|exfalso].
  pose proof (Hl k' k y' y Hne Hk' Hk) as Hd.
  apply (f_equal (fun z => Z.testbit z j)) in Hd.
  rewrite Z.land_spec, Hy, Hy', Z.bits_0 in Hd. discriminate.
Qed.

Lemma map_clear_single l j k y :
  0 <= j -> l !! k = Some y ->
  (forall k' y', l !! k' = Some y' -> Z.testbit y' j = true -> k' = k) ->
  map (clear_bits (bit j)) l = <[k := Z.land y (Z.lnot (bit j))]> l.
Proof.
  intros Hj Hk Huniq. apply list_eq. intros i.
  change (map (clear_bits (bit j)) l) with (clear_bits (bit j) <$> l).
  rewrite list_lookup_fmap.
  destruct (Nat.eq_dec k i) as [<-|Hne].
  - rewrite list_lookup_insert_eq by (eapply lookup_lt_Some; eauto). now rewrite Hk.
  - rewrite list_lookup_insert_ne by assumption.
    destruct (l !! i) as [y'|] eqn:Hi; [|reflexivity]. simpl. f_equal.
    apply clear_bits_disjoint, land_bit_disjoint; [assumption|].
    destruct (Z.testbit y' j) eqn:E; [|reflexivity].
    exfalso. apply Hne. symmetry. eapply Huniq; eauto.
Qed.

(** C6: when a successful [execute_move] lands on a square holding an
    opposing piece, exactly one opposing piece mask contains the destination
    bit; the update clears the bit from that mask and from the opponent's
    aggregate mask and stores the index of that kind as the captured piece.
    When the destination holds no opposing piece, the update stores no
    capture: the captured-piece field and the opponent's masks are as before,
    and [get_piece_captured] returns [None] if the field was empty.
    After the eight moves of [open_a_file], the White rook moves from A1 to
    A8, the captured kind is Rook, and Black's rook mask no longer contains
    A8. *)
Theorem capture_bookkeeping (depth : nat) (b b' : Board) (move_from move_to : string)
    (f' r' : Z) :
  pieces_consistent b ->
  execute_move depth b move_from move_to = Ret (true, b') ->
  on_board f' r' ->
  convert_to_bitboard (PyStr move_to) = Ret (Some (bit (square f' r'))) ->
  _current_turn b' = _current_turn b /\
  (opponent_at b f' r' = true ->
     exists k y,
       opponents_pieces_list b !! k = Some y /\
       Z.testbit y (square f' r') = true /\
       (forall k' y', opponents_pieces_list b !! k' = Some y' ->
          Z.testbit y' (square f' r') = true -> k' = k) /\
       opponents_pieces_list b' =
         <[k := Z.land y (Z.lnot (bit (square f' r')))]> (opponents_pieces_list b) /\
       opponent_bb b' = Z.land (opponent_bb b) (Z.lnot (bit (square f' r'))) /\
       _piece_captured_index b' = Some k) /\
  (opponent_at b f' r' = false ->
     _piece_captured_index b' = _piece_captured_index b /\
     (_piece_captured_index b = None -> get_piece_captured b' = Ret (None, b')) /\
     opponents_pieces_list b' = opponents_pieces_list b /\
     opponent_bb b' = opponent_bb b) /\
  (play 8 setup_new_board open_a_file = Some a_file_position /\
   reachable a_file_position /\
   _black_pieces_list a_file_position !! 1%nat
     = Some (Z.lor (bit (square 0 7)) (bit (square 7 7))) /\
   execute_move 8 a_file_position "A1" "A8" = Ret (true, rook_takes_rook) /\
   get_piece_captured rook_takes_rook
     = Ret (Some "Rook", set_piece_captured_index None rook_takes_rook) /\
   _black_pieces_list rook_takes_rook !! 1%nat = Some (bit (square 7 7)) /\
   Z.testbit (bit (square 7 7)) (square 0 7) = false).
Proof.
  intros Hcons Hmove Hb' Hto.
  destruct (execute_move_success _ _ _ _ _ Hmove)
    as (f & r & f2 & r2 & idx & x & legal & Hb & Hb2 & _ & Hto2 & Hx & Hxi & Hown & _ & _ & Hupd).
  pose proof (square_range f r Hb) as Hsq. pose proof (square_range f' r' Hb') as Hsq'.
  pose proof (square_range f2 r2 Hb2) as Hsq2.
  assert (Hsame : square f2 r2 = square f' r').
  { rewrite Hto in Hto2. injection Hto2 as E.
    apply (f_equal (fun z => Z.testbit z (square f' r'))) in E.
    rewrite !testbit_bit, Z.eqb_refl in E by lia. symmetry in E. apply Z.eqb_eq in E. exact E. }
  rewrite Hsame in *. clear Hsame Hto2.
  apply pieces_sides_iff in Hcons.
  destruct (moved_board_sides b (square f r) (square f' r') idx x b'
              ltac:(lia) ltac:(lia) Hcons Hx Hxi Hown Hupd)
    as (M1 & M2 & M3 & M4 & M5 & M6 & M7 & M8).
  destruct Hcons as (S1 & S2 & S3 & S4 & S5 & S6 & S8).
  unfold opponent_at. split; [exact M1|]. split; [|split].
  - intros Hopp. rewrite Hopp in M8.
    pose proof Hopp as Hin. rewrite S6 in Hin. apply testbit_union_bb in Hin.
    destruct Hin as (k & y & Hk & Hy).
    assert (Huniq : forall k' y', opponents_pieces_list b !! k' = Some y' ->
              Z.testbit y' (square f' r') = true -> k' = k).
    { intros k' y' Hk' Hy'. eapply (captured_mask_unique _ (square f' r')); eauto. lia. }
    exists k, y. repeat split; try assumption.
    + rewrite M3. apply map_clear_single; [lia | assumption | assumption].
    + rewrite M8. rewrite (last_hit_unique _ _ 0%nat _ k y Hk); [reflexivity | |].
      * rewrite land_bit_l, Hy by lia. apply bit_nonzero. lia.
      * intros k' y' Hne Hk'. apply land_bit_disjoint; [lia|].
        destruct (Z.testbit y' (square f' r')) eqn:E; [|reflexivity].
        exfalso. apply Hne. eapply Huniq; eauto.
  - intros Hopp. rewrite Hopp in M8.
    assert (Hd : Z.land (bit (square f' r')) (opponent_bb b) = 0)
      by (apply land_bit_disjoint; [lia | assumption]).
    split; [exact M8|]. split; [|split].
    + intros Hnone. unfold get_piece_captured. now rewrite M8, Hnone.
    + rewrite M3. apply map_clear_disjoint. now rewrite <- S6.
    + rewrite M5. now apply clear_bits_disjoint.
  - split; [vm_compute; reflexivity|].
    split; [exact reachable_a_file_position|].
    split; [vm_compute; reflexivity|].
    split; [vm_compute; reflexivity|].
    split; [vm_compute; reflexivity|].
    split; vm_compute; reflexivity.
Qed.

Lemma capture_bookkeeping_witness :
  pieces_consistent a_file_position /\
  execute_move 8 a_file_position "A1" "A8" = Ret (true, rook_takes_rook) /\
  on_board 0 7 /\
  convert_to_bitboard (PyStr "A8") = Ret (Some (bit (square 0 7))) /\
  (opponent_at a_file_position 0 7 = true ->
   exists k y,
     opponents_pieces_list a_file_position !! k = Some y /\
     Z.testbit y (square 0 7) = true /\
     (forall k' y', opponents_pieces_list a_file_position !! k' = Some y' ->
        Z.testbit y' (square 0 7) = true -> k' = k) /\
     opponents_pieces_list rook_takes_rook =
       <[k := Z.land y (Z.lnot (bit (square 0 7)))]> (opponents_pieces_list a_file_position) /\
     opponent_bb rook_takes_rook = Z.land (opponent_bb a_file_position) (Z.lnot (bit (square 0 7))) /\
     _piece_captured_index rook_takes_rook = Some k).
Proof.
  assert (Hcons : pieces_consistent a_file_position)
    by exact (consistent_pieces _ (reachable_invariant _ reachable_a_file_position)).
  assert (Hmove : execute_move 8 a_file_position "A1" "A8" = Ret (true, rook_takes_rook))
    by (vm_compute; reflexivity).
  assert (Hb : on_board 0 7) by (unfold on_board; lia).
  assert (Hto : convert_to_bitboard (PyStr "A8") = Ret (Some (bit (square 0 7))))
    by (vm_compute; reflexivity).
  split; [exact Hcons|]. split; [exact Hmove|]. split; [exact Hb|]. split; [exact Hto|].
  exact (proj1 (proj2 (capture_bookkeeping 8 a_file_position rook_takes_rook "A1" "A8" 0 7
                         Hcons Hmove Hb Hto))).
Defined.


(** ** The captured-piece field after a quiet move *)

Lemma bit_inj i j : 0 <= i -> 0 <= j -> bit i = bit j -> i = j.
Proof.
  intros Hi Hj E. apply (f_equal (fun z => Z.testbit z j)) in E.
  rewrite !testbit_bit, Z.eqb_refl in E by assumption. now apply Z.eqb_eq.
Qed.

(** C10: a successful [execute_move] whose destination holds no opposing
    piece leaves [_piece_captured_index] as it was; so if an earlier capture
    was never read, [get_piece_captured] after the later quiet move returns
    the kind captured earlier.  After White's pawn takes on B5 and Black
    replies H7-H6, [get_piece_captured] returns "Pawn". *)
Theorem captured_index_kept (depth : nat) (b b' : Board) (move_from move_to : string)
    (f' r' : Z) :
  execute_move depth b move_from move_to = Ret (true, b') ->
  on_board f' r' ->
  convert_to_bitboard (PyStr move_to) = Ret (Some (bit (square f' r'))) ->
  opponent_at b f' r' = false ->
  _piece_captured_index b' = _piece_captured_index b /\
  (forall k name,
     _piece_captured_index b = Some k -> _piece_names !! k = Some name ->
     get_piece_captured b' = Ret (Some name, set_piece_captured_index None b')) /\
  (_piece_captured_index pawn_taken_position = Some 0%nat /\
   opponent_at pawn_taken_position 7 5 = false /\
   execute_move 8 pawn_taken_position "H7" "H6" = Ret (true, quiet_reply) /\
   get_piece_captured quiet_reply
     = Ret (Some "Pawn", set_piece_captured_index None quiet_reply)).
Proof.
  intros Hmove Hb' Hto Hopp.
  destruct (execute_move_success _ _ _ _ _ Hmove)
    as (f & r & f2 & r2 & idx & x & legal & Hb & Hb2 & _ & Hto2 & Hx & Hxi & Hown & _ & _ & Hupd).
  pose proof (square_range f' r' Hb') as Hsq'. pose proof (square_range f2 r2 Hb2) as Hsq2.
  rewrite Hto in Hto2. injection Hto2 as E. apply bit_inj in E; [|lia|lia].
  rewrite <- E in Hupd. clear E Hsq2 Hb2.
  destruct (update_bitboards_spec
              (set_piece_moved_index (Some idx) (clear_origin b (bit (square f r))))
              (bit (square f r)) (bit (square f' r')) idx x eq_refl Hx)
    as (b2 & Hb2 & _ & _ & _ & _ & _ & U6 & _ & _).
  rewrite Hupd in Hb2. injection Hb2 as <-.
  change (opponent_bb (set_piece_moved_index (Some idx) (clear_origin b (bit (square f r)))))
    with (opponent_bb b) in U6.
  change (_piece_captured_index (set_piece_moved_index (Some idx) (clear_origin b (bit (square f r)))))
    with (_piece_captured_index b) in U6.
  unfold opponent_at in Hopp. rewrite truthy_land_bit_l, Hopp in U6 by lia.
  split; [exact U6|]. split.
  - intros k name Hk Hname. unfold get_piece_captured. now rewrite U6, Hk, Hname.
  - repeat split; vm_compute; reflexivity.
Qed.

Lemma captured_index_kept_witness :
  execute_move 8 pawn_taken_position "H7" "H6" = Ret (true, quiet_reply) /\
  on_board 7 5 /\
  convert_to_bitboard (PyStr "H6") = Ret (Some (bit (square 7 5))) /\
  opponent_at pawn_taken_position 7 5 = false /\
  _piece_captured_index quiet_reply = _piece_captured_index pawn_taken_position.
Proof.
  assert (Hmove : execute_move 8 pawn_taken_position "H7" "H6" = Ret (true, quiet_reply))
    by (vm_compute; reflexivity).
  assert (Hb : on_board 7 5) by (unfold on_board; lia).
  assert (Hto : convert_to_bitboard (PyStr "H6") = Ret (Some (bit (square 7 5))))
    by (vm_compute; reflexivity).
  assert (Hopp : opponent_at pawn_taken_position 7 5 = false) by (vm_compute; reflexivity).
  split; [exact Hmove|]. split; [exact Hb|]. split; [exact Hto|]. split; [exact Hopp|].
  exact (proj1 (captured_index_kept 8 pawn_taken_position quiet_reply "H7" "H6" 7 5
                  Hmove Hb Hto Hopp)).
Defined.

(** ** Rejected moves *)

(** A rejected move leaves the piece masks, the side masks, the turn and the
    captured-piece field alone. *)
Lemma execute_move_failure depth b move_from move_to b' :
  execute_move depth b move_from move_to = Ret (false, b') ->
  _current_turn b' = _current_turn b /\
  _white_pieces_list b' = _white_pieces_list b /\
  _black_pieces_list b' = _black_pieces_list b /\
  _all_white_pieces_bb b' = _all_white_pieces_bb b /\
  _all_black_pieces_bb b' = _all_black_pieces_bb b /\
  _piece_captured_index b' = _piece_captured_index b.
Proof.
  unfold execute_move. intros H.
  destruct (String.eqb (upper move_from) (upper move_to)).
  { injection H as <-. repeat split. }
  destruct (convert_to_bitboard (PyStr move_from)) as [[from|]|]; cbn [bind] in H;
    try discriminate.
  2:{ destruct (convert_to_bitboard (PyStr move_to)) as [[?|]|]; cbn [bind] in H;
        try discriminate; injection H as <-; repeat split. }
  destruct (convert_to_bitboard (PyStr move_to)) as [[to|]|]; cbn [bind] in H;
    try discriminate.
  2:{ injection H as <-. repeat split. }
  destruct (find_valid_moves depth _ from) as [[legal self1]|] eqn:Hfind; cbn [bind] in H;
    [|discriminate].
  destruct (_piece_moved_index self1).
  - destruct (Z.land to legal =? 0).
    + injection H as <-.
      destruct (find_valid_moves_inv _ _ _ _ _ Hfind) as [[_ ->] | (idx & x & moves & _ & _ & -> & _)];
        repeat split.
    + destruct (update_bitboards self1 from to); discriminate.
  - injection H as <-.
    destruct (find_valid_moves_inv _ _ _ _ _ Hfind) as [[_ ->] | (idx & x & moves & _ & _ & -> & _)];
      repeat split.
Qed.

(** The piece masks and side masks stay consistent whatever is called, also
    across rejected moves. *)
Lemma in_play_pieces_consistent b : in_play b -> pieces_consistent b.
Proof.
  induction 1 as [|depth b mf mt ok b' _ IH Hmove|b _ IH|b name b' _ IH Hget|b name b' _ IH Hget].
  - exact (consistent_pieces _ consistent_setup_new_board).
  - destruct ok.
    + exact (pieces_consistent_move depth b mf mt b' IH Hmove).
    + destruct (execute_move_failure _ _ _ _ _ Hmove) as (_ & Ew & Eb & EW & EB & _).
      destruct IH as [H1 H2 H3 H4 H5 H6 H7].
      constructor; rewrite ?Ew, ?Eb, ?EW, ?EB; assumption.
  - destruct IH as [H1 H2 H3 H4 H5 H6 H7].
    unfold set_next_turn. destruct (white_to_move b); constructor; assumption.
  - unfold get_piece_moved in Hget.
    destruct (_piece_moved_index b) as [i|]; cbn [index_of bind] in Hget; [|discriminate].
    destruct (_piece_names !! i); [|discriminate]. injection Hget as _ <-.
    destruct IH as [H1 H2 H3 H4 H5 H6 H7]. constructor; assumption.
  - unfold get_piece_captured in Hget.
    destruct (_piece_captured_index b) as [i|].
    + destruct (_piece_names !! i); [|discriminate]. injection Hget as _ <-.
      destruct IH as [H1 H2 H3 H4 H5 H6 H7]. constructor; assumption.
    + injection Hget as _ <-. exact IH.
Qed.

(** ** The win condition *)

Lemma any_zero_spec pieces : any_zero pieces = true <-> some_mask_empty pieces.
Proof.
  unfold any_zero, some_mask_empty. rewrite existsb_exists. split.
  - intros (x & Hin & Hx). apply Z.eqb_eq in Hx. subst x.
    apply list_elem_of_In, list_elem_of_lookup in Hin. exact Hin.
  - intros (k & Hk). exists 0. split; [|reflexivity].
    apply list_elem_of_In, list_elem_of_lookup. eauto.
Qed.

Lemma any_zero_false pieces : any_zero pieces = false <-> ~ some_mask_empty pieces.
Proof.
  rewrite <- any_zero_spec. destruct (any_zero pieces); split; congruence.
Qed.

Lemma get_game_state_spec g :
  get_game_state g =
    if any_zero (_white_pieces_list (_board g)) then "BLACK_WON"
    else if any_zero (_black_pieces_list (_board g)) then "WHITE_WON"
    else "UNFINISHED".
Proof. reflexivity. Qed.

(** The mover's masks after a successful move: none of them is empty if none
    was, and both sides keep their number of masks. *)
Lemma execute_move_success_masks depth b move_from move_to b' :
  execute_move depth b move_from move_to = Ret (true, b') ->
  _current_turn b' = _current_turn b /\
  length (own_pieces_list b') = length (own_pieces_list b) /\
  length (opponents_pieces_list b') = length (opponents_pieces_list b) /\
  (~ some_mask_empty (own_pieces_list b) -> ~ some_mask_empty (own_pieces_list b')).
Proof.
  intros Hmove.
  destruct (execute_move_success _ _ _ _ _ Hmove)
    as (f & r & f' & r' & idx & x & legal & Hb & Hb' & _ & _ & Hx & Hxi & Hown & _ & _ & Hupd).
  pose proof (square_range f' r' Hb') as Hsq'.
  destruct (update_bitboards_spec
              (set_piece_moved_index (Some idx) (clear_origin b (bit (square f r))))
              (bit (square f r)) (bit (square f' r')) idx x eq_refl Hx)
    as (b2 & Hb2 & U1 & _ & _ & U4 & _ & _ & U7 & _).
  rewrite Hupd in Hb2. injection Hb2 as <-.
  change (own_pieces_list (set_piece_moved_index (Some idx) (clear_origin b (bit (square f r)))))
    with (own_pieces_list b) in U1.
  change (opponents_pieces_list (set_piece_moved_index (Some idx) (clear_origin b (bit (square f r)))))
    with (opponents_pieces_list b) in U4.
  change (_current_turn (set_piece_moved_index (Some idx) (clear_origin b (bit (square f r)))))
    with (_current_turn b) in U7.
  split; [exact U7|]. split; [|split].
  - now rewrite U1, length_insert.
  - rewrite U4. destruct (truthy _); [apply length_map | reflexivity].
  - intros Hnone (k & Hk). rewrite U1 in Hk.
    destruct (Nat.eq_dec idx k) as [<-|Hne].
    + rewrite list_lookup_insert_eq in Hk by (eapply lookup_lt_Some; eauto).
      injection Hk as Hk. apply (f_equal (fun z => Z.testbit z (square f' r'))) in Hk.
      rewrite Z.lor_spec, testbit_bit, Z.eqb_refl, orb_true_r, Z.bits_0 in Hk by lia.
      discriminate.
    + rewrite list_lookup_insert_ne in Hk by assumption. apply Hnone. now exists k.
Qed.

Lemma set_next_turn_lists b :
  _white_pieces_list (set_next_turn b) = _white_pieces_list b /\
  _black_pieces_list (set_next_turn b) = _black_pieces_list b.
Proof. unfold set_next_turn. destruct (white_to_move b); split; reflexivity. Qed.

(** The three ways [make_move] returns. *)
Lemma make_move_inv depth g move_from move_to ok g' :
  make_move depth g move_from move_to = Ret (ok, g') ->
  g' = g \/
  (exists b', execute_move depth (_board g) move_from move_to = Ret (false, b') /\
              _board g' = b') \/
  (get_game_state g = "UNFINISHED" /\
   exists b', execute_move depth (_board g) move_from move_to = Ret (true, b') /\
              _white_pieces_list (_board g') = _white_pieces_list b' /\
              _black_pieces_list (_board g') = _black_pieces_list b').
Proof.
  unfold make_move. intros H.
  destruct (String.eqb (get_game_state g) "UNFINISHED") eqn:Hstate; cbn [negb] in H.
  2:{ injection H as _ <-. now left. }
  apply String.eqb_eq in Hstate.
  destruct (execute_move depth (_board g) move_from move_to) as [[[|] board]|] eqn:Hmove;
    cbn [bind negb] in H; try discriminate.
  - right. right. split; [exact Hstate|]. exists board. split; [reflexivity|].
    unfold update_display, get_piece_moved, get_piece_captured in H. cbn [_board] in H.
    destruct (_piece_moved_index board) as [i|]; cbn [index_of bind] in H; [|discriminate].
    destruct (_piece_names !! i); cbn [bind] in H; [|discriminate].
    change (_piece_captured_index (set_piece_moved_index None board))
      with (_piece_captured_index board) in H.
    destruct (_piece_captured_index board) as [c|].
    + destruct (_piece_names !! c); cbn [bind] in H; [|discriminate].
      injection H as H. subst g'.
      exact (set_next_turn_lists
               (set_piece_captured_index None (set_piece_moved_index None board))).
    + cbn [bind] in H. injection H as H. subst g'.
      exact (set_next_turn_lists (set_piece_moved_index None board)).
  - right. left. exists board. split; [reflexivity|]. injection H as _ <-. reflexivity.
Qed.

Lemma game_invariant_new_game : game_invariant new_game.
Proof.
  repeat split. intros [(k & Hk) _].
  do 6 (destruct k as [|k]; [discriminate Hk|]). discriminate Hk.
Qed.

Lemma game_invariant_make_move depth g move_from move_to ok g' :
  game_invariant g ->
  make_move depth g move_from move_to = Ret (ok, g') ->
  game_invariant g'.
Proof.
  intros (Hw & Hbl & Hinv) Hmove.
  destruct (make_move_inv _ _ _ _ _ _ Hmove)
    as [-> | [(b' & Hfail & Hb') | (Hstate & b' & Hsucc & Hwl & Hbll)]].
  - repeat split; assumption.
  - destruct (execute_move_failure _ _ _ _ _ Hfail) as (_ & Ew & Eb & _).
    unfold game_invariant. rewrite Hb', Ew, Eb. repeat split; assumption.
  - rewrite get_game_state_spec in Hstate.
    destruct (any_zero (_white_pieces_list (_board g))) eqn:Zw; [discriminate|].
    destruct (any_zero (_black_pieces_list (_board g))) eqn:Zb; [discriminate|].
    apply any_zero_false in Zw, Zb.
    destruct (execute_move_success_masks _ _ _ _ _ Hsucc) as (Hturn & Lo & Lp & Hkeep).
    assert (Hwtm : white_to_move b' = white_to_move (_board g))
      by (unfold white_to_move; now rewrite Hturn).
    unfold game_invariant. rewrite Hwl, Hbll.
    unfold own_pieces_list, opponents_pieces_list in Lo, Lp, Hkeep. rewrite Hwtm in Lo, Lp, Hkeep.
    destruct (white_to_move (_board g)).
    + repeat split; try congruence. intros [Hwz _]. exact (Hkeep Zw Hwz).
    + repeat split; try congruence. intros [_ Hbz]. exact (Hkeep Zb Hbz).
Qed.

Lemma game_reachable_invariant g : game_reachable g -> game_invariant g.
Proof.
  induction 1 as [|depth g mf mt ok g' _ IH Hmove].
  - exact game_invariant_new_game.
  - exact (game_invariant_make_move depth g mf mt ok g' IH Hmove).
Qed.

Lemma game_reachable_play_game depth moves : forall g g',
  game_reachable g -> play_game depth g moves = Some g' -> game_reachable g'.
Proof.
  induction moves as [|[mf mt] moves IH]; intros g g' Hg Hplay; simpl in Hplay.
  - injection Hplay as <-. exact Hg.
  - destruct (make_move depth g mf mt) as [[[|] g1]|] eqn:Hmove; try discriminate.
    apply (IH g1); [|exact Hplay]. eapply game_reachable_move; eauto.
Qed.

Lemma game_reachable_queen_taken : game_reachable queen_taken.
Proof.
  apply (game_reachable_play_game 8 queen_hunt new_game); [apply game_reachable_init|].
  vm_compute. reflexivity.
Qed.

(** C8: in every game reached by [make_move] from a new game, each side has
    six piece masks; [get_game_state] reports "WHITE_WON" exactly when one of
    Black's masks is zero, "BLACK_WON" exactly when one of White's masks is
    zero, and "UNFINISHED" exactly when all twelve are nonzero.  After the
    knight takes the queen in [queen_hunt] the state is "WHITE_WON" with
    fourteen Black pieces still on the board. *)
Theorem win_condition (g : ChessVar) :
  game_reachable g ->
  length (_white_pieces_list (_board g)) = 6%nat /\
  length (_black_pieces_list (_board g)) = 6%nat /\
  (get_game_state g = "WHITE_WON" <-> some_mask_empty (_black_pieces_list (_board g))) /\
  (get_game_state g = "BLACK_WON" <-> some_mask_empty (_white_pieces_list (_board g))) /\
  (get_game_state g = "UNFINISHED" <->
     ~ some_mask_empty (_white_pieces_list (_board g)) /\
     ~ some_mask_empty (_black_pieces_list (_board g))) /\
  (play_game 8 new_game queen_hunt = Some queen_taken /\
   get_game_state queen_taken = "WHITE_WON" /\
   _black_pieces_list (_board queen_taken) !! 4%nat = Some 0 /\
   count_squares (_all_black_pieces_bb (_board queen_taken)) = 14%nat).
Proof.
  intros Hreach. destruct (game_reachable_invariant g Hreach) as (Hw & Hb & Hinv).
  split; [exact Hw|]. split; [exact Hb|].
  assert (Hexample :
    play_game 8 new_game queen_hunt = Some queen_taken /\
    get_game_state queen_taken = "WHITE_WON" /\
    _black_pieces_list (_board queen_taken) !! 4%nat = Some 0 /\
    count_squares (_all_black_pieces_bb (_board queen_taken)) = 14%nat).
  { split; [vm_compute; reflexivity|]. split; [vm_compute; reflexivity|].
    split; vm_compute; reflexivity. }
  rewrite (get_game_state_spec g).
  destruct (any_zero (_white_pieces_list (_board g))) eqn:Zw;
    destruct (any_zero (_black_pieces_list (_board g))) eqn:Zb.
  - exfalso. apply any_zero_spec in Zw, Zb. apply Hinv. split; assumption.
  - apply any_zero_spec in Zw. apply any_zero_false in Zb.
    split; [split; [discriminate | contradiction]|].
    split; [split; [intros _; exact Zw | reflexivity]|].
    split; [split; [discriminate | intros [Hn _]; contradiction]|].
    exact Hexample.
  - apply any_zero_false in Zw. apply any_zero_spec in Zb.
    split; [split; [intros _; exact Zb | reflexivity]|].
    split; [split; [discriminate | contradiction]|].
    split; [split; [discriminate | intros [_ Hn]; contradiction]|].
    exact Hexample.
  - apply any_zero_false in Zw, Zb.
    split; [split; [discriminate | contradiction]|].
    split; [split; [discriminate | contradiction]|].
    split; [split; [intros _; split; assumption | reflexivity]|].
    exact Hexample.
Qed.

Lemma win_condition_witness :
  game_reachable queen_taken /\
  (get_game_state queen_taken = "WHITE_WON" <->
   some_mask_empty (_black_pieces_list (_board queen_taken))).
Proof.
  split; [exact game_reachable_queen_taken|].
  exact (proj1 (proj2 (proj2 (win_condition queen_taken game_reachable_queen_taken)))).
Defined.

(** ** Where the code departs from its documentation *)

(** What the conversion does return without raising: [None] for a value that
    is not a string, for a string whose length is not two, and for a label with
    a digit as second character whose file or rank is off the board. *)
Lemma convert_to_bitboard_not_str_int z : convert_to_bitboard (PyInt z) = Ret None.
Proof. reflexivity. Qed.

Lemma convert_to_bitboard_not_str_none : convert_to_bitboard PyNone = Ret None.
Proof. reflexivity. Qed.

Lemma convert_to_bitboard_wrong_length s :
  String.length s <> 2%nat -> convert_to_bitboard (PyStr s) = Ret None.
Proof.
  destruct s as [|c0 [|c1 [|c2 s]]]; simpl; intros H; try reflexivity. lia.
Qed.

Lemma convert_to_bitboard_valid base f r :
  base = 65 \/ base = 97 -> on_board f r ->
  convert_to_bitboard (PyStr (label base f r)) = Ret (Some (bit (square f r))).
Proof.
  intros Hbase [Hf Hr].
  apply coords_complete in Hf, Hr. unfold coords in Hf, Hr. simpl in Hf, Hr.
  destruct Hbase as [-> | ->];
    repeat (destruct Hf as [<- | Hf]); try contradiction;
    repeat (destruct Hr as [<- | Hr]); try contradiction;
    vm_compute; reflexivity.
Qed.

(** C7: the conversion does not return a null result for every malformed
    label: on the two-character string "A?", whose rank character is not a
    digit, [int] raises [ValueError] instead. *)
Theorem convert_to_bitboard_raises :
  convert_to_bitboard (PyStr "A?") = Raise ValueError /\
  convert_to_bitboard (PyStr "Z?") = Raise ValueError /\
  convert_to_bitboard (PyStr "A9") = Ret None /\
  convert_to_bitboard (PyStr "I1") = Ret None /\
  convert_to_bitboard (PyStr "a1") = Ret (Some (bit (square 0 0))).
Proof. repeat split; vm_compute; reflexivity. Qed.

(** C5: a rejected move does not always leave the board as it was: on the
    initial board, the move E4-E5 starts on an empty square, is rejected, and
    leaves the E4 bit set in the all-pieces mask, where it was not set
    before. *)
Theorem rejected_move_changes_occupancy :
  exists b',
    execute_move 8 setup_new_board "E4" "E5" = Ret (false, b') /\
    Z.testbit (_all_pieces_bb setup_new_board) (square 4 3) = false /\
    Z.testbit (_all_pieces_bb b') (square 4 3) = true /\
    _all_pieces_bb b' = Z.lor (_all_pieces_bb setup_new_board) (bit (square 4 3)) /\
    b' <> setup_new_board.
Proof.
  eexists. split; [vm_compute; reflexivity|].
  split; [reflexivity|]. split; [reflexivity|]. split; [reflexivity|].
  intros E. apply (f_equal _all_pieces_bb) in E. vm_compute in E. discriminate.
Qed.

Lemma reachable_after_e4 : reachable after_e4.
Proof.
  apply (reachable_play 8 [("E2", "E4")] setup_new_board); [apply reachable_init|].
  vm_compute. reflexivity.
Qed.

(** C9: the legal-move mask of [find_valid_moves] is not always below 2^64:
    after White's E2-E4, the mask of Black's knight on G8 has bits 68, 77 and
    79 set, on the board as it is and with the origin cleared as
    [execute_move] does. *)
Theorem knight_moves_exceed_64_bits :
  exists knights moves self',
    reachable after_e4 /\
    own_pieces_list after_e4 !! 2%nat = Some knights /\
    Z.testbit knights (square 6 7) = true /\
    find_valid_moves 8 after_e4 (bit (square 6 7)) = Ret (moves, self') /\
    find_valid_moves 8 (clear_origin after_e4 (bit (square 6 7))) (bit (square 6 7))
      = Ret (moves, clear_origin self' (bit (square 6 7))) /\
    moves = Z.lor (Z.lor (bit 45) (bit 47)) (Z.lor (bit 68) (Z.lor (bit 77) (bit 79))) /\
    2 ^ 64 <= moves /\
    Z.testbit moves 68 = true.
Proof.
  eexists. eexists. eexists.
  split; [exact reachable_after_e4|].
  split; [vm_compute; reflexivity|].
  split; [vm_compute; reflexivity|].
  split; [vm_compute; reflexivity|].
  split; [vm_compute; reflexivity|].
  split; [vm_compute; reflexivity|].
  split; [vm_compute; discriminate | vm_compute; reflexivity].
Qed.

(** ** Labels and squares *)

Lemma file_char_inv c :
  let f := ord (upper_ascii c) - ord "A" in
  (f <? 0) || (7 <? f) = false ->
  c = ascii_of_N (Z.to_N (65 + f)) \/ c = ascii_of_N (Z.to_N (97 + f)).
Proof.
  destruct c as [[] [] [] [] [] [] [] []]; vm_compute; intros H;
    first [discriminate H | left; reflexivity | right; reflexivity].
Qed.

Lemma rank_char_inv c d :
  int_of_char c = Ret d ->
  (d - 1 <? 0) || (7 <? d - 1) = false ->
  c = ascii_of_N (Z.to_N (49 + (d - 1))).
Proof.
  destruct c as [[] [] [] [] [] [] [] []]; vm_compute; intros H;
    first [discriminate H | injection H as <-; intros H'; first [discriminate H' | reflexivity]].
Qed.

Lemma upper_ascii_idempotent c : upper_ascii (upper_ascii c) = upper_ascii c.
Proof. destruct c as [[] [] [] [] [] [] [] []]; vm_compute; reflexivity. Qed.

Lemma int_of_char_upper c : int_of_char (upper_ascii c) = int_of_char c.
Proof. destruct c as [[] [] [] [] [] [] [] []]; vm_compute; reflexivity. Qed.

Lemma upper_label base f r :
  base = 65 \/ base = 97 -> on_board f r -> upper (label base f r) = label 65 f r.
Proof.
  intros Hbase [Hf Hr].
  apply coords_complete in Hf, Hr. unfold coords in Hf, Hr. simpl in Hf, Hr.
  destruct Hbase as [-> | ->];
    repeat (destruct Hf as [<- | Hf]); try contradiction;
    repeat (destruct Hr as [<- | Hr]); try contradiction;
    vm_compute; reflexivity.
Qed.

Lemma convert_to_bitboard_label s m :
  convert_to_bitboard (PyStr s) = Ret (Some m) ->
  exists base f r,
    (base = 65 \/ base = 97) /\ on_board f r /\
    s = label base f r /\ m = bit (square f r).
Proof.
  destruct s as [|c0 [|c1 [|c2 s]]]; simpl; try discriminate.
  destruct (int_of_char c1) as [d|] eqn:Hd; cbn [bind]; [|discriminate].
  pose proof (file_char_inv c0) as Hfile. cbv zeta in Hfile.
  destruct ((ord (upper_ascii c0) - ord "A" <? 0) || (7 <? ord (upper_ascii c0) - ord "A"))
    eqn:Hf; [discriminate|].
  destruct ((d - 1 <? 0) || (7 <? d - 1)) eqn:Hr; [discriminate|].
  intros H. injection H as <-.
  pose proof (rank_char_inv c1 d Hd Hr) as Hc1.
  assert (Hb : on_board (ord (upper_ascii c0) - ord "A") (d - 1)) by (unfold on_board; lia).
  destruct (Hfile eq_refl) as [Hc0 | Hc0].
  - exists 65, (ord (upper_ascii c0) - ord "A"), (d - 1).
    repeat split; try apply Hb; [now left|]. unfold label. now rewrite <- Hc0, <- Hc1.
  - exists 97, (ord (upper_ascii c0) - ord "A"), (d - 1).
    repeat split; try apply Hb; [now right|]. unfold label. now rewrite <- Hc0, <- Hc1.
Qed.

Lemma convert_to_bitboard_upper s :
  convert_to_bitboard (PyStr (upper s)) = convert_to_bitboard (PyStr s).
Proof.
  destruct s as [|c0 [|c1 [|c2 s]]]; try reflexivity.
  cbn [upper convert_to_bitboard].
  now rewrite upper_ascii_idempotent, int_of_char_upper.
Qed.

(** X1: for a string of ASCII characters, the conversion returns a mask
    exactly when the string is a file letter A-H or a-h followed by a rank
    digit 1-8, and the mask is the single bit of that square. *)
Theorem convert_to_bitboard_exact (s : string) (m : Z) :
  ascii_only s = true ->
  (convert_to_bitboard (PyStr s) = Ret (Some m) <->
   exists base f r,
     (base = 65 \/ base = 97) /\ on_board f r /\
     s = label base f r /\ m = bit (square f r)).
Proof.
  intros _. split.
  - apply convert_to_bitboard_label.
  - intros (base & f & r & Hbase & Hb & -> & ->). now apply convert_to_bitboard_valid.
Qed.

Lemma convert_to_bitboard_exact_witness :
  ascii_only "e2" = true /\
  (convert_to_bitboard (PyStr "e2") = Ret (Some (bit 12)) <->
   exists base f r,
     (base = 65 \/ base = 97) /\ on_board f r /\
     "e2" = label base f r /\ bit 12 = bit (square f r)).
Proof.
  assert (H : ascii_only "e2" = true) by reflexivity.
  split; [exact H|]. exact (convert_to_bitboard_exact "e2" (bit 12) H).
Defined.

(** X2: for a string of ASCII characters, the conversion does not see the
    case: the string and its upper-case form give the same result, a mask,
    [None] or [ValueError]. *)
Theorem convert_to_bitboard_case_insensitive (s : string) :
  ascii_only s = true ->
  convert_to_bitboard (PyStr (upper s)) = convert_to_bitboard (PyStr s).
Proof. intros _. exact (convert_to_bitboard_upper s). Qed.

Lemma convert_to_bitboard_case_insensitive_witness :
  ascii_only "h7" = true /\
  convert_to_bitboard (PyStr (upper "h7")) = convert_to_bitboard (PyStr "h7").
Proof.
  assert (H : ascii_only "h7" = true) by reflexivity.
  split; [exact H|]. exact (convert_to_bitboard_case_insensitive "h7" H).
Defined.

Lemma same_square_same_upper s t m :
  convert_to_bitboard (PyStr s) = Ret (Some m) ->
  convert_to_bitboard (PyStr t) = Ret (Some m) ->
  upper s = upper t.
Proof.
  intros Hs Ht.
  apply convert_to_bitboard_label in Hs, Ht.
  destruct Hs as (base & f & r & Hbase & Hb & -> & ->).
  destruct Ht as (base' & f' & r' & Hbase' & Hb' & -> & E).
  pose proof (square_range f r Hb). pose proof (square_range f' r' Hb').
  apply bit_inj in E; [|lia|lia].
  destruct (square_inj f r f' r' Hb Hb' E) as [-> ->].
  now rewrite !upper_label.
Qed.

Lemma same_square_move_rejected_aux depth b move_from move_to m :
  convert_to_bitboard (PyStr move_from) = Ret (Some m) ->
  convert_to_bitboard (PyStr move_to) = Ret (Some m) ->
  execute_move depth b move_from move_to = Ret (false, b).
Proof.
  intros Hfrom Hto. unfold execute_move.
  rewrite (same_square_same_upper _ _ _ Hfrom Hto), String.eqb_refl. reflexivity.
Qed.

(** X3: a move whose two labels, strings of ASCII characters, name the same
    square, in whatever case, is rejected and the board is not touched. *)
Theorem same_square_move_rejected (depth : nat) (b : Board) (move_from move_to : string)
    (m : Z) :
  ascii_only move_from = true -> ascii_only move_to = true ->
  convert_to_bitboard (PyStr move_from) = Ret (Some m) ->
  convert_to_bitboard (PyStr move_to) = Ret (Some m) ->
  execute_move depth b move_from move_to = Ret (false, b).
Proof.
  intros _ _ Hfrom Hto. unfold execute_move.
  rewrite (same_square_same_upper _ _ _ Hfrom Hto), String.eqb_refl. reflexivity.
Qed.

Lemma same_square_move_rejected_witness :
  ascii_only "e2" = true /\ ascii_only "E2" = true /\
  convert_to_bitboard (PyStr "e2") = Ret (Some (bit 12)) /\
  convert_to_bitboard (PyStr "E2") = Ret (Some (bit 12)) /\
  execute_move 8 setup_new_board "e2" "E2" = Ret (false, setup_new_board).
Proof.
  assert (A1 : ascii_only "e2" = true) by reflexivity.
  assert (A2 : ascii_only "E2" = true) by reflexivity.
  assert (H1 : convert_to_bitboard (PyStr "e2") = Ret (Some (bit 12))) by reflexivity.
  assert (H2 : convert_to_bitboard (PyStr "E2") = Ret (Some (bit 12))) by reflexivity.
  split; [exact A1|]. split; [exact A2|]. split; [exact H1|]. split; [exact H2|].
  exact (same_square_move_rejected 8 setup_new_board "e2" "E2" (bit 12) A1 A2 H1 H2).
Defined.

(** ** What a call of [execute_move] can and cannot do *)

(** For two labels of squares, [execute_move] returns. *)
Lemma execute_move_valid_returns depth b move_from move_to m m' :
  (8 <= depth)%nat ->
  length (_white_pieces_list b) = 6%nat ->
  length (_black_pieces_list b) = 6%nat ->
  convert_to_bitboard (PyStr move_from) = Ret (Some m) ->
  convert_to_bitboard (PyStr move_to) = Ret (Some m') ->
  exists ok b', execute_move depth b move_from move_to = Ret (ok, b').
Proof.
  intros Hdepth Hw Hbl Hfrom Hto.
  destruct (execute_move_returns depth b move_from move_to Hdepth Hw Hbl) as [Hret | Hraise];
    [exact Hret|].
  exfalso. unfold execute_move in Hraise.
  destruct (String.eqb (upper move_from) (upper move_to)); [discriminate|].
  rewrite Hfrom, Hto in Hraise. cbn [bind] in Hraise.
  apply convert_to_bitboard_some in Hfrom. destruct Hfrom as (f & r & Hb & ->).
  destruct (find_valid_moves_total depth
              (set_all_pieces_bb (Z.land (_all_pieces_bb b) (Z.lnot (bit (square f r)))) b)
              f r Hb Hdepth Hw Hbl) as (legal & self1 & Hfind).
  rewrite Hfind in Hraise. cbn [bind] in Hraise.
  destruct (find_valid_moves_inv _ _ _ _ _ Hfind)
    as [[-> ->] | (idx & x & moves & Hx & _ & -> & _)].
  - rewrite Z.land_0_r in Hraise. change (0 =? 0) with true in Hraise.
    destruct (_piece_moved_index _); discriminate.
  - cbn [_piece_moved_index set_piece_moved_index] in Hraise.
    destruct (Z.land m' legal =? 0); [discriminate|].
    destruct (update_bitboards_spec
                (set_piece_moved_index (Some idx)
                   (set_all_pieces_bb (Z.land (_all_pieces_bb b) (Z.lnot (bit (square f r)))) b))
                (bit (square f r)) m' idx x eq_refl Hx) as (b2 & Hb2 & _).
    rewrite Hb2 in Hraise. discriminate.
Qed.

(** X4: for two labels that are strings of ASCII characters, with a
    recursion depth of eight or more, on a board with six masks a side,
    [execute_move] returns a verdict or raises the [ValueError] of a label
    whose second character is not a digit; it raises nothing else, and for
    two labels of squares it returns. *)
Theorem execute_move_total (depth : nat) (b : Board) (move_from move_to : string) :
  ascii_only move_from = true -> ascii_only move_to = true ->
  (8 <= depth)%nat ->
  length (_white_pieces_list b) = 6%nat ->
  length (_black_pieces_list b) = 6%nat ->
  ((exists ok b', execute_move depth b move_from move_to = Ret (ok, b')) \/
   execute_move depth b move_from move_to = Raise ValueError) /\
  (forall m m',
     convert_to_bitboard (PyStr move_from) = Ret (Some m) ->
     convert_to_bitboard (PyStr move_to) = Ret (Some m') ->
     exists ok b', execute_move depth b move_from move_to = Ret (ok, b')).
Proof.
  intros _ _ Hdepth Hw Hbl. split.
  - exact (execute_move_returns depth b move_from move_to Hdepth Hw Hbl).
  - intros m m' Hfrom Hto.
    exact (execute_move_valid_returns depth b move_from move_to m m' Hdepth Hw Hbl Hfrom Hto).
Qed.

Lemma execute_move_total_witness :
  ascii_only "E2" = true /\ ascii_only "E?" = true /\
  (8 <= 8)%nat /\
  length (_white_pieces_list setup_new_board) = 6%nat /\
  length (_black_pieces_list setup_new_board) = 6%nat /\
  ((exists ok b', execute_move 8 setup_new_board "E2" "E?" = Ret (ok, b')) \/
   execute_move 8 setup_new_board "E2" "E?" = Raise ValueError).
Proof.
  assert (A1 : ascii_only "E2" = true) by reflexivity.
  assert (A2 : ascii_only "E?" = true) by reflexivity.
  assert (Hdepth : (8 <= 8)%nat) by lia.
  assert (Hw : length (_white_pieces_list setup_new_board) = 6%nat) by reflexivity.
  assert (Hb : length (_black_pieces_list setup_new_board) = 6%nat) by reflexivity.
  split; [exact A1|]. split; [exact A2|].
  split; [exact Hdepth|]. split; [exact Hw|]. split; [exact Hb|].
  exact (proj1 (execute_move_total 8 setup_new_board "E2" "E?" A1 A2 Hdepth Hw Hb)).
Defined.

Lemma lor_land_lnot a x : Z.lor (Z.land a (Z.lnot x)) x = Z.lor a x.
Proof. bitblast. Qed.

Lemma execute_move_failure_occupancy depth b move_from move_to b' :
  execute_move depth b move_from move_to = Ret (false, b') ->
  b' = b \/
  exists f r,
    on_board f r /\
    convert_to_bitboard (PyStr move_from) = Ret (Some (bit (square f r))) /\
    _all_pieces_bb b' = Z.lor (_all_pieces_bb b) (bit (square f r)) /\
    (_piece_moved_index b' = _piece_moved_index b \/
     exists idx x, own_pieces_list b !! idx = Some x /\
                   Z.testbit x (square f r) = true /\
                   _piece_moved_index b' = Some idx).
Proof.
  unfold execute_move. intros H.
  destruct (String.eqb (upper move_from) (upper move_to)).
  { injection H as <-. now left. }
  destruct (convert_to_bitboard (PyStr move_from)) as [[from|]|] eqn:Hfrom; cbn [bind] in H;
    try discriminate.
  2:{ destruct (convert_to_bitboard (PyStr move_to)) as [[?|]|]; cbn [bind] in H;
        try discriminate; injection H as <-; now left. }
  destruct (convert_to_bitboard (PyStr move_to)) as [[to|]|]; cbn [bind] in H;
    try discriminate.
  2:{ injection H as <-. now left. }
  apply convert_to_bitboard_some in Hfrom as Hsq. destruct Hsq as (f & r & Hb & ->).
  pose proof (square_range f r Hb) as Hrange.
  right. exists f, r. split; [exact Hb|]. split; [reflexivity|].
  destruct (find_valid_moves depth _ (bit (square f r))) as [[legal self1]|] eqn:Hfind;
    cbn [bind] in H; [|discriminate].
  assert (Hdone : b' = set_all_pieces_bb (Z.lor (_all_pieces_bb self1) (bit (square f r))) self1).
  { destruct (_piece_moved_index self1).
    - destruct (Z.land to legal =? 0); [now injection H as <-|].
      destruct (update_bitboards self1 (bit (square f r)) to); discriminate.
    - now injection H as <-. }
  subst b'. clear H.
  destruct (find_valid_moves_inv _ _ _ _ _ Hfind)
    as [[_ ->] | (idx & x & moves & Hx & Hhit & -> & _)]; cbn.
  - split; [apply lor_land_lnot | now left].
  - split; [apply lor_land_lnot|]. right. exists idx, x.
    rewrite truthy_land_bit_r in Hhit by lia. auto.
Qed.

(** X5: A rejected move leaves the turn, the twelve piece masks, the two side
    masks and the captured-piece field as they were.  The all-pieces mask is
    as before or has gained the origin bit, so it is as before whenever the
    origin square was marked occupied. *)
Theorem rejected_move_frame (depth : nat) (b b' : Board) (move_from move_to : string) :
  execute_move depth b move_from move_to = Ret (false, b') ->
  _current_turn b' = _current_turn b /\
  _white_pieces_list b' = _white_pieces_list b /\
  _black_pieces_list b' = _black_pieces_list b /\
  _all_white_pieces_bb b' = _all_white_pieces_bb b /\
  _all_black_pieces_bb b' = _all_black_pieces_bb b /\
  _piece_captured_index b' = _piece_captured_index b /\
  (_all_pieces_bb b' = _all_pieces_bb b \/
   exists f r, on_board f r /\
     convert_to_bitboard (PyStr move_from) = Ret (Some (bit (square f r))) /\
     _all_pieces_bb b' = Z.lor (_all_pieces_bb b) (bit (square f r))) /\
  (forall f r, on_board f r ->
     convert_to_bitboard (PyStr move_from) = Ret (Some (bit (square f r))) ->
     Z.testbit (_all_pieces_bb b) (square f r) = true ->
     _all_pieces_bb b' = _all_pieces_bb b).
Proof.
  intros H.
  destruct (execute_move_failure _ _ _ _ _ H) as (F1 & F2 & F3 & F4 & F5 & F6).
  repeat (split; [assumption|]).
  destruct (execute_move_failure_occupancy _ _ _ _ _ H)
    as [-> | (f & r & Hb & Hfrom & Hall & _)].
  - split; [now left | reflexivity].
  - split; [right; eauto|].
    intros f' r' Hb' Hfrom' Hocc. rewrite Hfrom in Hfrom'. injection Hfrom' as E.
    pose proof (square_range f r Hb). pose proof (square_range f' r' Hb').
    apply bit_inj in E; [|lia|lia]. rewrite <- E in Hocc. rewrite Hall.
    apply Z.bits_inj'. intros n Hn. rewrite Z.lor_spec, testbit_bit by lia.
    destruct (Z.eqb_spec (square f r) n) as [<-|]; [now rewrite Hocc | apply orb_false_r].
Qed.

Lemma rejected_move_frame_witness :
  exists b',
    execute_move 8 setup_new_board "E2" "E5" = Ret (false, b') /\
    _all_pieces_bb b' = _all_pieces_bb setup_new_board.
Proof.
  assert (H : execute_move 8 setup_new_board "E2" "E5"
              = Ret (false, set_piece_moved_index (Some 0%nat) setup_new_board))
    by (vm_compute; reflexivity).
  eexists. split; [exact H|].
  refine (proj2 (proj2 (proj2 (proj2 (proj2 (proj2 (proj2
            (rejected_move_frame 8 setup_new_board _ "E2" "E5" H))))))) 4 1 _ _ _).
  - unfold on_board. lia.
  - reflexivity.
  - reflexivity.
Defined.

(** ** Invariants of the boards in play *)

Lemma occupancy_covers_iff b :
  occupancy_covers b <->
  Z.lor (_all_pieces_bb b) (Z.lor (own_bb b) (opponent_bb b)) = _all_pieces_bb b.
Proof.
  unfold occupancy_covers, own_bb, opponent_bb. split.
  - intros H. apply Z.bits_inj'. intros n Hn. specialize (H n).
    destruct (white_to_move b); rewrite !Z.lor_spec in *;
      destruct (Z.testbit (_all_pieces_bb b) n), (Z.testbit (_all_white_pieces_bb b) n),
        (Z.testbit (_all_black_pieces_bb b) n); simpl in *; auto; symmetry; auto.
  - intros H n Hn. apply (f_equal (fun z => Z.testbit z n)) in H.
    destruct (white_to_move b); rewrite !Z.lor_spec in *;
      destruct (Z.testbit (_all_pieces_bb b) n), (Z.testbit (_all_white_pieces_bb b) n),
        (Z.testbit (_all_black_pieces_bb b) n); simpl in *; congruence.
Qed.

Lemma last_hit_bound to pieces : forall index captured,
  last_hit to index pieces captured = captured \/
  exists k, last_hit to index pieces captured = Some k /\
            (index <= k < index + length pieces)%nat.
Proof.
  induction pieces as [|y pieces IH]; intros index captured; simpl; [now left|].
  destruct (IH (Datatypes.S index)
              (if truthy (Z.land to y) then Some index else captured)) as [E | (k & E & Hk)].
  - rewrite E. destruct (truthy (Z.land to y)); [|now left].
    right. exists index. split; [reflexivity | lia].
  - right. exists k. split; [exact E | lia].
Qed.

Lemma board_invariant_setup : board_invariant setup_new_board.
Proof.
  constructor.
  - exact (consistent_pieces _ consistent_setup_new_board).
  - intros n H. exact H.
  - now left.
  - intros k H. discriminate.
  - intros k H. discriminate.
Qed.

Lemma board_invariant_success depth b move_from move_to b' :
  board_invariant b ->
  execute_move depth b move_from move_to = Ret (true, b') ->
  board_invariant b'.
Proof.
  intros [Hp Hc Ht Hm Hcap] Hmove.
  destruct (execute_move_success _ _ _ _ _ Hmove)
    as (f & r & f' & r' & idx & x & legal & Hb & Hb' & _ & _ & Hx & Hxi & Hown & _ & _ & Hupd).
  pose proof (square_range f r Hb) as Hsq. pose proof (square_range f' r' Hb') as Hsq'.
  pose proof (proj1 (pieces_sides_iff b) Hp) as Hs.
  destruct (moved_board_sides b (square f r) (square f' r') idx x b'
              ltac:(lia) ltac:(lia) Hs Hx Hxi Hown Hupd)
    as (M1 & M2 & M3 & M4 & M5 & M6 & M7 & M8).
  destruct Hs as (S1 & S2 & S3 & S4 & S5 & S6 & S8).
  constructor.
  - exact (pieces_consistent_move depth b move_from move_to b' Hp Hmove).
  - apply occupancy_covers_iff. apply occupancy_covers_iff in Hc.
    assert (Hfrom : Z.land (bit (square f r)) (own_bb b) = bit (square f r)).
    { rewrite S5. apply (land_subset_trans _ x).
      - apply land_bit_subset; [lia | assumption].
      - eapply union_bb_lookup_subset; eauto. }
    rewrite M4, M5, M6. unfold clear_bits. clear S5 S6 Hx Hxi. bitblast.
  - now rewrite M1.
  - rewrite M7. intros k E. injection E as <-. rewrite <- S1. eapply lookup_lt_Some; eauto.
  - rewrite M8. destruct (Z.testbit (opponent_bb b) (square f' r')); [|exact Hcap].
    destruct (last_hit_bound (bit (square f' r')) (opponents_pieces_list b) 0
                (_piece_captured_index b)) as [E | (k & E & Hk)].
    + now rewrite E.
    + rewrite E. intros k' E'. injection E' as <-. lia.
Qed.

Lemma board_invariant_failure depth b move_from move_to b' :
  board_invariant b ->
  execute_move depth b move_from move_to = Ret (false, b') ->
  board_invariant b'.
Proof.
  intros [Hp Hc Ht Hm Hcap] Hmove.
  destruct (execute_move_failure _ _ _ _ _ Hmove) as (F1 & F2 & F3 & F4 & F5 & F6).
  destruct (execute_move_failure_occupancy _ _ _ _ _ Hmove)
    as [-> | (f & r & Hb & _ & Hall & Hidx)]; [constructor; assumption|].
  pose proof (square_range f r Hb) as Hsq.
  constructor.
  - destruct Hp as [H1 H2 H3 H4 H5 H6 H7].
    constructor; rewrite ?F2, ?F3, ?F4, ?F5; assumption.
  - intros n Hn. rewrite F4, F5 in Hn. apply Hc in Hn.
    rewrite Hall, Z.lor_spec, Hn. reflexivity.
  - now rewrite F1.
  - destruct Hidx as [-> | (idx & x & Hx & _ & ->)]; [exact Hm|].
    intros k E. injection E as <-.
    apply lookup_lt_Some in Hx. unfold own_pieces_list in Hx.
    destruct Hp as [H1 H2 _ _ _ _ _]. destruct (white_to_move b); lia.
  - now rewrite F6.
Qed.

Lemma in_play_board_invariant b : in_play b -> board_invariant b.
Proof.
  induction 1 as [|depth b mf mt ok b' _ IH Hmove|b _ IH|b name b' _ IH Hget|b name b' _ IH Hget].
  - exact board_invariant_setup.
  - destruct ok.
    + exact (board_invariant_success depth b mf mt b' IH Hmove).
    + exact (board_invariant_failure depth b mf mt b' IH Hmove).
  - destruct IH as [[H1 H2 H3 H4 H5 H6 H7] Hc Ht Hm Hcap].
    unfold set_next_turn. destruct (white_to_move b);
      (constructor; [constructor; assumption | exact Hc | cbn; auto | exact Hm | exact Hcap]).
  - unfold get_piece_moved in Hget.
    destruct (_piece_moved_index b) as [i|]; cbn [index_of bind] in Hget; [|discriminate].
    destruct (_piece_names !! i); [|discriminate]. injection Hget as _ <-.
    destruct IH as [[H1 H2 H3 H4 H5 H6 H7] Hc Ht Hm Hcap].
    constructor; [constructor; assumption | exact Hc | exact Ht | | exact Hcap].
    intros k E. discriminate.
  - unfold get_piece_captured in Hget.
    destruct (_piece_captured_index b) as [i|] eqn:Ei.
    + destruct (_piece_names !! i); [|discriminate]. injection Hget as _ <-.
      destruct IH as [[H1 H2 H3 H4 H5 H6 H7] Hc Ht Hm Hcap].
      constructor; [constructor; assumption | exact Hc | exact Ht | exact Hm |].
      intros k E. discriminate.
    + injection Hget as _ <-. exact IH.
Qed.

Lemma in_play_after_rejected_e4 : in_play after_rejected_e4.
Proof.
  apply (in_play_move 8 setup_new_board "E4" "E5" false); [apply in_play_init|].
  vm_compute. reflexivity.
Qed.

(** X6: On every board reached by whatever calls of the public methods,
    rejected moves included: the piece masks and side masks are consistent,
    every square of a piece is marked in the all-pieces mask, the turn is
    "White" or "Black", and the moved-piece and captured-piece fields are
    empty or hold an index below six. *)
Theorem in_play_invariants (b : Board) :
  in_play b ->
  pieces_consistent b /\
  (forall n, Z.testbit (Z.lor (_all_white_pieces_bb b) (_all_black_pieces_bb b)) n = true ->
             Z.testbit (_all_pieces_bb b) n = true) /\
  (_current_turn b = "White" \/ _current_turn b = "Black") /\
  (forall k, _piece_moved_index b = Some k -> (k < 6)%nat) /\
  (forall k, _piece_captured_index b = Some k -> (k < 6)%nat).
Proof.
  intros H. destruct (in_play_board_invariant b H) as [Hp Hc Ht Hm Hcap].
  repeat split; try assumption; apply Hp.
Qed.

Lemma in_play_invariants_witness :
  in_play after_rejected_e4 /\
  (forall n, Z.testbit (Z.lor (_all_white_pieces_bb after_rejected_e4)
                              (_all_black_pieces_bb after_rejected_e4)) n = true ->
             Z.testbit (_all_pieces_bb after_rejected_e4) n = true).
Proof.
  split; [exact in_play_after_rejected_e4|].
  exact (proj1 (proj2 (in_play_invariants after_rejected_e4 in_play_after_rejected_e4))).
Defined.

(** X7: On a board in play, two calls of [set_next_turn] give the board back,
    and one call changes nothing but the turn. *)
Theorem set_next_turn_twice (b : Board) :
  in_play b ->
  set_next_turn (set_next_turn b) = b /\
  _current_turn (set_next_turn b) <> _current_turn b /\
  set_current_turn (_current_turn b) (set_next_turn b) = b.
Proof.
  intros H. destruct (in_play_board_invariant b H) as [_ _ Ht _ _].
  destruct b as [turn mi ci wl bl W B A]. cbn in Ht.
  destruct Ht as [-> | ->]; repeat split; try reflexivity; cbn; discriminate.
Qed.

Lemma set_next_turn_twice_witness :
  in_play after_rejected_e4 /\
  set_next_turn (set_next_turn after_rejected_e4) = after_rejected_e4.
Proof.
  split; [exact in_play_after_rejected_e4|].
  exact (proj1 (set_next_turn_twice after_rejected_e4 in_play_after_rejected_e4)).
Defined.

(** ** Which generator runs, and what each kind may do *)

Lemma disjoint_testbit a x i :
  Z.land a x = 0 -> Z.testbit x i = true -> Z.testbit a i = false.
Proof.
  intros H Hx. apply (f_equal (fun z => Z.testbit z i)) in H.
  rewrite Z.land_spec, Hx, andb_true_r, Z.bits_0 in H. exact H.
Qed.

(** The mask that holds the origin decides the generator, whatever its
    position in the list, because no other mask of the side holds it. *)
Lemma find_valid_moves_at depth self i idx x :
  0 <= i ->
  pairwise_disjoint (own_pieces_list self) ->
  length (own_pieces_list self) = 6%nat ->
  own_pieces_list self !! idx = Some x ->
  Z.testbit x i = true ->
  find_valid_moves depth self (bit i) =
  let self' := set_piece_moved_index (Some idx) self in
  let* moves := piece_moves depth self' idx (bit i) in
  Ret (Z.land moves (Z.lnot (own_bb self)), self').
Proof.
  intros Hi Hpd Hlen Hx Hxi.
  assert (Hothers : forall j y, j <> idx -> own_pieces_list self !! j = Some y ->
                      truthy (Z.land y (bit i)) = false).
  { intros j y Hne Hy. rewrite truthy_land_bit_r by assumption.
    eapply disjoint_testbit; [|exact Hxi]. exact (Hpd j idx y x Hne Hy Hx). }
  assert (Hhit : truthy (Z.land x (bit i)) = true)
    by (rewrite truthy_land_bit_r by assumption; exact Hxi).
  unfold find_valid_moves, own_pieces_list, own_bb, white_to_move in *.
  destruct self as [turn mi ci wl bl W B A]. cbn in Hpd, Hlen, Hx, Hothers |- *.
  destruct (String.eqb turn "White");
    match type of Hlen with
    | length ?lst = _ =>
      destruct lst as [|p0 [|p1 [|p2 [|p3 [|p4 [|p5 [|p6 rest]]]]]]]; try discriminate Hlen
    end;
    cbn [list_get lookup list_lookup bind];
    (do 6 (destruct idx as [|idx];
           [ injection Hx as ->;
             repeat match goal with
                    | |- context [truthy (Z.land ?p (bit i))] =>
                      first [ rewrite Hhit
                            | rewrite (Hothers 0%nat p ltac:(lia) eq_refl)
                            | rewrite (Hothers 1%nat p ltac:(lia) eq_refl)
                            | rewrite (Hothers 2%nat p ltac:(lia) eq_refl)
                            | rewrite (Hothers 3%nat p ltac:(lia) eq_refl)
                            | rewrite (Hothers 4%nat p ltac:(lia) eq_refl) ]
                    end;
             reflexivity
           | ]));
    destruct idx; discriminate Hx.
Qed.

(** X8: The legal destinations of a knight of the side to move: the squares of
    the board an L-shaped jump away that hold no piece of its own side. *)
Theorem knight_destinations (depth : nat) (self : Board) (f r knights : Z) :
  on_board f r ->
  pairwise_disjoint (own_pieces_list self) ->
  length (own_pieces_list self) = 6%nat ->
  own_pieces_list self !! 2%nat = Some knights ->
  Z.testbit knights (square f r) = true ->
  exists legal,
    find_valid_moves depth self (bit (square f r))
      = Ret (legal, set_piece_moved_index (Some 2%nat) self) /\
    forall f' r', on_board f' r' ->
      (Z.testbit legal (square f' r') = true <->
       l_shaped f r f' r' /\ Z.testbit (own_bb self) (square f' r') = false).
Proof.
  intros Hb Hpd Hlen Hk Hki. pose proof (square_range f r Hb) as Hsq.
  rewrite (find_valid_moves_at depth self (square f r) 2 knights) by (assumption || lia).
  cbn [piece_moves bind]. eexists. split; [reflexivity|].
  intros f' r' Hb'. pose proof (square_range f' r' Hb') as Hsq'.
  rewrite Z.land_spec, Z.lnot_spec, knight_squares_check, andb_true_iff, negb_true_iff,
    l_shapedb_spec by (assumption || lia).
  reflexivity.
Qed.

Lemma knight_destinations_witness :
  on_board 1 0 /\
  pairwise_disjoint (own_pieces_list setup_new_board) /\
  length (own_pieces_list setup_new_board) = 6%nat /\
  own_pieces_list setup_new_board !! 2%nat = Some 0x42 /\
  Z.testbit 0x42 (square 1 0) = true /\
  exists legal,
    find_valid_moves 8 setup_new_board (bit (square 1 0))
      = Ret (legal, set_piece_moved_index (Some 2%nat) setup_new_board).
Proof.
  assert (Hb : on_board 1 0) by (unfold on_board; lia).
  assert (Hpd : pairwise_disjoint (own_pieces_list setup_new_board))
    by exact (white_disjoint _ consistent_setup_new_board).
  assert (Hlen : length (own_pieces_list setup_new_board) = 6%nat) by reflexivity.
  assert (Hk : own_pieces_list setup_new_board !! 2%nat = Some 0x42) by reflexivity.
  assert (Hki : Z.testbit 0x42 (square 1 0) = true) by reflexivity.
  split; [exact Hb|]. split; [exact Hpd|]. split; [exact Hlen|].
  split; [exact Hk|]. split; [exact Hki|].
  destruct (knight_destinations 8 setup_new_board 1 0 0x42 Hb Hpd Hlen Hk Hki)
    as (legal & Hfind & _).
  exists legal. exact Hfind.
Defined.

(** The union of the rays of several directions. *)
Lemma generate_moves_rays self depth f r dirs :
  on_board f r -> (8 <= depth)%nat ->
  exists moves,
    generate_moves depth self (bit (square f r)) (map dir_code dirs) None = Ret moves /\
    forall j, Z.testbit moves j = true <->
      exists d, In d dirs /\ reaches_from (_all_pieces_bb self) f r d j.
Proof.
  intros Hb Hdepth. induction dirs as [|d dirs (others & Hothers & Hspec)].
  - exists 0. split; [reflexivity|]. intros j. rewrite Z.bits_0.
    split; [discriminate | intros (d & [] & _)].
  - cbn [map]. rewrite generate_moves_cons.
    destruct (recc_spec d self depth f r Hb) as (first & Hfirst & Hfspec).
    { unfold on_board, edge_dist in *. destruct d; lia. }
    rewrite Hfirst, Hothers. cbn [bind]. eexists. split; [reflexivity|].
    intros j. destruct (Z.neg_nonneg_cases j) as [Hneg|Hnn].
    + rewrite Z.testbit_neg_r by assumption. split; [discriminate|].
      intros (d' & _ & (k & _ & Hon & -> & _)). apply square_range in Hon. lia.
    + rewrite Z.lor_spec, orb_true_iff, Hfspec, Hspec. split.
      * intros [H | (d' & Hin & H)]; [exists d | exists d']; simpl; auto.
      * intros (d' & [<- | Hin] & H); [left | right; exists d']; auto.
Qed.

Lemma step_square_ne d f r m :
  on_board f r -> on_board (step_file d f m) (step_rank d r m) -> 1 <= m ->
  square f r <> square (step_file d f m) (step_rank d r m).
Proof.
  unfold on_board, step_file, step_rank, square. intros Hb Hon Hm.
  destruct d; simpl in *; lia.
Qed.

(** Rays do not see whether the origin bit is in the occupancy of the
    squares they pass: clearing it changes no reached square. *)
Lemma reaches_clear_origin occ f r d j :
  on_board f r ->
  reaches (Z.land occ (Z.lnot (bit (square f r)))) f r d j <-> reaches occ f r d j.
Proof.
  intros Hb. pose proof (square_range f r Hb) as Hsq.
  assert (Hsame : forall k m, on_board (step_file d f k) (step_rank d r k) -> 1 <= m < k ->
            Z.testbit (Z.land occ (Z.lnot (bit (square f r))))
              (square (step_file d f m) (step_rank d r m)) =
            Z.testbit occ (square (step_file d f m) (step_rank d r m))).
  { intros k m Hon Hm.
    pose proof (on_board_between d f r k m Hb Hon ltac:(lia)) as Honm.
    pose proof (square_range _ _ Honm) as Hsqm.
    rewrite Z.land_spec, Z.lnot_spec, testbit_bit by lia.
    destruct (Z.eqb_spec (square f r) (square (step_file d f m) (step_rank d r m))) as [E|_].
    - exfalso. exact (step_square_ne d f r m Hb Honm ltac:(lia) E).
    - apply andb_true_r. }
  split; intros (k & Hk & Hon & Hj & Hfree); exists k; repeat split; try lia; try apply Hon;
    try exact Hj; intros m Hm; specialize (Hfree m Hm).
  - now rewrite (Hsame k m Hon Hm) in Hfree.
  - now rewrite (Hsame k m Hon Hm).
Qed.

(** X9: The legal destinations of a Rook, a Bishop or a Queen of the side to
    move, generated as [execute_move] does with the origin bit cleared: the
    squares reached along one of the kind's directions (up to and including
    the first occupied square, not past the edge) that hold no piece of its
    own side. *)
Theorem slider_destinations (depth : nat) (b : Board) (idx : nat) (f r x : Z) :
  (8 <= depth)%nat -> on_board f r ->
  idx = 1%nat \/ idx = 3%nat \/ idx = 4%nat ->
  pairwise_disjoint (own_pieces_list b) ->
  length (own_pieces_list b) = 6%nat ->
  own_pieces_list b !! idx = Some x ->
  Z.testbit x (square f r) = true ->
  exists legal,
    find_valid_moves depth (clear_origin b (bit (square f r))) (bit (square f r))
      = Ret (legal, set_piece_moved_index (Some idx) (clear_origin b (bit (square f r)))) /\
    forall j, Z.testbit legal j = true <->
      (exists d, In d (slider_dirs idx) /\ reaches (_all_pieces_bb b) f r d j) /\
      Z.testbit (own_bb b) j = false.
Proof.
  intros Hdepth Hb Hidx Hpd Hlen Hx Hxi. pose proof (square_range f r Hb) as Hsq.
  rewrite (find_valid_moves_at depth (clear_origin b (bit (square f r))) (square f r) idx x)
    by (assumption || lia).
  cbv zeta.
  set (self' := set_piece_moved_index (Some idx) (clear_origin b (bit (square f r)))).
  destruct (generate_moves_rays self' depth f r (slider_dirs idx) Hb Hdepth)
    as (moves & Hmoves & Hspec).
  assert (Hgen : piece_moves depth self' idx (bit (square f r)) = Ret moves).
  { destruct Hidx as [-> | [-> | ->]]; exact Hmoves. }
  rewrite Hgen. cbn [bind]. eexists. split; [reflexivity|].
  assert (Hfree : Z.testbit (_all_pieces_bb self') (square f r) = false).
  { subst self'. cbn [_all_pieces_bb set_piece_moved_index].
    rewrite testbit_clear_origin, Z.eqb_refl by lia. apply andb_false_r. }
  intros j. destruct (Z.neg_nonneg_cases j) as [Hneg|Hnn].
  - rewrite Z.testbit_neg_r by assumption. split; [discriminate|].
    intros [(d & _ & Hr) _]. apply reaches_on_board in Hr. lia.
  - rewrite Z.land_spec, Z.lnot_spec, andb_true_iff, negb_true_iff, Hspec by lia.
    change (own_bb (clear_origin b (bit (square f r)))) with (own_bb b).
    assert (Hocc : _all_pieces_bb self' =
                   Z.land (_all_pieces_bb b) (Z.lnot (bit (square f r)))) by reflexivity.
    split; intros [(d & Hin & Hr) Hown]; (split; [exists d; split; [exact Hin|] | exact Hown]).
    + apply (reaches_from_iff _ _ _ _ _ Hfree) in Hr. rewrite Hocc in Hr.
      exact (proj1 (reaches_clear_origin _ f r d j Hb) Hr).
    + apply (reaches_from_iff _ _ _ _ _ Hfree). rewrite Hocc.
      exact (proj2 (reaches_clear_origin _ f r d j Hb) Hr).
Qed.

Lemma slider_destinations_witness :
  (8 <= 8)%nat /\ on_board 0 0 /\
  pairwise_disjoint (own_pieces_list setup_new_board) /\
  own_pieces_list setup_new_board !! 1%nat = Some 0x81 /\
  Z.testbit 0x81 (square 0 0) = true /\
  exists legal,
    find_valid_moves 8 (clear_origin setup_new_board (bit (square 0 0))) (bit (square 0 0))
      = Ret (legal, set_piece_moved_index (Some 1%nat)
                      (clear_origin setup_new_board (bit (square 0 0)))).
Proof.
  assert (Hd : (8 <= 8)%nat) by lia.
  assert (Hb : on_board 0 0) by (unfold on_board; lia).
  assert (Hpd : pairwise_disjoint (own_pieces_list setup_new_board))
    by exact (white_disjoint _ consistent_setup_new_board).
  assert (Hlen : length (own_pieces_list setup_new_board) = 6%nat) by reflexivity.
  assert (Hk : own_pieces_list setup_new_board !! 1%nat = Some 0x81) by reflexivity.
  assert (Hki : Z.testbit 0x81 (square 0 0) = true) by reflexivity.
  split; [exact Hd|]. split; [exact Hb|]. split; [exact Hpd|].
  split; [exact Hk|]. split; [exact Hki|].
  destruct (slider_destinations 8 setup_new_board 1 0 0 0x81 Hd Hb (or_introl eq_refl)
              Hpd Hlen Hk Hki) as (legal & Hfind & _).
  exists legal. exact Hfind.
Defined.

(** With a move limit of one, the generator gives the neighbouring squares
    of the board in the given directions, whatever stands on them. *)
Lemma generate_moves_steps self depth f r dirs :
  on_board f r -> (2 <= depth)%nat ->
  Z.testbit (_all_pieces_bb self) (square f r) = false ->
  exists moves,
    generate_moves depth self (bit (square f r)) (map dir_code dirs) (Some 1) = Ret moves /\
    forall j, Z.testbit moves j = true <->
      exists d, In d dirs /\ on_board (f + dfile d) (r + drank d) /\
                j = square (f + dfile d) (r + drank d).
Proof.
  intros Hb Hdepth Hfree. destruct depth as [|[|depth]]; [lia | lia |].
  induction dirs as [|d dirs (others & Hothers & Hspec)].
  - exists 0. split; [reflexivity|]. intros j. rewrite Z.bits_0.
    split; [discriminate | intros (d & [] & _)].
  - cbn [map]. rewrite generate_moves_cons, recc_limit_1_square, Hothers by assumption.
    cbn [bind]. eexists. split; [reflexivity|].
    intros j. rewrite Z.lor_spec, orb_true_iff, Hspec, testbit_opt_bit, andb_true_iff,
      on_boardb_spec, Z.eqb_eq.
    + split.
      * intros [[Hon Hj] | (d' & Hin & H)]; [exists d | exists d']; simpl; auto.
      * intros (d' & [<- | Hin] & Hon & Hj); [left | right; exists d']; auto.
    + intros Hon. apply on_boardb_spec, square_range in Hon. lia.
Qed.

Lemma adjacent_step f r f' r' :
  adjacent f r f' r' <->
  exists d, In d [N; S; E; W; NW; NE; SE; SW] /\ f' = f + dfile d /\ r' = r + drank d.
Proof.
  unfold adjacent. split.
  - intros H.
    assert (Hc : (f' - f = -1 \/ f' - f = 0 \/ f' - f = 1) /\
                 (r' - r = -1 \/ r' - r = 0 \/ r' - r = 1) /\
                 (f' - f <> 0 \/ r' - r <> 0)) by lia.
    destruct Hc as ([Hf | [Hf | Hf]] & [Hr | [Hr | Hr]] & Hne);
      [exists SW | exists W | exists NW | exists S | lia | exists N
       | exists SE | exists E | exists NE]; simpl; (split; [tauto | lia]).
  - intros (d & Hin & -> & ->). destruct d; simpl in *; lia.
Qed.

(** X10: The legal destinations of the King of the side to move, generated as
    [execute_move] does with the origin bit cleared: the squares of the
    board next to it (diagonals included) that hold no piece of its own
    side. *)
Theorem king_destinations (depth : nat) (b : Board) (f r king : Z) :
  (2 <= depth)%nat -> on_board f r ->
  pairwise_disjoint (own_pieces_list b) ->
  length (own_pieces_list b) = 6%nat ->
  own_pieces_list b !! 5%nat = Some king ->
  Z.testbit king (square f r) = true ->
  exists legal,
    find_valid_moves depth (clear_origin b (bit (square f r))) (bit (square f r))
      = Ret (legal, set_piece_moved_index (Some 5%nat) (clear_origin b (bit (square f r)))) /\
    forall f' r', on_board f' r' ->
      (Z.testbit legal (square f' r') = true <->
       adjacent f r f' r' /\ Z.testbit (own_bb b) (square f' r') = false).
Proof.
  intros Hdepth Hb Hpd Hlen Hx Hxi. pose proof (square_range f r Hb) as Hsq.
  rewrite (find_valid_moves_at depth (clear_origin b (bit (square f r))) (square f r) 5 king)
    by (assumption || lia).
  cbv zeta.
  set (self' := set_piece_moved_index (Some 5%nat) (clear_origin b (bit (square f r)))).
  assert (Hfree : Z.testbit (_all_pieces_bb self') (square f r) = false).
  { subst self'. cbn [_all_pieces_bb set_piece_moved_index].
    rewrite testbit_clear_origin, Z.eqb_refl by lia. apply andb_false_r. }
  destruct (generate_moves_steps self' depth f r [N; S; E; W; NW; NE; SE; SW] Hb Hdepth Hfree)
    as (moves & Hmoves & Hspec).
  assert (Hgen : piece_moves depth self' 5 (bit (square f r)) = Ret moves) by exact Hmoves.
  rewrite Hgen. cbn [bind]. eexists. split; [reflexivity|].
  intros f' r' Hb'. pose proof (square_range f' r' Hb') as Hsq'.
  rewrite Z.land_spec, Z.lnot_spec, andb_true_iff, negb_true_iff, Hspec, adjacent_step by lia.
  change (own_bb (clear_origin b (bit (square f r)))) with (own_bb b).
  split; intros [(d & Hin & H) Hown]; (split; [exists d; split; [exact Hin|] | exact Hown]).
  - destruct H as [Hon Heq]. apply square_inj in Heq; [exact Heq | exact Hb' | exact Hon].
  - destruct H as [-> ->]. split; [exact Hb' | reflexivity].
Qed.

Lemma king_destinations_witness :
  (2 <= 8)%nat /\ on_board 4 0 /\
  pairwise_disjoint (own_pieces_list setup_new_board) /\
  own_pieces_list setup_new_board !! 5%nat = Some 0x10 /\
  Z.testbit 0x10 (square 4 0) = true /\
  exists legal,
    find_valid_moves 8 (clear_origin setup_new_board (bit (square 4 0))) (bit (square 4 0))
      = Ret (legal, set_piece_moved_index (Some 5%nat)
                      (clear_origin setup_new_board (bit (square 4 0)))).
Proof.
  assert (Hd : (2 <= 8)%nat) by lia.
  assert (Hb : on_board 4 0) by (unfold on_board; lia).
  assert (Hpd : pairwise_disjoint (own_pieces_list setup_new_board))
    by exact (white_disjoint _ consistent_setup_new_board).
  assert (Hlen : length (own_pieces_list setup_new_board) = 6%nat) by reflexivity.
  assert (Hk : own_pieces_list setup_new_board !! 5%nat = Some 0x10) by reflexivity.
  assert (Hki : Z.testbit 0x10 (square 4 0) = true) by reflexivity.
  split; [exact Hd|]. split; [exact Hb|]. split; [exact Hpd|].
  split; [exact Hk|]. split; [exact Hki|].
  destruct (king_destinations 8 setup_new_board 4 0 0x10 Hd Hb Hpd Hlen Hk Hki)
    as (legal & Hfind & _).
  exists legal. exact Hfind.
Defined.

(** ** Which moves are accepted, and what an accepted move does *)

Lemma same_upper_same_square s t :
  upper s = upper t -> convert_to_bitboard (PyStr s) = convert_to_bitboard (PyStr t).
Proof.
  intros H. rewrite <- (convert_to_bitboard_upper s), <- (convert_to_bitboard_upper t).
  now rewrite H.
Qed.

(** X11: For two labels of squares, on a board whose six masks of the side to move
    are pairwise disjoint, a call of [execute_move] that returns answers
    [True] exactly when the two squares differ, a piece of the side to move
    stands on the origin, and the destination is among the moves generated
    for its kind (with the origin taken out of the occupancy) and holds no
    piece of the same side. *)
Theorem move_accepted_iff (depth : nat) (b b' : Board) (move_from move_to : string)
    (f r f' r' : Z) (ok : bool) :
  on_board f r -> on_board f' r' ->
  convert_to_bitboard (PyStr move_from) = Ret (Some (bit (square f r))) ->
  convert_to_bitboard (PyStr move_to) = Ret (Some (bit (square f' r'))) ->
  pairwise_disjoint (own_pieces_list b) ->
  length (own_pieces_list b) = 6%nat ->
  execute_move depth b move_from move_to = Ret (ok, b') ->
  (ok = true <->
   square f r <> square f' r' /\
   exists idx x moves,
     own_pieces_list b !! idx = Some x /\
     Z.testbit x (square f r) = true /\
     piece_moves depth (set_piece_moved_index (Some idx) (clear_origin b (bit (square f r))))
       idx (bit (square f r)) = Ret moves /\
     Z.testbit moves (square f' r') = true /\
     Z.testbit (own_bb b) (square f' r') = false).
Proof.
  intros Hb Hb' Hfrom Hto Hpd Hlen Hmove.
  pose proof (square_range f r Hb) as Hsq. pose proof (square_range f' r' Hb') as Hsq'.
  split.
  - intros ->. split.
    + intros E. rewrite <- E in Hto.
      rewrite (same_square_move_rejected_aux depth b move_from move_to _ Hfrom Hto) in Hmove.
      discriminate.
    + destruct (execute_move_success _ _ _ _ _ Hmove)
        as (f0 & r0 & f0' & r0' & idx & x & legal & Hb0 & Hb0' & Hfrom0 & Hto0 & Hx & Hxi & Hown
            & Hfind & Hlegal & _).
      pose proof (square_range f0 r0 Hb0) as Hsq0.
      pose proof (square_range f0' r0' Hb0') as Hsq0'.
      rewrite Hfrom in Hfrom0. injection Hfrom0 as E. apply bit_inj in E; [|lia|lia].
      rewrite Hto in Hto0. injection Hto0 as E'. apply bit_inj in E'; [|lia|lia].
      rewrite <- E in *. rewrite <- E' in *.
      rewrite (find_valid_moves_at depth (clear_origin b (bit (square f r))) (square f r) idx x)
        in Hfind by (assumption || lia).
      cbv zeta in Hfind.
      destruct (piece_moves depth
                  (set_piece_moved_index (Some idx) (clear_origin b (bit (square f r))))
                  idx (bit (square f r))) as [moves|e] eqn:Hgen; cbn [bind] in Hfind;
        [|discriminate].
      injection Hfind as <-.
      rewrite Z.land_spec, andb_true_iff in Hlegal.
      exists idx, x, moves. repeat split; try assumption. exact (proj1 Hlegal).
  - intros (Hne & idx & x & moves & Hx & Hxi & Hgen & Hmoves & Hown).
    unfold execute_move in Hmove.
    destruct (String.eqb (upper move_from) (upper move_to)) eqn:Hsame.
    { apply String.eqb_eq, same_upper_same_square in Hsame.
      rewrite Hfrom, Hto in Hsame. injection Hsame as E.
      apply bit_inj in E; [contradiction | lia | lia]. }
    rewrite Hfrom, Hto in Hmove. cbn [bind] in Hmove.
    fold (clear_origin b (bit (square f r))) in Hmove.
    rewrite (find_valid_moves_at depth (clear_origin b (bit (square f r))) (square f r) idx x)
      in Hmove by (assumption || lia).
    cbv zeta in Hmove. rewrite Hgen in Hmove. cbn [bind] in Hmove.
    cbn [_piece_moved_index set_piece_moved_index] in Hmove.
    rewrite land_bit_l in Hmove by lia.
    change (own_bb (clear_origin b (bit (square f r)))) with (own_bb b) in Hmove.
    rewrite Z.land_spec, Z.lnot_spec, Hmoves, Hown in Hmove by lia. cbn [andb negb] in Hmove.
    destruct (Z.eqb_spec (bit (square f' r')) 0) as [E|_].
    { now apply bit_nonzero in E. }
    destruct (update_bitboards _ _ _); cbn [bind] in Hmove; [|discriminate].
    now injection Hmove as <- _.
Qed.

Lemma move_accepted_iff_witness :
  exists b',
    execute_move 8 setup_new_board "E2" "e4" = Ret (true, b') /\
    square 4 1 <> square 4 3.
Proof.
  assert (Hb : on_board 4 1) by (unfold on_board; lia).
  assert (Hb' : on_board 4 3) by (unfold on_board; lia).
  assert (Hfrom : convert_to_bitboard (PyStr "E2") = Ret (Some (bit (square 4 1))))
    by reflexivity.
  assert (Hto : convert_to_bitboard (PyStr "e4") = Ret (Some (bit (square 4 3))))
    by reflexivity.
  assert (Hpd : pairwise_disjoint (own_pieces_list setup_new_board))
    by exact (white_disjoint _ consistent_setup_new_board).
  assert (Hlen : length (own_pieces_list setup_new_board) = 6%nat) by reflexivity.
  assert (Hmove : {b' | execute_move 8 setup_new_board "E2" "e4" = Ret (true, b')})
    by (eexists; vm_compute; reflexivity).
  destruct Hmove as [b' Hmove]. exists b'. split; [exact Hmove|].
  exact (proj1 (proj1 (move_accepted_iff 8 setup_new_board b' "E2" "e4" 4 1 4 3 true
                         Hb Hb' Hfrom Hto Hpd Hlen Hmove) eq_refl)).
Defined.

(** X12: An accepted move, on a board with consistent piece masks, moves one
    piece of the side to move and nothing else of that side: the mask of its
    kind loses the origin bit and gains the destination bit, the other five
    masks of the side are as before, every mask of the other side loses the
    destination bit, the occupancy loses the origin and gains the
    destination, and [get_piece_moved] then names the kind. *)
Theorem accepted_move_effect (depth : nat) (b b' : Board) (move_from move_to : string) :
  pieces_consistent b ->
  execute_move depth b move_from move_to = Ret (true, b') ->
  exists f r f' r' idx x name,
    on_board f r /\ on_board f' r' /\ square f r <> square f' r' /\
    convert_to_bitboard (PyStr move_from) = Ret (Some (bit (square f r))) /\
    convert_to_bitboard (PyStr move_to) = Ret (Some (bit (square f' r'))) /\
    own_pieces_list b !! idx = Some x /\
    Z.testbit x (square f r) = true /\
    own_pieces_list b' =
      <[idx := Z.lor (Z.land x (Z.lnot (bit (square f r)))) (bit (square f' r'))]>
        (own_pieces_list b) /\
    opponents_pieces_list b' = map (clear_bits (bit (square f' r'))) (opponents_pieces_list b) /\
    _all_pieces_bb b' =
      Z.lor (Z.land (_all_pieces_bb b) (Z.lnot (bit (square f r)))) (bit (square f' r')) /\
    _current_turn b' = _current_turn b /\
    _piece_names !! idx = Some name /\
    get_piece_moved b' = Ret (name, set_piece_moved_index None b').
Proof.
  intros Hcons Hmove.
  destruct (execute_move_success _ _ _ _ _ Hmove)
    as (f & r & f' & r' & idx & x & legal & Hb & Hb' & Hfrom & Hto & Hx & Hxi & Hown & _ & _
        & Hupd).
  pose proof (square_range f r Hb) as Hsq. pose proof (square_range f' r' Hb') as Hsq'.
  pose proof (proj1 (pieces_sides_iff b) Hcons) as Hsides.
  destruct (moved_board_sides b (square f r) (square f' r') idx x b'
              ltac:(lia) ltac:(lia) Hsides Hx Hxi Hown Hupd)
    as (M1 & M2 & M3 & _ & _ & M6 & M7 & _).
  destruct Hsides as (Hlen & _ & _ & _ & Hunion & _).
  pose proof (lookup_lt_Some _ _ _ Hx) as Hidx. rewrite Hlen in Hidx.
  assert (Hname : exists name, _piece_names !! idx = Some name).
  { apply lookup_lt_is_Some_2. exact Hidx. }
  destruct Hname as [name Hname].
  exists f, r, f', r', idx, x, name.
  split; [exact Hb|]. split; [exact Hb'|]. split.
  { intros E. rewrite <- E in Hown.
    assert (Hsub : Z.land x (own_bb b) = x).
    { rewrite Hunion. exact (union_bb_lookup_subset _ _ _ Hx). }
    apply (f_equal (fun z => Z.testbit z (square f r))) in Hsub.
    rewrite Z.land_spec, Hxi, Hown in Hsub. discriminate. }
  split; [exact Hfrom|]. split; [exact Hto|]. split; [exact Hx|]. split; [exact Hxi|].
  split; [exact M2|]. split; [exact M3|]. split; [exact M6|]. split; [exact M1|].
  split; [exact Hname|].
  unfold get_piece_moved. rewrite M7. cbn [index_of bind]. now rewrite Hname.
Qed.

Lemma accepted_move_effect_witness :
  exists b' name,
    pieces_consistent setup_new_board /\
    execute_move 8 setup_new_board "G1" "F3" = Ret (true, b') /\
    get_piece_moved b' = Ret (name, set_piece_moved_index None b').
Proof.
  assert (Hcons : pieces_consistent setup_new_board)
    by exact (consistent_pieces _ consistent_setup_new_board).
  assert (Hmove : {b' | execute_move 8 setup_new_board "G1" "F3" = Ret (true, b')})
    by (eexists; vm_compute; reflexivity).
  destruct Hmove as [b' Hmove].
  destruct (accepted_move_effect 8 setup_new_board b' "G1" "F3" Hcons Hmove)
    as (f & r & f' & r' & idx & x & name & _ & _ & _ & _ & _ & _ & _ & _ & _ & _ & _ & _ & Hget).
  exists b', name.
  split; [exact Hcons|]. split; [exact Hmove|]. exact Hget.
Defined.

(** ** Games driven by [make_move] *)

(** The one way [make_move] answers [True]. *)
Lemma make_move_success depth g move_from move_to g' :
  make_move depth g move_from move_to = Ret (true, g') ->
  get_game_state g = "UNFINISHED" /\
  exists b1 name b2 captured b3,
    execute_move depth (_board g) move_from move_to = Ret (true, b1) /\
    get_piece_moved b1 = Ret (name, b2) /\
    get_piece_captured b2 = Ret (captured, b3) /\
    g' = {| _game_state :=
              get_game_state {| _game_state := _game_state g;
                                _previous_move := _previous_move g;
                                _board := b1 |};
            _previous_move := Some (get_turn b1, name, move_from, move_to, captured);
            _board := set_next_turn b3 |}.
Proof.
  unfold make_move. intros H.
  destruct (String.eqb (get_game_state g) "UNFINISHED") eqn:Hstate; cbn [negb] in H;
    [|discriminate].
  apply String.eqb_eq in Hstate. split; [exact Hstate|].
  destruct (execute_move depth (_board g) move_from move_to) as [[[|] b1]|] eqn:Hexec;
    cbn [bind negb] in H; try discriminate.
  unfold update_display in H. cbn [_board _game_state _previous_move] in H.
  destruct (get_piece_moved b1) as [[name b2]|] eqn:Hmoved; cbn [bind] in H; [|discriminate].
  destruct (get_piece_captured b2) as [[captured b3]|] eqn:Hcap; cbn [bind] in H;
    [|discriminate].
  cbn [_board _game_state _previous_move] in H.
  injection H as <-. exists b1, name, b2, captured, b3.
  split; [reflexivity|]. split; [exact Hmoved|]. split; [exact Hcap | reflexivity].
Qed.

(** The two ways [make_move] answers [False]. *)
Lemma make_move_failure depth g move_from move_to g' :
  make_move depth g move_from move_to = Ret (false, g') ->
  g' = g \/
  exists b1, execute_move depth (_board g) move_from move_to = Ret (false, b1) /\
             g' = {| _game_state := _game_state g;
                     _previous_move := _previous_move g;
                     _board := b1 |}.
Proof.
  unfold make_move. intros H.
  destruct (String.eqb (get_game_state g) "UNFINISHED"); cbn [negb] in H.
  2:{ injection H as <-. now left. }
  destruct (execute_move depth (_board g) move_from move_to) as [[[|] b1]|] eqn:Hexec;
    cbn [bind negb] in H; try discriminate.
  - destruct (update_display _ _ _); discriminate.
  - injection H as <-. right. exists b1. split; reflexivity.
Qed.

Lemma get_piece_moved_inv b name b' :
  get_piece_moved b = Ret (name, b') ->
  exists idx, _piece_moved_index b = Some idx /\ _piece_names !! idx = Some name /\
              b' = set_piece_moved_index None b.
Proof.
  unfold get_piece_moved. intros H.
  destruct (_piece_moved_index b) as [idx|]; cbn [index_of bind] in H; [|discriminate].
  destruct (_piece_names !! idx) as [n|] eqn:E; [|discriminate].
  injection H as <- <-. exists idx. repeat split. exact E.
Qed.

Lemma get_piece_captured_inv b captured b' :
  get_piece_captured b = Ret (captured, b') ->
  _piece_captured_index b' = None /\
  _current_turn b' = _current_turn b /\
  _piece_moved_index b' = _piece_moved_index b /\
  _white_pieces_list b' = _white_pieces_list b /\
  _black_pieces_list b' = _black_pieces_list b /\
  _all_white_pieces_bb b' = _all_white_pieces_bb b /\
  _all_black_pieces_bb b' = _all_black_pieces_bb b /\
  _all_pieces_bb b' = _all_pieces_bb b /\
  captured = match _piece_captured_index b with
             | Some c => _piece_names !! c
             | None => None
             end.
Proof.
  unfold get_piece_captured. intros H.
  destruct (_piece_captured_index b) as [c|] eqn:Ec.
  - destruct (_piece_names !! c) as [n|] eqn:E; [|discriminate].
    injection H as <- <-. repeat split. 
  - injection H as <- <-. repeat split. exact Ec.
Qed.

Lemma game_reachable_in_play g : game_reachable g -> in_play (_board g).
Proof.
  induction 1 as [|depth g mf mt ok g' _ IH Hmove].
  - apply in_play_init.
  - destruct ok.
    + destruct (make_move_success _ _ _ _ _ Hmove)
        as (_ & b1 & name & b2 & captured & b3 & Hexec & Hmoved & Hcap & ->).
      cbn [_board]. apply in_play_turn.
      apply (in_play_captured b2 captured b3); [|exact Hcap].
      apply (in_play_moved b1 name b2); [|exact Hmoved].
      exact (in_play_move depth (_board g) mf mt true b1 IH Hexec).
    + destruct (make_move_failure _ _ _ _ _ Hmove) as [-> | (b1 & Hexec & ->)]; [exact IH|].
      exact (in_play_move depth (_board g) mf mt false b1 IH Hexec).
Qed.

(** What [make_move] keeps between calls. *)
Lemma game_reachable_fields g :
  game_reachable g ->
  _game_state g = get_game_state g /\ _piece_captured_index (_board g) = None.
Proof.
  induction 1 as [|depth g mf mt ok g' _ [IHs IHc] Hmove].
  - split; reflexivity.
  - destruct ok.
    + destruct (make_move_success _ _ _ _ _ Hmove)
        as (_ & b1 & name & b2 & captured & b3 & Hexec & Hmoved & Hcap & ->).
      destruct (get_piece_moved_inv _ _ _ Hmoved) as (idx & _ & _ & ->).
      destruct (get_piece_captured_inv _ _ _ Hcap) as (C1 & _ & _ & C4 & C5 & _).
      cbn [_board _game_state]. split.
      * rewrite !get_game_state_spec. cbn [_board].
        destruct (set_next_turn_lists b3) as [-> ->]. rewrite C4, C5. reflexivity.
      * unfold set_next_turn. destruct (white_to_move b3); exact C1.
    + destruct (make_move_failure _ _ _ _ _ Hmove) as [-> | (b1 & Hexec & ->)];
        [split; assumption|].
      destruct (execute_move_failure _ _ _ _ _ Hexec) as (_ & F2 & F3 & _ & _ & F6).
      cbn [_board _game_state]. split.
      * rewrite IHs, !get_game_state_spec. cbn [_board]. now rewrite F2, F3.
      * now rewrite F6.
Qed.

(** X13: In every game reached by [make_move] from a new game, the stored game
    state is the one [get_game_state] computes, no capture is left unread on
    the board, the piece masks are consistent, and the turn is "White" or
    "Black". *)
Theorem game_reachable_facts (g : ChessVar) :
  game_reachable g ->
  _game_state g = get_game_state g /\
  _piece_captured_index (_board g) = None /\
  pieces_consistent (_board g) /\
  (get_player_turn g = "White" \/ get_player_turn g = "Black").
Proof.
  intros H. destruct (game_reachable_fields g H) as [Hs Hc].
  destruct (in_play_board_invariant _ (game_reachable_in_play g H)) as [Hp _ Ht _ _].
  split; [exact Hs|]. split; [exact Hc|]. split; [exact Hp | exact Ht].
Qed.

Lemma game_reachable_facts_witness :
  game_reachable queen_taken /\ _game_state queen_taken = get_game_state queen_taken.
Proof.
  split; [exact game_reachable_queen_taken|].
  exact (proj1 (game_reachable_facts queen_taken game_reachable_queen_taken)).
Defined.

(** [make_move] returns, or raises the [ValueError] of a malformed label. *)
Lemma make_move_returns depth g move_from move_to :
  (8 <= depth)%nat ->
  game_reachable g ->
  ((exists ok g', make_move depth g move_from move_to = Ret (ok, g')) \/
   make_move depth g move_from move_to = Raise ValueError) /\
  (forall m m',
     convert_to_bitboard (PyStr move_from) = Ret (Some m) ->
     convert_to_bitboard (PyStr move_to) = Ret (Some m') ->
     exists ok g', make_move depth g move_from move_to = Ret (ok, g')).
Proof.
  intros Hdepth Hreach.
  pose proof (in_play_board_invariant _ (game_reachable_in_play g Hreach)) as Hinv.
  destruct Hinv as [Hp Hcov Ht Hm Hcap].
  pose proof (pc_white_six _ Hp) as Hw. pose proof (pc_black_six _ Hp) as Hbl.
  assert (Hstep : forall ok b1,
            execute_move depth (_board g) move_from move_to = Ret (ok, b1) ->
            get_game_state g = "UNFINISHED" ->
            exists ok' g', make_move depth g move_from move_to = Ret (ok', g')).
  { intros ok b1 Hexec Hstate. unfold make_move. rewrite Hstate, Hexec.
    cbn [String.eqb negb bind]. change (String.eqb "UNFINISHED" "UNFINISHED") with true.
    cbn [negb]. destruct ok; cbn [negb]; [|eauto].
    pose proof (board_invariant_success depth (_board g) move_from move_to b1
                  (mkBoardInvariant _ Hp Hcov Ht Hm Hcap) Hexec) as [_ _ _ Hm1 Hcap1].
    destruct (execute_move_success _ _ _ _ _ Hexec)
      as (f & r & f' & r' & idx & x & legal & Hb & Hb' & _ & _ & Hx & Hxi & Hown & _ & _ & Hupd).
    pose proof (square_range f r Hb) as Hsq. pose proof (square_range f' r' Hb') as Hsq'.
    destruct (moved_board_sides (_board g) (square f r) (square f' r') idx x b1
                ltac:(lia) ltac:(lia) (proj1 (pieces_sides_iff _) Hp) Hx Hxi Hown Hupd)
      as (_ & _ & _ & _ & _ & _ & M7 & _).
    unfold update_display, get_piece_moved, get_piece_captured. cbn [_board].
    rewrite M7. cbn [index_of bind].
    destruct (lookup_lt_is_Some_2 _piece_names idx (Hm1 idx M7)) as [name ->].
    cbn [bind _piece_captured_index set_piece_moved_index].
    destruct (_piece_captured_index b1) as [c|] eqn:Ec; [|cbn [bind]; eauto].
    destruct (lookup_lt_is_Some_2 _piece_names c (Hcap1 c eq_refl)) as [cname ->].
    cbn [bind]. eauto. }
  assert (Hover : get_game_state g <> "UNFINISHED" ->
            make_move depth g move_from move_to = Ret (false, g)).
  { intros Hne. unfold make_move. apply String.eqb_neq in Hne. now rewrite Hne. }
  destruct (String.eqb_spec (get_game_state g) "UNFINISHED") as [Hstate | Hne]; split.
  - destruct (execute_move_returns depth (_board g) move_from move_to Hdepth Hw Hbl)
      as [(ok & b1 & Hexec) | Hraise].
    + left. exact (Hstep ok b1 Hexec Hstate).
    + right. unfold make_move. rewrite Hstate, Hraise. reflexivity.
  - intros m m' Hfrom Hto.
    destruct (execute_move_valid_returns depth (_board g) move_from move_to m m'
                Hdepth Hw Hbl Hfrom Hto) as (ok & b1 & Hexec).
    exact (Hstep ok b1 Hexec Hstate).
  - left. exists false, g. exact (Hover Hne).
  - intros m m' _ _. exists false, g. exact (Hover Hne).
Qed.

(** X14: for two labels that are strings of ASCII characters, with a
    recursion depth of eight or more, [make_move] on a reachable game returns
    an answer or raises the [ValueError] of a label whose second character
    is not a digit; it raises nothing else (in particular [get_piece_moved]
    never fails after an accepted move), and for two labels of squares it
    returns. *)
Theorem make_move_total (depth : nat) (g : ChessVar) (move_from move_to : string) :
  ascii_only move_from = true -> ascii_only move_to = true ->
  (8 <= depth)%nat ->
  game_reachable g ->
  ((exists ok g', make_move depth g move_from move_to = Ret (ok, g')) \/
   make_move depth g move_from move_to = Raise ValueError) /\
  (forall m m',
     convert_to_bitboard (PyStr move_from) = Ret (Some m) ->
     convert_to_bitboard (PyStr move_to) = Ret (Some m') ->
     exists ok g', make_move depth g move_from move_to = Ret (ok, g')).
Proof. intros _ _. exact (make_move_returns depth g move_from move_to). Qed.

Lemma make_move_total_witness :
  ascii_only "A2" = true /\ ascii_only "A3" = true /\
  (8 <= 8)%nat /\ game_reachable queen_taken /\
  ((exists ok g', make_move 8 queen_taken "A2" "A3" = Ret (ok, g')) \/
   make_move 8 queen_taken "A2" "A3" = Raise ValueError).
Proof.
  assert (A1 : ascii_only "A2" = true) by reflexivity.
  assert (A2 : ascii_only "A3" = true) by reflexivity.
  assert (Hd : (8 <= 8)%nat) by lia.
  split; [exact A1|]. split; [exact A2|].
  split; [exact Hd|]. split; [exact game_reachable_queen_taken|].
  exact (proj1 (make_move_total 8 queen_taken "A2" "A3" A1 A2 Hd game_reachable_queen_taken)).
Defined.

(** The index [update_bitboards] stores for a capture, when nothing was left
    unread: the kind of the opposing mask that holds the destination. *)
Lemma last_hit_kind l j k y :
  0 <= j -> pairwise_disjoint l ->
  l !! k = Some y -> Z.testbit y j = true ->
  last_hit (bit j) 0 l None = Some k.
Proof.
  intros Hj Hpd Hk Hy.
  apply (last_hit_unique (bit j) l 0%nat None k y Hk).
  - intros E. apply land_bit_disjoint in E; [congruence | exact Hj].
  - intros k' y' Hne Hk'. apply land_bit_disjoint; [exact Hj|].
    destruct (Z.testbit y' j) eqn:E; [|reflexivity].
    exfalso. apply Hne. exact (captured_mask_unique l j k k' y y' Hj Hpd Hk Hy Hk' E).
Qed.

(** X15: What an accepted [make_move] records, on a reachable game: the stored
    previous move is the mover's colour, the name of the kind that stood on
    the origin, the two labels as given, and the name of the kind captured,
    [None] when the destination held no opposing piece; the turn passes to
    the other side and the moved-piece field is read and emptied. *)
Theorem make_move_report (depth : nat) (g g' : ChessVar) (move_from move_to : string) :
  game_reachable g ->
  make_move depth g move_from move_to = Ret (true, g') ->
  exists f r f' r' idx x name captured,
    on_board f r /\ on_board f' r' /\
    convert_to_bitboard (PyStr move_from) = Ret (Some (bit (square f r))) /\
    convert_to_bitboard (PyStr move_to) = Ret (Some (bit (square f' r'))) /\
    own_pieces_list (_board g) !! idx = Some x /\
    Z.testbit x (square f r) = true /\
    _piece_names !! idx = Some name /\
    _previous_move g' = Some (get_player_turn g, name, move_from, move_to, captured) /\
    (opponent_at (_board g) f' r' = false -> captured = None) /\
    (forall k y, opponents_pieces_list (_board g) !! k = Some y ->
                 Z.testbit y (square f' r') = true ->
                 captured = _piece_names !! k) /\
    get_player_turn g' <> get_player_turn g /\
    _piece_moved_index (_board g') = None /\
    _piece_captured_index (_board g') = None.
Proof.
  intros Hreach Hmove.
  destruct (game_reachable_fields g Hreach) as [_ Hnone].
  destruct (in_play_board_invariant _ (game_reachable_in_play g Hreach)) as [Hp _ _ _ _].
  pose proof (proj1 (pieces_sides_iff _) Hp) as Hsides.
  destruct (make_move_success _ _ _ _ _ Hmove)
    as (_ & b1 & name & b2 & captured & b3 & Hexec & Hmoved & Hcap & ->).
  destruct (execute_move_success _ _ _ _ _ Hexec)
    as (f & r & f' & r' & idx & x & legal & Hb & Hb' & Hfrom & Hto & Hx & Hxi & Hown & _ & _
        & Hupd).
  pose proof (square_range f r Hb) as Hsq. pose proof (square_range f' r' Hb') as Hsq'.
  destruct (moved_board_sides (_board g) (square f r) (square f' r') idx x b1
              ltac:(lia) ltac:(lia) Hsides Hx Hxi Hown Hupd)
    as (M1 & _ & _ & _ & _ & _ & M7 & M8).
  destruct (get_piece_moved_inv _ _ _ Hmoved) as (idx0 & Hidx0 & Hname & ->).
  rewrite M7 in Hidx0. injection Hidx0 as <-.
  destruct (get_piece_captured_inv _ _ _ Hcap) as (C1 & C2 & C3 & _ & _ & _ & _ & _ & C9).
  cbn [_piece_captured_index _current_turn _piece_moved_index set_piece_moved_index] in C2, C3, C9.
  rewrite M8, Hnone in C9.
  destruct Hsides as (_ & _ & _ & Hpd & _ & Hunion & _).
  exists f, r, f', r', idx, x, name, captured.
  split; [exact Hb|]. split; [exact Hb'|]. split; [exact Hfrom|]. split; [exact Hto|].
  split; [exact Hx|]. split; [exact Hxi|]. split; [exact Hname|].
  cbn [_previous_move _board]. unfold get_player_turn, get_turn. cbn [_board].
  split; [now rewrite M1|]. split; [|split; [|split; [|split]]].
  - unfold opponent_at. intros E. rewrite E in C9. exact C9.
  - intros k y Hk Hy.
    assert (Hopp : Z.testbit (opponent_bb (_board g)) (square f' r') = true).
    { rewrite Hunion. apply testbit_union_bb. eauto. }
    rewrite Hopp, (last_hit_kind _ _ k y (proj1 Hsq') Hpd Hk Hy) in C9. exact C9.
  - rewrite <- M1, <- C2. unfold set_next_turn, white_to_move.
    destruct (String.eqb_spec (_current_turn b3) "White") as [E|E]; cbn [_current_turn set_current_turn].
    + rewrite E. discriminate.
    + congruence.
  - unfold set_next_turn. destruct (white_to_move b3); exact C3.
  - unfold set_next_turn. destruct (white_to_move b3); exact C1.
Qed.

Lemma make_move_report_witness :
  exists g',
    game_reachable new_game /\
    make_move 8 new_game "b1" "c3" = Ret (true, g') /\
    get_player_turn g' <> get_player_turn new_game.
Proof.
  assert (Hmove : {g' | make_move 8 new_game "b1" "c3" = Ret (true, g')})
    by (eexists; vm_compute; reflexivity).
  destruct Hmove as [g' Hmove]. exists g'.
  split; [exact game_reachable_init|]. split; [exact Hmove|].
  destruct (make_move_report 8 new_game g' "b1" "c3" game_reachable_init Hmove)
    as (f & r & f' & r' & idx & x & name & captured & _ & _ & _ & _ & _ & _ & _ & _ & _ & _
        & Hturn & _).
  exact Hturn.
Defined.

(** X16: once the game is over, [make_move] returns [False] and the game
    is untouched, whatever the move.  And a [make_move] that returns [False]
    changes nothing of the game but, at most, the occupancy mask and the
    moved-piece field of the board: the stored state, the previous move, the
    turn, the piece masks of both sides and the captured-piece field are as
    before. *)
Theorem make_move_refused_frame (depth : nat) (g : ChessVar) (move_from move_to : string) :
  (get_game_state g <> "UNFINISHED" ->
   make_move depth g move_from move_to = Ret (false, g)) /\
  (forall g',
     make_move depth g move_from move_to = Ret (false, g') ->
     _game_state g' = _game_state g /\
     _previous_move g' = _previous_move g /\
     get_player_turn g' = get_player_turn g /\
     get_pieces (_board g') = get_pieces (_board g) /\
     _all_white_pieces_bb (_board g') = _all_white_pieces_bb (_board g) /\
     _all_black_pieces_bb (_board g') = _all_black_pieces_bb (_board g) /\
     _piece_captured_index (_board g') = _piece_captured_index (_board g)).
Proof.
  split.
  - intros Hne. unfold make_move. apply String.eqb_neq in Hne. now rewrite Hne.
  - intros g' Hmove.
    destruct (make_move_failure _ _ _ _ _ Hmove) as [-> | (b1 & Hexec & ->)];
      [repeat split|].
    destruct (execute_move_failure _ _ _ _ _ Hexec) as (F1 & F2 & F3 & F4 & F5 & F6).
    unfold get_player_turn, get_turn, get_pieces. cbn [_board _game_state _previous_move].
    rewrite F1, F2, F3, F4, F5, F6. repeat split.
Qed.

Lemma make_move_refused_frame_witness :
  get_game_state queen_taken <> "UNFINISHED" /\
  make_move 8 queen_taken "A2" "A3" = Ret (false, queen_taken).
Proof.
  assert (Hover : get_game_state queen_taken <> "UNFINISHED")
    by (vm_compute; discriminate).
  split; [exact Hover|].
  exact (proj1 (make_move_refused_frame 8 queen_taken "A2" "A3") Hover).
Defined.

(** ** The loop of [main] *)

Lemma file_letter_ok c :
  char_in c "abcdefghABCDEFGH" = true ->
  (ord (upper_ascii c) - ord "A" <? 0) || (7 <? ord (upper_ascii c) - ord "A") = false.
Proof.
  destruct c as [[] [] [] [] [] [] [] []]; vm_compute; intros H;
    first [discriminate H | reflexivity].
Qed.

Lemma rank_digit_ok c :
  char_in c "12345678" = true ->
  exists d, int_of_char c = Ret d /\ (d - 1 <? 0) || (7 <? d - 1) = false.
Proof.
  destruct c as [[] [] [] [] [] [] [] []]; vm_compute; intros H;
    first [discriminate H | eexists; split; reflexivity].
Qed.

Lemma label_chars_ok c0 c1 :
  char_in c0 "abcdefghABCDEFGH" = true -> char_in c1 "12345678" = true ->
  exists m, convert_to_bitboard (PyStr (String c0 (String c1 EmptyString))) = Ret (Some m).
Proof.
  intros H0 H1. apply file_letter_ok in H0. destruct (rank_digit_ok c1 H1) as (d & Hd & Hr).
  cbn [convert_to_bitboard]. rewrite Hd. cbn [bind]. rewrite H0, Hr. eauto.
Qed.

(** A line that passes the format test is cut into two labels of squares. *)
Lemma input_format_ok_labels move :
  input_format_ok move = true ->
  exists m m',
    convert_to_bitboard (PyStr (substring 0 2 move)) = Ret (Some m) /\
    convert_to_bitboard (PyStr (substring 2 (String.length move - 2) move)) = Ret (Some m').
Proof.
  unfold input_format_ok. intros H. apply andb_true_iff in H. destruct H as [Hlen H].
  destruct move as [|c0 [|c1 [|c2 [|c3 [|c4 move]]]]]; try discriminate Hlen.
  cbn [String.get] in H.
  change (String.get 0 (String c0 (String c1 (String c2 (String c3 EmptyString)))))
    with (Some c0) in H.
  cbn in H.
  repeat match type of H with _ && _ = true => apply andb_true_iff in H; destruct H as [H ?] end.
  destruct (label_chars_ok c0 c1) as [m Hm]; [assumption | assumption |].
  destruct (label_chars_ok c2 c3) as [m' Hm']; [assumption | assumption |].
  exists m, m'. split; [exact Hm | exact Hm'].
Qed.

Lemma main_step_returns depth g move :
  (8 <= depth)%nat -> game_reachable g ->
  exists g', main_step depth g move = Ret g' /\ game_reachable g'.
Proof.
  intros Hdepth Hreach. unfold main_step.
  destruct (input_format_ok move) eqn:Hfmt; [|eauto].
  destruct (input_format_ok_labels move Hfmt) as (m & m' & Hfrom & Hto).
  destruct (proj2 (make_move_returns depth g _ _ Hdepth Hreach) m m' Hfrom Hto)
    as (ok & g' & Hmove).
  rewrite Hmove. cbn [bind]. exists g'. split; [reflexivity|].
  exact (game_reachable_move depth g _ _ ok g' Hreach Hmove).
Qed.

(** X17: Whatever lines are typed, the loop of [main] raises nothing: a line is
    passed to [make_move] only as two labels of squares, so the
    [ValueError] of [convert_to_bitboard] cannot occur, and the game it
    ends with is one reached by [make_move] from a new game. *)
Theorem main_loop_never_raises (depth : nat) (lines : list string) :
  (8 <= depth)%nat ->
  (forall move, input_format_ok move = true ->
     exists m m',
       convert_to_bitboard (PyStr (substring 0 2 move)) = Ret (Some m) /\
       convert_to_bitboard (PyStr (substring 2 (String.length move - 2) move))
         = Ret (Some m')) /\
  exists g, main depth lines = Ret g /\ game_reachable g.
Proof.
  intros Hdepth. split; [exact input_format_ok_labels|].
  assert (Hloop : forall g, game_reachable g ->
            exists g', main_loop depth g lines = Ret g' /\ game_reachable g').
  { induction lines as [|move lines IH]; intros g Hreach; cbn [main_loop]; [eauto|].
    destruct (String.eqb (get_game_state g) "UNFINISHED"); [|eauto].
    destruct (main_step_returns depth g move Hdepth Hreach) as (g1 & -> & Hreach1).
    cbn [bind]. exact (IH g1 Hreach1). }
  exact (Hloop new_game game_reachable_init).
Qed.

Lemma main_loop_never_raises_witness :
  (8 <= 8)%nat /\
  exists g, main 8 ["e2e4"; "e7e9"; "x"; "E7E5"] = Ret g /\ game_reachable g.
Proof.
  assert (Hd : (8 <= 8)%nat) by lia.
  split; [exact Hd|].
  exact (proj2 (main_loop_never_raises 8 ["e2e4"; "e7e9"; "x"; "E7E5"] Hd)).
Defined.

(** ** The display array *)

Lemma py_index_in_range len i :
  0 <= i < Z.of_nat len -> py_index len i = Ret (Z.to_nat i).
Proof.
  intros H. unfold py_index.
  destruct (Z.leb_spec 0 i); [|lia]. destruct (Z.ltb_spec i (Z.of_nat len)); [|lia].
  reflexivity.
Qed.

Lemma item_in_range {A} (l : list A) i x :
  0 <= i -> l !! Z.to_nat i = Some x -> item l i = Ret x.
Proof.
  intros Hi Hx. unfold item.
  rewrite py_index_in_range by (apply lookup_lt_Some in Hx; lia).
  cbn [bind]. now rewrite Hx.
Qed.

Lemma set_item_in_range {A} (l : list A) i x v :
  0 <= i -> l !! Z.to_nat i = Some x -> set_item l i v = Ret (<[Z.to_nat i := v]> l).
Proof.
  intros Hi Hx. unfold set_item.
  rewrite py_index_in_range by (apply lookup_lt_Some in Hx; lia).
  reflexivity.
Qed.

Lemma eight_by_eight_row display r :
  eight_by_eight display -> 0 <= r < 8 -> exists row, display !! Z.to_nat r = Some row.
Proof.
  intros [Hlen _] Hr. apply lookup_lt_is_Some_2. lia.
Qed.

Lemma eight_by_eight_cell display f r :
  eight_by_eight display -> on_board f r ->
  exists row piece, display !! Z.to_nat r = Some row /\ row !! Z.to_nat f = Some piece /\
                    cell display f r = Some piece.
Proof.
  intros Hwf [Hf Hr]. destruct (eight_by_eight_row display r Hwf Hr) as [row Hrow].
  pose proof (proj2 Hwf _ _ Hrow) as Hlen.
  destruct (lookup_lt_is_Some_2 row (Z.to_nat f) ltac:(lia)) as [piece Hpiece].
  exists row, piece. unfold cell. rewrite Hrow. auto.
Qed.

Lemma eight_by_eight_set_cell display f r v :
  eight_by_eight display -> eight_by_eight (set_cell display f r v).
Proof.
  intros [Hlen Hrows]. unfold set_cell.
  destruct (display !! Z.to_nat r) as [row|] eqn:Hrow; [|split; assumption].
  split; [now rewrite length_insert|].
  intros k row' Hk. destruct (Nat.eq_dec (Z.to_nat r) k) as [<-|Hne].
  - rewrite list_lookup_insert_eq in Hk by (eapply lookup_lt_Some; eauto).
    injection Hk as <-. rewrite length_insert. eauto.
  - rewrite list_lookup_insert_ne in Hk by assumption. eauto.
Qed.

Lemma cell_set_cell display f r v f2 r2 :
  eight_by_eight display -> on_board f r -> on_board f2 r2 ->
  cell (set_cell display f r v) f2 r2 =
  if (f2 =? f) && (r2 =? r) then Some v else cell display f2 r2.
Proof.
  intros Hwf Hb [Hf2 Hr2].
  destruct (eight_by_eight_cell display f r Hwf Hb) as (row & piece & Hrow & Hpiece & _).
  destruct Hb as [Hf Hr].
  unfold set_cell, cell. rewrite Hrow.
  destruct (Z.eqb_spec r2 r) as [->|Hner].
  - rewrite list_lookup_insert_eq by (eapply lookup_lt_Some; eauto).
    destruct (Z.eqb_spec f2 f) as [->|Hnef]; cbn [andb].
    + rewrite list_lookup_insert_eq by (eapply lookup_lt_Some; eauto). reflexivity.
    + rewrite list_lookup_insert_ne by lia. now rewrite Hrow.
  - rewrite andb_false_r. rewrite list_lookup_insert_ne by lia. reflexivity.
Qed.

Lemma file_of_label base f :
  base = 65 \/ base = 97 -> 0 <= f < 8 ->
  ord (upper_ascii (ascii_of_N (Z.to_N (base + f)))) - ord "A" = f.
Proof.
  intros Hbase Hf. apply coords_complete in Hf. unfold coords in Hf. simpl in Hf.
  destruct Hbase as [-> | ->];
    repeat (destruct Hf as [<- | Hf]); try contradiction; vm_compute; reflexivity.
Qed.

Lemma rank_of_label r :
  0 <= r < 8 -> int_of_char (ascii_of_N (Z.to_N (49 + r))) = Ret (r + 1).
Proof.
  intros Hr. apply coords_complete in Hr. unfold coords in Hr. simpl in Hr.
  repeat (destruct Hr as [<- | Hr]); try contradiction; vm_compute; reflexivity.
Qed.

(** The display update for two labels of squares. *)
Lemma update_display_array_labels display base f r base' f' r' piece :
  eight_by_eight display ->
  base = 65 \/ base = 97 -> base' = 65 \/ base' = 97 ->
  on_board f r -> on_board f' r' ->
  cell display f r = Some piece ->
  update_display_array display (label base f r) (label base' f' r') =
  Ret (set_cell (set_cell display f r ".") f' r' piece).
Proof.
  intros Hwf Hbase Hbase' Hb Hb' Hcell.
  destruct (eight_by_eight_cell display f r Hwf Hb) as (row & piece0 & Hrow & Hpiece & Hc).
  rewrite Hcell in Hc. injection Hc as <-.
  pose proof (eight_by_eight_set_cell display f r "." Hwf) as Hwf1.
  destruct (eight_by_eight_cell _ f' r' Hwf1 Hb') as (row1 & piece1 & Hrow1 & Hpiece1 & _).
  unfold update_display_array, label. cbn [str_item String.get bind].
  change (String.get 0 ?s) with (String.get 0 s).
  destruct Hb as [Hf Hr]. destruct Hb' as [Hf' Hr'].
  rewrite !file_of_label, !rank_of_label by assumption. cbn [bind].
  rewrite !Z.add_simpl_r.
  rewrite (item_in_range display r row) by (lia || assumption). cbn [bind].
  rewrite (item_in_range row f piece) by (lia || assumption). cbn [bind].
  rewrite (set_item_in_range row f piece) by (lia || assumption). cbn [bind].
  rewrite (set_item_in_range display r row) by (lia || assumption). cbn [bind].
  assert (E1 : <[Z.to_nat r := <[Z.to_nat f := "."]> row]> display = set_cell display f r ".").
  { unfold set_cell. now rewrite Hrow. }
  rewrite E1.
  rewrite (item_in_range _ r' row1) by (lia || assumption). cbn [bind].
  rewrite (set_item_in_range row1 f' piece1) by (lia || assumption). cbn [bind].
  rewrite (set_item_in_range _ r' row1) by (lia || assumption).
  symmetry. unfold set_cell at 1. now rewrite Hrow1.
Qed.

(** *** The kind the masks show on a square *)

Lemma kind_at_None l n :
  kind_at l n = None <-> forall (k : nat) x, l !! k = Some x -> Z.testbit x n = false.
Proof.
  induction l as [|y l IH]; simpl.
  - split; [intros _ k x H; discriminate | reflexivity].
  - destruct (Z.testbit y n) eqn:Hy.
    + split; [discriminate|]. intros H. specialize (H 0%nat y eq_refl). congruence.
    + destruct (kind_at l n) as [k|]; simpl.
      * split; [discriminate|]. intros H.
        assert (E : Some k = None)
          by (apply IH; intros k' x Hk'; exact (H (Datatypes.S k') x Hk')).
        discriminate E.
      * split; [|reflexivity]. intros _ k x Hk. destruct k as [|k].
        -- injection Hk as <-. exact Hy.
        -- exact (proj1 IH eq_refl k x Hk).
Qed.

Lemma kind_at_only l n : forall (k : nat) x,
  l !! k = Some x -> Z.testbit x n = true ->
  (forall (k' : nat) y, k' <> k -> l !! k' = Some y -> Z.testbit y n = false) ->
  kind_at l n = Some k.
Proof.
  induction l as [|y l IH]; intros k x Hk Hx Hothers; [discriminate|].
  destruct k as [|k]; simpl in *.
  - injection Hk as ->. now rewrite Hx.
  - rewrite (Hothers 0%nat y ltac:(lia) eq_refl).
    rewrite (IH k x Hk Hx); [reflexivity|].
    intros k' y' Hne Hk'. apply (Hothers (Datatypes.S k') y'); [lia | exact Hk'].
Qed.

Lemma kind_at_ext n : forall l l',
  length l = length l' ->
  (forall (k : nat) x x', l !! k = Some x -> l' !! k = Some x' ->
     Z.testbit x n = Z.testbit x' n) ->
  kind_at l n = kind_at l' n.
Proof.
  induction l as [|y l IH]; intros [|y' l'] Hlen Hsame; try discriminate; [reflexivity|].
  simpl. rewrite (Hsame 0%nat y y' eq_refl eq_refl).
  rewrite (IH l'); [reflexivity | simpl in Hlen; lia |].
  intros k x x' Hk Hk'. exact (Hsame (Datatypes.S k) x x' Hk Hk').
Qed.

Lemma kind_at_disjoint l n k x :
  pairwise_disjoint l -> l !! k = Some x -> Z.testbit x n = true -> kind_at l n = Some k.
Proof.
  intros Hpd Hk Hx. apply (kind_at_only l n k x Hk Hx).
  intros k' y Hne Hk'. exact (disjoint_testbit y x n (Hpd k' k y x Hne Hk' Hk) Hx).
Qed.

Lemma kind_at_union l n :
  Z.testbit (union_bb l) n = false -> kind_at l n = None.
Proof.
  intros H. apply kind_at_None. intros k x Hk.
  destruct (Z.testbit x n) eqn:Hx; [|reflexivity].
  rewrite (proj2 (testbit_union_bb l n)) in H by eauto. discriminate.
Qed.

(** The masks of the two sides after the move of the piece of kind [idx]
    from bit [o] to bit [d]. *)
Section MovedMasks.
Variables (own opp : list Z) (idx : nat) (x o d : Z).
Hypothesis Ho : 0 <= o.
Hypothesis Hd : 0 <= d.
Hypothesis Hod : o <> d.
Hypothesis Hpd : pairwise_disjoint own.
Hypothesis Hx : own !! idx = Some x.
Hypothesis Hxo : Z.testbit x o = true.
Hypothesis Hown_d : Z.testbit (union_bb own) d = false.
Hypothesis Hopp_o : Z.testbit (union_bb opp) o = false.

Local Abbreviation own' := (<[idx := Z.lor (Z.land x (Z.lnot (bit o))) (bit d)]> own).
Local Abbreviation opp' := (map (clear_bits (bit d)) opp).

Lemma moved_lookup (k : nat) y :
  own' !! k = Some y ->
  (k = idx /\ y = Z.lor (Z.land x (Z.lnot (bit o))) (bit d)) \/
  (k <> idx /\ own !! k = Some y).
Proof.
  intros Hk. destruct (Nat.eq_dec idx k) as [<-|Hne].
  - rewrite list_lookup_insert_eq in Hk by (eapply lookup_lt_Some; eauto).
    injection Hk as <-. now left.
  - rewrite list_lookup_insert_ne in Hk by assumption. right. split; [congruence | exact Hk].
Qed.

Lemma own_not_at_d (k : nat) y : own !! k = Some y -> Z.testbit y d = false.
Proof.
  intros Hk. destruct (Z.testbit y d) eqn:E; [|reflexivity].
  rewrite (proj2 (testbit_union_bb own d)) in Hown_d by eauto. discriminate.
Qed.

Lemma kind_at_moved_dest : kind_at own' d = Some idx.
Proof.
  apply (kind_at_only own' d idx (Z.lor (Z.land x (Z.lnot (bit o))) (bit d))).
  - apply list_lookup_insert_eq. eapply lookup_lt_Some; eauto.
  - rewrite Z.lor_spec, testbit_bit, Z.eqb_refl by assumption. apply orb_true_r.
  - intros k y Hne Hk. destruct (moved_lookup k y Hk) as [[E _] | [_ Hk']]; [contradiction|].
    exact (own_not_at_d k y Hk').
Qed.

Lemma kind_at_moved_origin : kind_at own' o = None.
Proof.
  apply kind_at_None. intros k y Hk.
  destruct (moved_lookup k y Hk) as [[_ ->] | [Hne Hk']].
  - rewrite Z.lor_spec, Z.land_spec, Z.lnot_spec, !testbit_bit, Z.eqb_refl by assumption.
    destruct (Z.eqb_spec d o); [congruence|]. now rewrite Hxo.
  - exact (disjoint_testbit y x o (Hpd k idx y x Hne Hk' Hx) Hxo).
Qed.

Lemma kind_at_moved_other n :
  0 <= n -> n <> o -> n <> d -> kind_at own' n = kind_at own n.
Proof.
  intros Hn Hno Hnd. apply kind_at_ext.
  - apply length_insert.
  - intros k y y' Hk' Hk. destruct (moved_lookup k y Hk') as [[-> ->] | [_ Hk'']].
    + rewrite Hx in Hk. injection Hk as <-.
      rewrite Z.lor_spec, Z.land_spec, Z.lnot_spec, !testbit_bit by assumption.
      destruct (Z.eqb_spec o n); [congruence|]. destruct (Z.eqb_spec d n); [congruence|].
      now rewrite andb_true_r, orb_false_r.
    + congruence.
Qed.

Lemma kind_at_cleared_dest : kind_at opp' d = None.
Proof.
  apply kind_at_None. intros k y Hk.
  change (map (clear_bits (bit d)) opp) with (clear_bits (bit d) <$> opp) in Hk.
  rewrite list_lookup_fmap in Hk. destruct (opp !! k) as [y0|]; [|discriminate].
  injection Hk as <-. unfold clear_bits.
  rewrite Z.land_spec, Z.lnot_spec, testbit_bit, Z.eqb_refl by assumption.
  apply andb_false_r.
Qed.

Lemma kind_at_cleared_other n : 0 <= n -> n <> d -> kind_at opp' n = kind_at opp n.
Proof.
  intros Hn Hnd. apply kind_at_ext.
  - apply length_map.
  - intros k y y' Hk' Hk.
    change (map (clear_bits (bit d)) opp) with (clear_bits (bit d) <$> opp) in Hk'.
    rewrite list_lookup_fmap, Hk in Hk'. injection Hk' as <-. unfold clear_bits.
    rewrite Z.land_spec, Z.lnot_spec, testbit_bit by assumption.
    destruct (Z.eqb_spec d n); [congruence|]. now rewrite andb_true_r.
Qed.

Lemma kind_at_origin : kind_at own o = Some idx.
Proof. exact (kind_at_disjoint own o idx x Hpd Hx Hxo). Qed.

Lemma kind_at_opp_origin : kind_at opp o = None.
Proof. exact (kind_at_union opp o Hopp_o). Qed.
End MovedMasks.

Lemma display_matches_lists b b' display :
  _white_pieces_list b' = _white_pieces_list b ->
  _black_pieces_list b' = _black_pieces_list b ->
  display_matches b display -> display_matches b' display.
Proof.
  intros Hw Hbl (Hlen & Hrows & Hcells). split; [exact Hlen|]. split; [exact Hrows|].
  intros f r Hb. rewrite (Hcells f r Hb). unfold symbol_at. now rewrite Hw, Hbl.
Qed.

(** The symbols after the move, for masks given by side to move. *)
Lemma symbol_at_moved b b1 idx x o d n :
  0 <= o -> 0 <= d -> 0 <= n -> o <> d ->
  pieces_sides b ->
  own_pieces_list b !! idx = Some x ->
  Z.testbit x o = true ->
  Z.testbit (own_bb b) d = false ->
  _current_turn b1 = _current_turn b ->
  own_pieces_list b1 = <[idx := Z.lor (Z.land x (Z.lnot (bit o))) (bit d)]> (own_pieces_list b) ->
  opponents_pieces_list b1 = map (clear_bits (bit d)) (opponents_pieces_list b) ->
  symbol_at b1 n =
  if n =? d then symbol_at b o else if n =? o then "." else symbol_at b n.
Proof.
  intros Ho Hd Hn Hod (S1 & S2 & S3 & S4 & S5 & S6 & S7) Hx Hxo Hown Hturn Hown1 Hopp1.
  assert (Hown_d : Z.testbit (union_bb (own_pieces_list b)) d = false) by now rewrite <- S5.
  assert (Hown_o : Z.testbit (own_bb b) o = true).
  { rewrite S5. apply testbit_union_bb. eauto. }
  assert (Hopp_o : Z.testbit (union_bb (opponents_pieces_list b)) o = false).
  { rewrite <- S6. apply (disjoint_testbit _ (own_bb b)); [|exact Hown_o].
    now rewrite Z.land_comm. }
  pose proof (kind_at_moved_dest _ idx x o d Hd Hx Hown_d) as F1.
  pose proof (kind_at_moved_origin _ idx x o d Ho Hd Hod S3 Hx Hxo) as F2.
  pose proof (kind_at_moved_other _ idx x o d Ho Hd Hx) as F3.
  pose proof (kind_at_cleared_dest (opponents_pieces_list b) d Hd) as F4.
  pose proof (kind_at_cleared_other (opponents_pieces_list b) d Hd) as F5.
  pose proof (kind_at_origin _ idx x o S3 Hx Hxo) as F6.
  pose proof (kind_at_opp_origin _ o Hopp_o) as F7.
  rewrite <- Hown1 in F1, F2, F3. rewrite <- Hopp1 in F4, F5.
  assert (Hw : white_to_move b1 = white_to_move b) by (unfold white_to_move; now rewrite Hturn).
  clear Hown1 Hopp1 Hx S1 S2 S3 S4 S5 S6 S7 Hown_d Hopp_o Hown Hown_o.
  unfold own_pieces_list, opponents_pieces_list in *. rewrite Hw in *.
  unfold symbol_at.
  destruct (Z.eqb_spec n d) as [->|Hnd]; [|destruct (Z.eqb_spec n o) as [->|Hno]].
  - destruct (white_to_move b); now rewrite ?F1, ?F4, ?F6, ?F7.
  - specialize (F5 o Ho Hod). destruct (white_to_move b); now rewrite ?F2, ?F5, ?F7.
  - specialize (F3 n Hn Hno Hnd). specialize (F5 n Hn Hnd).
    destruct (white_to_move b); now rewrite ?F3, ?F5.
Qed.

Lemma display_matches_move b b1 display f r f' r' idx x :
  pieces_consistent b -> display_matches b display ->
  on_board f r -> on_board f' r' ->
  own_pieces_list b !! idx = Some x ->
  Z.testbit x (square f r) = true ->
  Z.testbit (own_bb b) (square f' r') = false ->
  _current_turn b1 = _current_turn b ->
  own_pieces_list b1 =
    <[idx := Z.lor (Z.land x (Z.lnot (bit (square f r)))) (bit (square f' r'))]>
      (own_pieces_list b) ->
  opponents_pieces_list b1 = map (clear_bits (bit (square f' r'))) (opponents_pieces_list b) ->
  cell display f r = Some (symbol_at b (square f r)) /\
  display_matches b1
    (set_cell (set_cell display f r ".") f' r' (symbol_at b (square f r))).
Proof.
  intros Hp (Hlen & Hrows & Hcells) Hb Hb' Hx Hxo Hown Hturn Hown1 Hopp1.
  pose proof (proj1 (pieces_sides_iff b) Hp) as Hsides.
  pose proof (square_range f r Hb) as Hsq. pose proof (square_range f' r' Hb') as Hsq'.
  assert (Hod : square f r <> square f' r').
  { intros E. rewrite <- E in Hown. destruct Hsides as (_ & _ & _ & _ & S5 & _).
    rewrite S5, (proj2 (testbit_union_bb _ _)) in Hown by eauto. discriminate. }
  split; [exact (Hcells f r Hb)|].
  assert (Hwf : eight_by_eight display) by (split; assumption).
  pose proof (eight_by_eight_set_cell display f r "." Hwf) as Hwf1.
  pose proof (eight_by_eight_set_cell _ f' r' (symbol_at b (square f r)) Hwf1) as [Hlen2 Hrows2].
  split; [exact Hlen2|]. split; [exact Hrows2|].
  intros f2 r2 Hb2. pose proof (square_range f2 r2 Hb2) as Hsq2.
  rewrite cell_set_cell, cell_set_cell, (Hcells f2 r2 Hb2) by assumption.
  rewrite (symbol_at_moved b b1 idx x (square f r) (square f' r') (square f2 r2))
    by (assumption || lia).
  destruct (Z.eqb_spec (square f2 r2) (square f' r')) as [E|E].
  - destruct (square_inj _ _ _ _ Hb2 Hb' E) as [-> ->]. now rewrite !Z.eqb_refl.
  - assert (Hne : (f2 =? f') && (r2 =? r') = false).
    { apply andb_false_iff. destruct (Z.eqb_spec f2 f') as [->|]; [right | now left].
      apply Z.eqb_neq. intros ->. now apply E. }
    rewrite Hne. destruct (Z.eqb_spec (square f2 r2) (square f r)) as [E'|E'].
    + destruct (square_inj _ _ _ _ Hb2 Hb E') as [-> ->]. now rewrite !Z.eqb_refl.
    + assert (Hne' : (f2 =? f) && (r2 =? r) = false).
      { apply andb_false_iff. destruct (Z.eqb_spec f2 f) as [->|]; [right | now left].
        apply Z.eqb_neq. intros ->. now apply E'. }
      now rewrite Hne'.
Qed.

(** *** The game with its display *)

(** [make_move_full] does to the three fields what [make_move] does. *)
Lemma make_move_full_fields depth s move_from move_to ok s' :
  make_move_full depth s move_from move_to = Ret (ok, s') ->
  make_move depth (_fields s) move_from move_to = Ret (ok, _fields s').
Proof.
  unfold make_move_full, make_move. intros H.
  destruct (String.eqb (get_game_state (_fields s)) "UNFINISHED"); cbn [negb] in *.
  2:{ now injection H as <- <-. }
  destruct (execute_move depth (_board (_fields s)) move_from move_to) as [[[|] b1]|];
    cbn [bind negb] in *; try discriminate.
  - unfold update_display_full in H. cbn [_fields _board_display] in H.
    destruct (update_display_array _ _ _) as [display|]; cbn [bind] in H; [|discriminate].
    destruct (update_display _ _ _) as [fields|]; cbn [bind] in *; [|discriminate].
    injection H as <- <-. reflexivity.
  - injection H as <- <-. reflexivity.
Qed.

Lemma accepted_labels depth b move_from move_to b1 :
  pieces_consistent b ->
  execute_move depth b move_from move_to = Ret (true, b1) ->
  exists base f r base' f' r' idx x,
    (base = 65 \/ base = 97) /\ (base' = 65 \/ base' = 97) /\
    on_board f r /\ on_board f' r' /\
    move_from = label base f r /\ move_to = label base' f' r' /\
    own_pieces_list b !! idx = Some x /\
    Z.testbit x (square f r) = true /\
    Z.testbit (own_bb b) (square f' r') = false /\
    _current_turn b1 = _current_turn b /\
    own_pieces_list b1 =
      <[idx := Z.lor (Z.land x (Z.lnot (bit (square f r)))) (bit (square f' r'))]>
        (own_pieces_list b) /\
    opponents_pieces_list b1 =
      map (clear_bits (bit (square f' r'))) (opponents_pieces_list b).
Proof.
  intros Hp Hexec.
  destruct (execute_move_success _ _ _ _ _ Hexec)
    as (f & r & f' & r' & idx & x & legal & Hb & Hb' & Hfrom & Hto & Hx & Hxi & Hown & _ & _
        & Hupd).
  pose proof (square_range f r Hb) as Hsq. pose proof (square_range f' r' Hb') as Hsq'.
  destruct (moved_board_sides b (square f r) (square f' r') idx x b1
              ltac:(lia) ltac:(lia) (proj1 (pieces_sides_iff b) Hp) Hx Hxi Hown Hupd)
    as (M1 & M2 & M3 & _).
  destruct (convert_to_bitboard_label _ _ Hfrom) as (base & f0 & r0 & Hbase & Hb0 & -> & E).
  destruct (convert_to_bitboard_label _ _ Hto) as (base' & f0' & r0' & Hbase' & Hb0' & -> & E').
  pose proof (square_range f0 r0 Hb0). pose proof (square_range f0' r0' Hb0').
  apply bit_inj in E; [|lia|lia]. apply bit_inj in E'; [|lia|lia].
  destruct (square_inj _ _ _ _ Hb Hb0 E) as [<- <-].
  destruct (square_inj _ _ _ _ Hb' Hb0' E') as [<- <-].
  exists base, f, r, base', f', r', idx, x. repeat split; try assumption; apply Hb || apply Hb'.
Qed.

Lemma update_display_lists g move_from move_to g' :
  update_display g move_from move_to = Ret g' ->
  _white_pieces_list (_board g') = _white_pieces_list (_board g) /\
  _black_pieces_list (_board g') = _black_pieces_list (_board g).
Proof.
  unfold update_display. intros H.
  destruct (get_piece_moved (_board g)) as [[name b2]|] eqn:Hmoved; cbn [bind] in H;
    [|discriminate].
  destruct (get_piece_captured b2) as [[captured b3]|] eqn:Hcap; cbn [bind] in H;
    [|discriminate].
  injection H as <-. cbn [_board].
  destruct (get_piece_moved_inv _ _ _ Hmoved) as (idx & _ & _ & ->).
  destruct (get_piece_captured_inv _ _ _ Hcap) as (_ & _ & _ & C4 & C5 & _).
  split; [exact C4 | exact C5].
Qed.

Lemma display_matches_make_move depth s move_from move_to ok s' :
  pieces_consistent (_board (_fields s)) ->
  display_matches (_board (_fields s)) (_board_display s) ->
  make_move_full depth s move_from move_to = Ret (ok, s') ->
  display_matches (_board (_fields s')) (_board_display s').
Proof.
  intros Hp Hdisp H. unfold make_move_full in H.
  destruct (String.eqb (get_game_state (_fields s)) "UNFINISHED"); cbn [negb] in H.
  2:{ now injection H as _ <-. }
  destruct (execute_move depth (_board (_fields s)) move_from move_to) as [[[|] b1]|] eqn:Hexec;
    cbn [bind negb] in H; try discriminate.
  - unfold update_display_full in H. cbn [_fields _board_display] in H.
    destruct (accepted_labels _ _ _ _ _ Hp Hexec)
      as (base & f & r & base' & f' & r' & idx & x & Hbase & Hbase' & Hb & Hb' & -> & ->
          & Hx & Hxi & Hown & Hturn & Hown1 & Hopp1).
    destruct (display_matches_move _ b1 _ f r f' r' idx x Hp Hdisp Hb Hb' Hx Hxi Hown
                Hturn Hown1 Hopp1) as [Hcell Hdisp1].
    rewrite (update_display_array_labels _ base f r base' f' r' _
               (conj (proj1 Hdisp) (proj1 (proj2 Hdisp))) Hbase Hbase' Hb Hb' Hcell) in H.
    cbn [bind] in H.
    destruct (update_display _ _ _) as [fields|] eqn:Hupd; cbn [bind] in H; [|discriminate].
    injection H as _ <-. cbn [_fields _board_display _board].
    destruct (update_display_lists _ _ _ _ Hupd) as [L1 L2]. cbn [_board] in L1, L2.
    destruct (set_next_turn_lists (_board fields)) as [T1 T2].
    apply (display_matches_lists b1); [congruence | congruence | exact Hdisp1].
  - injection H as _ <-. cbn [_fields _board_display _board].
    destruct (execute_move_failure _ _ _ _ _ Hexec) as (_ & F2 & F3 & _).
    exact (display_matches_lists _ b1 _ F2 F3 Hdisp).
Qed.

Lemma display_matches_new_game :
  display_matches (_board (_fields new_game_display)) (_board_display new_game_display).
Proof.
  split; [reflexivity|]. split.
  - intros k row Hk. cbn in Hk.
    do 8 (destruct k as [|k]; [injection Hk as <-; reflexivity|]). discriminate Hk.
  - intros f r Hb.
    pose proof (forall_squares
      (fun f r =>
         match cell (_board_display new_game_display) f r with
         | Some c => String.eqb c (symbol_at (_board (_fields new_game_display)) (square f r))
         | None => false
         end)) as H.
    cbv beta in H. specialize (H ltac:(vm_compute; reflexivity) f r Hb).
    destruct (cell _ f r) as [c|]; [|discriminate]. apply String.eqb_eq in H. now rewrite H.
Qed.

Lemma display_reachable_invariant s :
  display_reachable s ->
  game_reachable (_fields s) /\ display_matches (_board (_fields s)) (_board_display s).
Proof.
  induction 1 as [|depth s mf mt ok s' _ [IHg IHd] Hmove].
  - split; [apply game_reachable_init | exact display_matches_new_game].
  - split.
    + exact (game_reachable_move depth _ mf mt ok _ IHg (make_move_full_fields _ _ _ _ _ _ Hmove)).
    + destruct (in_play_board_invariant _ (game_reachable_in_play _ IHg)) as [Hp _ _ _ _].
      exact (display_matches_make_move depth s mf mt ok s' Hp IHd Hmove).
Qed.

Lemma display_reachable_queen_taken : display_reachable queen_taken_display.
Proof.
  assert (Hplay : forall depth moves s s',
            display_reachable s -> play_display depth s moves = Some s' ->
            display_reachable s').
  { intros depth moves. induction moves as [|[mf mt] moves IH]; intros s s' Hs Hplay;
      simpl in Hplay.
    - now injection Hplay as <-.
    - destruct (make_move_full depth s mf mt) as [[[|] s1]|] eqn:Hmove; try discriminate.
      exact (IH s1 s' (display_reachable_move depth s mf mt true s1 Hs Hmove) Hplay). }
  apply (Hplay 8%nat queen_hunt new_game_display); [apply display_reachable_init|].
  vm_compute. reflexivity.
Qed.

(** X18: In every game reached by [make_move], the display array shows what the
    bitboards hold: it has eight rows of eight cells, and the cell of each
    square is the upper-case letter of the White piece whose mask holds the
    square, the lower-case letter of the Black piece, or "." on a square
    that no mask holds. *)
Theorem display_in_sync (s : Game) :
  display_reachable s ->
  length (_board_display s) = 8%nat /\
  (forall (k : nat) row, _board_display s !! k = Some row -> length row = 8%nat) /\
  (forall f r, on_board f r ->
     cell (_board_display s) f r = Some (symbol_at (_board (_fields s)) (square f r))) /\
  game_reachable (_fields s).
Proof.
  intros H. destruct (display_reachable_invariant s H) as [Hg (H1 & H2 & H3)].
  split; [exact H1|]. split; [exact H2|]. split; [exact H3 | exact Hg].
Qed.

Lemma display_in_sync_witness :
  display_reachable queen_taken_display /\
  cell (_board_display queen_taken_display) 3 4 = Some "N".
Proof.
  split; [exact display_reachable_queen_taken|].
  destruct (display_in_sync queen_taken_display display_reachable_queen_taken)
    as (_ & _ & Hcells & _).
  rewrite (Hcells 3 4 ltac:(unfold on_board; lia)). vm_compute. reflexivity.
Defined.

(** X19: The display update never fails: whenever [make_move] on the three
    fields returns, the full [make_move], display update included, returns
    the same answer and the same fields. *)
Theorem display_update_never_raises (depth : nat) (s : Game) (move_from move_to : string)
    (ok : bool) (g' : ChessVar) :
  display_reachable s ->
  make_move depth (_fields s) move_from move_to = Ret (ok, g') ->
  exists display',
    make_move_full depth s move_from move_to
      = Ret (ok, {| _fields := g'; _board_display := display' |}).
Proof.
  intros Hreach H. destruct (display_reachable_invariant s Hreach) as [Hg Hdisp].
  destruct (in_play_board_invariant _ (game_reachable_in_play _ Hg)) as [Hp _ _ _ _].
  unfold make_move in H. unfold make_move_full.
  destruct (String.eqb (get_game_state (_fields s)) "UNFINISHED"); cbn [negb] in *.
  { destruct (execute_move depth (_board (_fields s)) move_from move_to) as [[[|] b1]|] eqn:Hexec;
      cbn [bind negb] in *; try discriminate.
    - destruct (accepted_labels _ _ _ _ _ Hp Hexec)
        as (base & f & r & base' & f' & r' & idx & x & Hbase & Hbase' & Hb & Hb' & -> & ->
            & Hx & Hxi & Hown & Hturn & Hown1 & Hopp1).
      destruct (display_matches_move _ b1 _ f r f' r' idx x Hp Hdisp Hb Hb' Hx Hxi Hown
                  Hturn Hown1 Hopp1) as [Hcell _].
      unfold update_display_full. cbn [_fields _board_display].
      rewrite (update_display_array_labels _ base f r base' f' r' _
                 (conj (proj1 Hdisp) (proj1 (proj2 Hdisp))) Hbase Hbase' Hb Hb' Hcell).
      cbn [bind].
      destruct (update_display _ _ _) as [fields|]; cbn [bind] in *; [|discriminate].
      injection H as <- <-. eexists. reflexivity.
    - injection H as <- <-. eexists. reflexivity. }
  injection H as <- <-. exists (_board_display s). destruct s; reflexivity.
Qed.

Lemma display_update_never_raises_witness :
  exists g' display',
    display_reachable new_game_display /\
    make_move 8 (_fields new_game_display) "e2" "e4" = Ret (true, g') /\
    make_move_full 8 new_game_display "e2" "e4"
      = Ret (true, {| _fields := g'; _board_display := display' |}).
Proof.
  assert (Hmove : {g' | make_move 8 (_fields new_game_display) "e2" "e4" = Ret (true, g')})
    by (eexists; vm_compute; reflexivity).
  destruct Hmove as [g' Hmove].
  destruct (display_update_never_raises 8 new_game_display "e2" "e4" true g'
              display_reachable_init Hmove) as [display' Hfull].
  exists g', display'. split; [exact display_reachable_init|].
  split; [exact Hmove | exact Hfull].
Defined.

(** ** Masks stay on the board *)

Lemma on_board_mask_small m : 0 <= m < 2 ^ 64 -> on_board_mask m.
Proof.
  intros Hm n Hn. destruct (Z.neg_nonneg_cases n) as [Hneg|Hnn].
  - rewrite Z.testbit_neg_r in Hn by assumption. discriminate.
  - split; [assumption|]. destruct (Z.lt_ge_cases n 64) as [|Hge]; [assumption|exfalso].
    rewrite <- (Z.mod_small m (2 ^ 64)) in Hn by assumption.
    rewrite Z.mod_pow2_bits_high in Hn by lia. discriminate.
Qed.

Lemma on_board_mask_moved m o d :
  0 <= o -> 0 <= d < 64 -> on_board_mask m ->
  on_board_mask (Z.lor (Z.land m (Z.lnot (bit o))) (bit d)).
Proof.
  intros Ho Hd Hm n Hn. destruct (Z.neg_nonneg_cases n) as [Hneg|Hnn].
  - rewrite Z.testbit_neg_r in Hn by assumption. discriminate.
  - rewrite Z.lor_spec, Z.land_spec, testbit_bit in Hn by lia.
    apply orb_true_iff in Hn. destruct Hn as [Hn | Hn].
    + apply andb_true_iff in Hn. exact (Hm n (proj1 Hn)).
    + apply Z.eqb_eq in Hn. lia.
Qed.

Lemma on_board_mask_clear m t : on_board_mask m -> on_board_mask (clear_bits t m).
Proof.
  intros Hm n Hn. destruct (Z.neg_nonneg_cases n) as [Hneg|Hnn].
  - rewrite Z.testbit_neg_r in Hn by assumption. discriminate.
  - unfold clear_bits in Hn. rewrite Z.land_spec in Hn.
    apply andb_true_iff in Hn. exact (Hm n (proj1 Hn)).
Qed.

Lemma on_board_mask_set m d : 0 <= d < 64 -> on_board_mask m -> on_board_mask (Z.lor m (bit d)).
Proof.
  intros Hd Hm n Hn. destruct (Z.neg_nonneg_cases n) as [Hneg|Hnn].
  - rewrite Z.testbit_neg_r in Hn by assumption. discriminate.
  - rewrite Z.lor_spec, testbit_bit in Hn by lia.
    apply orb_true_iff in Hn. destruct Hn as [Hn | Hn]; [exact (Hm n Hn)|].
    apply Z.eqb_eq in Hn. lia.
Qed.

Lemma in_play_on_board b :
  in_play b ->
  on_board_mask (_all_white_pieces_bb b) /\
  on_board_mask (_all_black_pieces_bb b) /\
  on_board_mask (_all_pieces_bb b).
Proof.
  induction 1 as [|depth b mf mt ok b' Hplay (IHw & IHb & IHa) Hmove|b _ IH
                  |b name b' _ IH Hget|b name b' _ IH Hget].
  - split; [|split]; apply on_board_mask_small; vm_compute;
      (split; [discriminate | reflexivity]).
  - pose proof (in_play_board_invariant b Hplay) as [Hp _ _ _ _].
    destruct ok.
    + destruct (execute_move_success _ _ _ _ _ Hmove)
        as (f & r & f' & r' & idx & x & legal & Hb & Hb' & _ & _ & Hx & Hxi & Hown & _ & _
            & Hupd).
      pose proof (square_range f r Hb) as Hsq. pose proof (square_range f' r' Hb') as Hsq'.
      destruct (moved_board_sides b (square f r) (square f' r') idx x b'
                  ltac:(lia) ltac:(lia) (proj1 (pieces_sides_iff b) Hp) Hx Hxi Hown Hupd)
        as (M1 & _ & _ & M4 & M5 & M6 & _).
      assert (Hw : white_to_move b' = white_to_move b)
        by (unfold white_to_move; now rewrite M1).
      unfold own_bb, opponent_bb in M4, M5. rewrite Hw in M4, M5.
      rewrite M6. destruct (white_to_move b); rewrite M4, M5;
        (split; [|split]);
        first [apply on_board_mask_moved; (assumption || lia)
              | apply on_board_mask_clear; assumption].
    + destruct (execute_move_failure _ _ _ _ _ Hmove) as (_ & _ & _ & F4 & F5 & _).
      rewrite F4, F5. split; [exact IHw|]. split; [exact IHb|].
      destruct (execute_move_failure_occupancy _ _ _ _ _ Hmove)
        as [-> | (f & r & Hb & _ & -> & _)]; [exact IHa|].
      apply on_board_mask_set; [|exact IHa]. exact (square_range f r Hb).
  - unfold set_next_turn. destruct (white_to_move b); exact IH.
  - destruct (get_piece_moved_inv _ _ _ Hget) as (idx & _ & _ & ->). exact IH.
  - destruct (get_piece_captured_inv _ _ _ Hget) as (_ & _ & _ & _ & _ & C6 & C7 & C8 & _).
    now rewrite C6, C7, C8.
Qed.

(** X20: No mask of a board in play ever holds a bit outside the 64 squares:
    the bits above 63 that the knight generator produces never reach the
    piece masks, the side masks or the occupancy. *)
Theorem masks_stay_on_board (b : Board) :
  in_play b ->
  (forall (k : nat) x, _white_pieces_list b !! k = Some x -> on_board_mask x) /\
  (forall (k : nat) x, _black_pieces_list b !! k = Some x -> on_board_mask x) /\
  on_board_mask (_all_white_pieces_bb b) /\
  on_board_mask (_all_black_pieces_bb b) /\
  on_board_mask (_all_pieces_bb b).
Proof.
  intros H. destruct (in_play_on_board b H) as (Hw & Hbl & Ha).
  destruct (in_play_board_invariant b H) as [[_ _ _ _ Uw Ub _] _ _ _ _].
  split; [|split; [|split; [exact Hw | split; [exact Hbl | exact Ha]]]].
  - intros k x Hk n Hn. apply Hw. rewrite Uw. apply testbit_union_bb. eauto.
  - intros k x Hk n Hn. apply Hbl. rewrite Ub. apply testbit_union_bb. eauto.
Qed.

Lemma masks_stay_on_board_witness :
  in_play after_rejected_e4 /\ on_board_mask (_all_pieces_bb after_rejected_e4).
Proof.
  split; [exact in_play_after_rejected_e4|].
  exact (proj2 (proj2 (proj2 (proj2
           (masks_stay_on_board after_rejected_e4 in_play_after_rejected_e4))))).
Defined.

(** ** Counting the pieces *)

Lemma count_filter_ext (L : list Z) m m' :
  (forall i, i ∈ L -> Z.testbit m i = Z.testbit m' i) ->
  length (filter (fun i => Z.testbit m i = true) L) =
  length (filter (fun i => Z.testbit m' i = true) L).
Proof.
  induction L as [|a L IH]; intros Hsame; [reflexivity|].
  rewrite !filter_cons. rewrite (Hsame a) by (left).
  assert (IH' := IH (fun i Hi => Hsame i (list_elem_of_further _ _ _ Hi))).
  destruct (decide (Z.testbit m' a = true)); simpl; now rewrite IH'.
Qed.

Lemma count_filter_set (L : list Z) m d :
  NoDup L -> 0 <= d -> (forall i, i ∈ L -> 0 <= i) -> Z.testbit m d = false ->
  length (filter (fun i => Z.testbit (Z.lor m (bit d)) i = true) L) =
  (length (filter (fun i => Z.testbit m i = true) L) + (if decide (d ∈ L) then 1 else 0))%nat.
Proof.
  intros Hnd Hd Hpos Hm. induction L as [|a L IH]; [reflexivity|].
  apply NoDup_cons in Hnd. destruct Hnd as [Ha Hnd].
  assert (IH' := IH Hnd (fun i Hi => Hpos i (list_elem_of_further _ _ _ Hi))). clear IH.
  rewrite !filter_cons.
  rewrite Z.lor_spec, testbit_bit by assumption.
  destruct (Z.eqb_spec d a) as [->|Hne].
  - rewrite Hm. cbn [orb].
    destruct (decide (true = true)) as [_|C]; [|congruence].
    destruct (decide (false = true)) as [C|_]; [congruence|].
    destruct (decide (a ∈ a :: L)) as [_|C]; [|exfalso; apply C; left].
    destruct (decide (a ∈ L)) as [C|_]; [contradiction|].
    simpl. rewrite IH'. lia.
  - rewrite orb_false_r.
    assert (Hiff : d ∈ a :: L <-> d ∈ L).
    { rewrite elem_of_cons. tauto. }
    destruct (decide (d ∈ a :: L)) as [Hin|Hnin], (decide (d ∈ L)) as [Hin'|Hnin'];
      try tauto;
      destruct (decide (Z.testbit m a = true)); simpl; rewrite IH'; lia.
Qed.

Lemma count_squares_ext m m' :
  (forall i, 0 <= i < 64 -> Z.testbit m i = Z.testbit m' i) ->
  count_squares m = count_squares m'.
Proof.
  intros H. unfold count_squares. apply count_filter_ext.
  intros i Hi. apply H. apply list_elem_of_fmap in Hi. destruct Hi as (k & -> & Hk).
  apply elem_of_seq in Hk. lia.
Qed.

Lemma count_squares_set m d :
  0 <= d < 64 -> Z.testbit m d = false ->
  count_squares (Z.lor m (bit d)) = Datatypes.S (count_squares m).
Proof.
  intros Hd Hm. unfold count_squares. rewrite count_filter_set; try assumption; try lia.
  - destruct (decide (d ∈ map Z.of_nat (seq 0 64))) as [_|C]; [lia|].
    exfalso. apply C. apply list_elem_of_fmap. exists (Z.to_nat d).
    split; [lia|]. apply elem_of_seq. lia.
  - apply NoDup_fmap; [exact Nat2Z.inj | apply NoDup_seq].
  - intros i Hi. apply list_elem_of_fmap in Hi. destruct Hi as (k & -> & _). lia.
Qed.

Lemma count_squares_clear m o :
  0 <= o < 64 -> Z.testbit m o = true ->
  count_squares m = Datatypes.S (count_squares (Z.land m (Z.lnot (bit o)))).
Proof.
  intros Ho Hm. rewrite <- (count_squares_set (Z.land m (Z.lnot (bit o))) o).
  - apply count_squares_ext. intros i Hi.
    rewrite Z.lor_spec, Z.land_spec, Z.lnot_spec, testbit_bit by lia.
    destruct (Z.eqb_spec o i) as [->|]; [now rewrite Hm | now rewrite andb_true_r, orb_false_r].
  - exact Ho.
  - rewrite Z.land_spec, Z.lnot_spec, testbit_bit, Z.eqb_refl by lia. apply andb_false_r.
Qed.

(** X21: An accepted move keeps the number of pieces of the side that moved, and
    takes exactly one piece from the other side when the destination held
    one of its pieces, none otherwise. *)
Theorem material_count (depth : nat) (b b' : Board) (move_from move_to : string)
    (f' r' : Z) :
  pieces_consistent b ->
  execute_move depth b move_from move_to = Ret (true, b') ->
  on_board f' r' ->
  convert_to_bitboard (PyStr move_to) = Ret (Some (bit (square f' r'))) ->
  count_squares (own_bb b') = count_squares (own_bb b) /\
  count_squares (opponent_bb b) =
    (count_squares (opponent_bb b') + (if opponent_at b f' r' then 1 else 0))%nat.
Proof.
  intros Hp Hmove Hb2 Hto2.
  destruct (execute_move_success _ _ _ _ _ Hmove)
    as (f & r & f0 & r0 & idx & x & legal & Hb & Hb' & _ & Hto & Hx & Hxi & Hown & _ & _ & Hupd).
  pose proof (square_range f r Hb) as Hsq. pose proof (square_range f0 r0 Hb') as Hsq'.
  pose proof (square_range f' r' Hb2) as Hsq2.
  rewrite Hto2 in Hto. injection Hto as E. apply bit_inj in E; [|lia|lia].
  rewrite <- E in *. clear E Hb' f0 r0.
  pose proof (proj1 (pieces_sides_iff b) Hp) as Hsides.
  destruct (moved_board_sides b (square f r) (square f' r') idx x b'
              ltac:(lia) ltac:(lia) Hsides Hx Hxi Hown Hupd)
    as (_ & _ & _ & M4 & M5 & _).
  destruct Hsides as (_ & _ & _ & _ & S5 & _).
  assert (Hown_o : Z.testbit (own_bb b) (square f r) = true).
  { rewrite S5. apply testbit_union_bb. eauto. }
  split.
  - rewrite M4, count_squares_set, <- count_squares_clear; try assumption; try reflexivity.
    rewrite Z.land_spec, Hown. reflexivity.
  - rewrite M5. unfold opponent_at, clear_bits.
    destruct (Z.testbit (opponent_bb b) (square f' r')) eqn:Hopp.
    + rewrite (count_squares_clear _ (square f' r')) by assumption. lia.
    + rewrite Nat.add_0_r. apply count_squares_ext. intros i Hi.
      rewrite Z.land_spec, Z.lnot_spec, testbit_bit by lia.
      destruct (Z.eqb_spec (square f' r') i) as [<-|]; [now rewrite Hopp | now rewrite andb_true_r].
Qed.

Lemma material_count_witness :
  exists b',
    pieces_consistent a_file_position /\
    execute_move 8 a_file_position "A1" "A8" = Ret (true, b') /\
    count_squares (opponent_bb a_file_position) = (count_squares (opponent_bb b') + 1)%nat.
Proof.
  assert (Hp : pieces_consistent a_file_position)
    by exact (consistent_pieces _ (reachable_invariant _ reachable_a_file_position)).
  assert (Hmove : {b' | execute_move 8 a_file_position "A1" "A8" = Ret (true, b')})
    by (eexists; vm_compute; reflexivity).
  destruct Hmove as [b' Hmove]. exists b'.
  split; [exact Hp|]. split; [exact Hmove|].
  assert (Hb : on_board 0 7) by (unfold on_board; lia).
  assert (Hto : convert_to_bitboard (PyStr "A8") = Ret (Some (bit (square 0 7))))
    by reflexivity.
  assert (Hopp : opponent_at a_file_position 0 7 = true) by (vm_compute; reflexivity).
  pose proof (proj2 (material_count 8 a_file_position b' "A1" "A8" 0 7 Hp Hmove Hb Hto)) as H.
  rewrite Hopp in H. exact H.
Defined.

(** ** The two read-once getters *)

(** X22: On a board in play the getters never fail on a bad index.
    [get_piece_captured] always returns, and a second call returns [None]
    and leaves the board alone.  [get_piece_moved] raises [TypeError] when
    no moved piece is recorded; otherwise it returns the name of a kind, and
    a second call raises [TypeError]. *)
Theorem getters_read_once (b : Board) :
  in_play b ->
  (exists captured b',
     get_piece_captured b = Ret (captured, b') /\
     get_piece_captured b' = Ret (None, b')) /\
  ((_piece_moved_index b = None /\ get_piece_moved b = Raise TypeError) \/
   (exists idx name,
      _piece_moved_index b = Some idx /\ _piece_names !! idx = Some name /\
      get_piece_moved b = Ret (name, set_piece_moved_index None b) /\
      get_piece_moved (set_piece_moved_index None b) = Raise TypeError)).
Proof.
  intros H. destruct (in_play_board_invariant b H) as [_ _ _ Hm Hc]. split.
  - unfold get_piece_captured at 1.
    destruct (_piece_captured_index b) as [c|] eqn:Ec.
    + destruct (lookup_lt_is_Some_2 _piece_names c (Hc c eq_refl)) as [name ->].
      eexists _, _. split; reflexivity.
    + exists None, b. split; [reflexivity|]. unfold get_piece_captured. now rewrite Ec.
  - destruct (_piece_moved_index b) as [idx|] eqn:Ei.
    + right. destruct (lookup_lt_is_Some_2 _piece_names idx (Hm idx eq_refl)) as [name Hname].
      exists idx, name. split; [reflexivity|]. split; [exact Hname|]. split.
      * unfold get_piece_moved. rewrite Ei. cbn [index_of bind]. now rewrite Hname.
      * reflexivity.
    + left. split; [reflexivity|]. unfold get_piece_moved. now rewrite Ei.
Qed.

Lemma getters_read_once_witness :
  in_play setup_new_board /\
  _piece_moved_index setup_new_board = None /\
  get_piece_moved setup_new_board = Raise TypeError.
Proof.
  split; [exact in_play_init|].
  destruct (proj2 (getters_read_once setup_new_board in_play_init))
    as [Hnone | (idx & name & Hsome & _)]; [exact Hnone | discriminate Hsome].
Defined.
